(** * BrightDayBot: birthday scheduling and announcement pipeline

    A shallow embedding of the date arithmetic ([utils/date_utils.py]), the
    per-day announcement ledger ([utils/storage.py]), the message composer
    ([utils/message_generator.py]) and the daily scheduler
    ([services/birthday.py]), followed by the properties proved about them.

    Conventions of the embedding.
    - Python [int] is [Z]; a [str] is a [string] of 8-bit characters (the
      UTF-8 bytes of the text), and the classes [\d], [\s], [\w] of a
      regular expression and of [str.strip] are their ASCII ranges: the
      embedding is exact on ASCII text, and takes every byte above 127 as
      neither digit, white space nor word character.
    - A function that may raise returns a [res]; a loop without a bound
      takes fuel and returns [None] when the fuel is used up.
    - What the source reads from its surroundings is an explicit argument:
      the clock ([datetime.now()]), the generative backend, the chat
      platform, the random choices, the tracking directory. *)

From Stdlib Require Import ZArith Lia Bool Ascii String List.
From Stdlib Require DecimalString DecimalPos.
From stdpp Require Import base gmap strings list.

Local Open Scope Z_scope.

(** ** Results of code that may raise *)

Inductive exn := ValueError.

Inductive res (A : Type) :=
| Ok (a : A)
| Raise (e : exn).
Arguments Ok {A} a.
Arguments Raise {A} e.

Definition res_bind {A B} (r : res A) (k : A -> res B) : res B :=
  match r with
  | Ok a => k a
  | Raise e => Raise e
  end.

(** ** Text: the [str] operations the program uses *)

Module Text.

Definition nl : ascii := ascii_of_nat 10.

(** [str.isspace] on one character, ASCII part: TAB..CR, FS..US, space. *)
Definition is_space (c : ascii) : bool :=
  let n := nat_of_ascii c in
  ((9 <=? n) && (n <=? 13) || (28 <=? n) && (n <=? 32))%nat.

Definition is_digit (c : ascii) : bool :=
  let n := nat_of_ascii c in ((48 <=? n) && (n <=? 57))%nat.

(** [\w]: letters, digits and the underscore. *)
Definition is_word (c : ascii) : bool :=
  let n := nat_of_ascii c in
  (is_digit c || (65 <=? n) && (n <=? 90) || (97 <=? n) && (n <=? 122)
   || (n =? 95))%nat.

Definition digit_val (c : ascii) : Z := Z.of_nat (nat_of_ascii c) - 48.

Fixpoint starts_with (p s : string) : bool :=
  match p, s with
  | EmptyString, _ => true
  | String a p', String b s' => if ascii_dec a b then starts_with p' s' else false
  | String _ _, EmptyString => false
  end.

(** [t in s] *)
Fixpoint contains (t s : string) : bool :=
  starts_with t s ||
  match s with
  | EmptyString => false
  | String _ s' => contains t s'
  end.

(** [s.replace(old, new)] for a non-empty [old]: every occurrence, left to
    right, without overlap.  [skip] counts the characters of an occurrence
    already replaced that are still to be passed over. *)
Fixpoint replace_from (old new : string) (skip : nat) (s : string) : string :=
  match s with
  | EmptyString => EmptyString
  | String c s' =>
      match skip with
      | S k => replace_from old new k s'
      | O =>
          if starts_with old s
          then new +:+ replace_from old new (Nat.pred (String.length old)) s'
          else String c (replace_from old new O s')
      end
  end.

Definition replace (old new s : string) : string := replace_from old new O s.

Fixpoint lstrip (s : string) : string :=
  match s with
  | String c s' => if is_space c then lstrip s' else s
  | EmptyString => EmptyString
  end.

Fixpoint rstrip (s : string) : string :=
  match s with
  | EmptyString => EmptyString
  | String c s' =>
      match rstrip s' with
      | EmptyString => if is_space c then EmptyString else String c EmptyString
      | r => String c r
      end
  end.

(** [s.strip()] *)
Definition strip (s : string) : string := rstrip (lstrip s).

(** [s.split(sep)] for a one-character separator. *)
Fixpoint split (sep : ascii) (s : string) : list string :=
  match s with
  | EmptyString => [EmptyString]
  | String c s' =>
      if ascii_dec c sep then EmptyString :: split sep s'
      else match split sep s' with
           | p :: ps => String c p :: ps
           | [] => [String c EmptyString]
           end
  end.

(** [str(n)] *)
Definition str_of_Z (n : Z) : string :=
  DecimalString.NilZero.string_of_int (Z.to_int n).

(** Digits with single underscores between them, most significant first. *)
Fixpoint digits_val (acc : Z) (after_digit : bool) (s : string) : option Z :=
  match s with
  | EmptyString => if after_digit then Some acc else None
  | String c s' =>
      if is_digit c then digits_val (10 * acc + digit_val c) true s'
      else if ascii_dec c "_"
           then if after_digit then digits_val acc false s' else None
           else None
  end.

(** [int(s)] on text: surrounding white space, an optional sign, decimal
    digits.  [None] is [ValueError]. *)
Definition int_of_str (s : string) : option Z :=
  match strip s with
  | String "-" d => Z.opp <$> digits_val 0 false d
  | String "+" d => digits_val 0 false d
  | d => digits_val 0 false d
  end.

(** [sep.join(parts)] *)
Fixpoint join (sep : string) (parts : list string) : string :=
  match parts with
  | [] => EmptyString
  | [p] => p
  | p :: rest => p +:+ sep +:+ join sep rest
  end.

(** A text given line by line: the lines joined by the newline character. *)
Definition lines (ls : list string) : string := join (String nl EmptyString) ls.

Definition pad2 (n : Z) : string :=
  if n <? 10 then "0" +:+ str_of_Z n else str_of_Z n.

End Text.

(** ** Regular expressions: the part of [re] the program uses

    A backtracking matcher with the priorities of Python's [re]: a greedy
    repetition tries one more character before it tries the rest of the
    pattern, a lazy one the other way round, and [search] returns the match
    of the leftmost position at which the pattern matches at all. *)

Module Regex.
Import Text.

Inductive re :=
| Eps
| Chr (c : ascii)                       (* a literal character *)
| Cls (p : ascii -> bool)               (* one character of a class *)
| Rep (p : ascii -> bool) (lo : nat) (hi : option nat) (greedy : bool)
                                        (* x{lo,hi}, x*, x+ and their lazy forms *)
| Grp (n : nat) (r : re)                (* capturing group number n *)
| Bol                                   (* ^ under re.MULTILINE *)
| Eol                                   (* $ under re.MULTILINE *)
| Wordb                                 (* \b *)
| NotAhead (r : re)                     (* (?!r) *)
| Seq (r1 r2 : re).

Definition seq (rs : list re) : re := foldr Seq Eps rs.

(** [.] without and with [re.DOTALL] *)
Definition dot : ascii -> bool := fun c => if ascii_dec c nl then false else true.
Definition dotall : ascii -> bool := fun _ => true.
Definition one_of (cs : string) : ascii -> bool :=
  fun c => contains (String c EmptyString) cs.
Definition lazy_star (p : ascii -> bool) : re := Rep p 0 None false.
Definition plus (p : ascii -> bool) : re := Rep p 1 None true.
Definition exactly (n : nat) (p : ascii -> bool) : re := Rep p n (Some n) true.

(** The groups closed so far, the latest first. *)
Definition groups := list (nat * string).

Definition group (n : nat) (g : groups) : string :=
  match List.find (fun e => Nat.eqb (fst e) n) g with
  | Some e => snd e
  | None => EmptyString
  end.

(** A continuation receives the character before the position reached, the
    text from that position on, the position and the groups. *)
Definition cont (R : Type) := option ascii -> string -> nat -> groups -> option R.

Definition or_else {R} (a : option R) (b : unit -> option R) : option R :=
  match a with
  | Some x => Some x
  | None => b tt
  end.

Definition may_repeat (hi : option nat) : bool :=
  match hi with
  | Some O => false
  | _ => true
  end.

Fixpoint rep {R} (p : ascii -> bool) (greedy : bool) (lo : nat) (hi : option nat)
    (k : cont R) (prev : option ascii) (s : string) (pos : nat) (g : groups)
    {struct s} : option R :=
  let stop := fun _ : unit =>
    match lo with
    | O => k prev s pos g
    | S _ => None
    end in
  let more := fun _ : unit =>
    match s with
    | String c s' =>
        if may_repeat hi && p c
        then rep p greedy (Nat.pred lo) (Nat.pred <$> hi) k (Some c) s' (S pos) g
        else None
    | EmptyString => None
    end in
  if greedy then or_else (more tt) stop else or_else (stop tt) more.

Definition word_before (prev : option ascii) : bool :=
  match prev with
  | Some c => is_word c
  | None => false
  end.

Definition word_after (s : string) : bool :=
  match s with
  | String c _ => is_word c
  | EmptyString => false
  end.

Definition at_bol (prev : option ascii) : bool :=
  match prev with
  | Some c => if ascii_dec c nl then true else false
  | None => true
  end.

Definition at_eol (s : string) : bool :=
  match s with
  | String c _ => if ascii_dec c nl then true else false
  | EmptyString => true
  end.

Fixpoint matches (R : Type) (r : re) (k : cont R)
    (prev : option ascii) (s : string) (pos : nat) (g : groups) : option R :=
  match r with
  | Eps => k prev s pos g
  | Chr c =>
      match s with
      | String a s' => if ascii_dec a c then k (Some a) s' (S pos) g else None
      | EmptyString => None
      end
  | Cls p =>
      match s with
      | String a s' => if p a then k (Some a) s' (S pos) g else None
      | EmptyString => None
      end
  | Rep p lo hi greedy => rep p greedy lo hi k prev s pos g
  | Grp n r1 =>
      matches R r1
        (fun prev' s' pos' g' =>
           k prev' s' pos' ((n, String.substring 0 (pos' - pos)%nat s) :: g'))
        prev s pos g
  | Bol => if at_bol prev then k prev s pos g else None
  | Eol => if at_eol s then k prev s pos g else None
  | Wordb => if xorb (word_before prev) (word_after s) then k prev s pos g else None
  | NotAhead r1 =>
      match matches unit r1 (fun _ _ _ _ => Some tt) prev s pos g with
      | Some _ => None
      | None => k prev s pos g
      end
  | Seq r1 r2 => matches R r1 (matches R r2 k) prev s pos g
  end.

(** The match starting at this position, if any: its end and its groups. *)
Definition match_here (r : re) (prev : option ascii) (s : string) (pos : nat)
  : option (nat * groups) :=
  matches _ r (fun _ _ e g => Some (e, g)) prev s pos [].

Fixpoint search_from (r : re) (prev : option ascii) (s : string) (pos : nat)
  : option (nat * nat * groups) :=
  match match_here r prev s pos with
  | Some (e, g) => Some (pos, e, g)
  | None =>
      match s with
      | String c s' => search_from r (Some c) s' (S pos)
      | EmptyString => None
      end
  end.

(** [re.search(r, s)]: start, end and groups of the leftmost match. *)
Definition search (r : re) (s : string) : option (nat * nat * groups) :=
  search_from r None s 0.

(** A replacement template such as [r"<\2|\1>"]. *)
Inductive piece :=
| Lit (s : string)
| Ref (n : nat).

Definition expand (tpl : list piece) (g : groups) : string :=
  foldr (fun p acc => match p with
                      | Lit s => s +:+ acc
                      | Ref n => group n g +:+ acc
                      end) EmptyString tpl.

(** [re.sub(r, tpl, s)]: the matches are replaced from left to right, each
    search starting where the previous match ended.  [skip] counts the
    characters of the last match still to be passed over.  (After an empty
    match the next character is copied; none of the patterns below can
    match the empty text.) *)
Fixpoint sub_from (r : re) (tpl : list piece) (prev : option ascii)
    (s : string) (pos skip : nat) {struct s} : string :=
  match skip with
  | S k =>
      match s with
      | String c s' => sub_from r tpl (Some c) s' (S pos) k
      | EmptyString => EmptyString
      end
  | O =>
      match match_here r prev s pos with
      | Some (e, g) =>
          expand tpl g +:+
          match s with
          | String c s' =>
              if (e <=? pos)%nat
              then String c (sub_from r tpl (Some c) s' (S pos) O)
              else sub_from r tpl (Some c) s' (S pos) (e - pos - 1)%nat
          | EmptyString => EmptyString
          end
      | None =>
          match s with
          | String c s' => String c (sub_from r tpl (Some c) s' (S pos) O)
          | EmptyString => EmptyString
          end
      end
  end.

Definition sub (r : re) (tpl : list piece) (s : string) : string :=
  sub_from r tpl None s 0 0.

End Regex.

(** ** DateEngine: [utils/date_utils.py] *)

Module date_utils.
Import Text.

(** A [datetime], reduced to its calendar date: no function of the module
    looks at the time of day ([calculate_days_until_birthday] strips it). *)
Record datetime := mkdate { year : Z; month : Z; day : Z }.

Definition is_leap (y : Z) : bool :=
  (y mod 4 =? 0) && (negb (y mod 100 =? 0) || (y mod 400 =? 0)).

Definition days_in_month (y m : Z) : Z :=
  match m with
  | 2 => if is_leap y then 29 else 28
  | 4 | 6 | 9 | 11 => 30
  | _ => 31
  end.

Definition MINYEAR : Z := 1.
Definition MAXYEAR : Z := 9999.

Definition date_ok (y m d : Z) : bool :=
  (MINYEAR <=? y) && (y <=? MAXYEAR) && (1 <=? m) && (m <=? 12)
  && (1 <=? d) && (d <=? days_in_month y m).

(** The constructor [datetime(y, m, d, tzinfo=timezone.utc)]; [None] is the
    [ValueError] it raises for a date outside the calendar. *)
Definition new_datetime (y m d : Z) : option datetime :=
  if date_ok y m d then Some (mkdate y m d) else None.

Definition valid_datetime (t : datetime) : Prop :=
  date_ok (year t) (month t) (day t) = true.

Definition days_before_year (y : Z) : Z :=
  let p := y - 1 in p * 365 + p / 4 - p / 100 + p / 400.

Definition days_before_month (y m : Z) : Z :=
  match m with
  | 1 => 0 | 2 => 31 | 3 => 59 | 4 => 90 | 5 => 120 | 6 => 151
  | 7 => 181 | 8 => 212 | 9 => 243 | 10 => 273 | 11 => 304 | _ => 334
  end + (if (2 <? m) && is_leap y then 1 else 0).

(** [toordinal]: day number, 1 for 0001-01-01. *)
Definition ordinal (t : datetime) : Z :=
  days_before_year (year t) + days_before_month (year t) (month t) + day t.

(** [a < b] on datetimes of the same time of day. *)
Definition dt_lt (a b : datetime) : bool :=
  (year a <? year b)
  || (year a =? year b) && ((month a <? month b)
                            || (month a =? month b) && (day a <? day b)).

(** [(a - b).days] *)
Definition days_between (a b : datetime) : Z := ordinal a - ordinal b.

(** [day, month = map(int, date_str.split("/"))] *)
Definition split_day_month (date_str : string) : res (Z * Z) :=
  match split "/" date_str with
  | [a; b] =>
      match int_of_str a, int_of_str b with
      | Some d, Some m => Ok (d, m)
      | _, _ => Raise ValueError
      end
  | _ => Raise ValueError
  end.

(** *** [datetime.strptime] for the two formats of [config/settings.py] *)

Definition DATE_FORMAT : string := "%d/%m".
Definition DATE_WITH_YEAR_FORMAT : string := "%d/%m/%Y".

Definition two_digits (a b : ascii) : Z := 10 * digit_val a + digit_val b.

(** [%d]: [3[0-1]|[1-2]\d|0[1-9]|[1-9]| [1-9]] *)
Definition parse_day (s : string) : option (Z * string) :=
  let one c := is_digit c && negb (digit_val c =? 0) in
  let two a b := is_digit a && is_digit b
                 && (1 <=? two_digits a b) && (two_digits a b <=? 31) in
  match s with
  | String a (String b r) =>
      if two a b then Some (two_digits a b, r)
      else if one a then Some (digit_val a, String b r)
      else if ascii_dec a " " then
             if one b then Some (digit_val b, r) else None
      else None
  | String a EmptyString => if one a then Some (digit_val a, EmptyString) else None
  | EmptyString => None
  end.

(** [%m]: [1[0-2]|0[1-9]|[1-9]] *)
Definition parse_month (s : string) : option (Z * string) :=
  let one c := is_digit c && negb (digit_val c =? 0) in
  let two a b := is_digit a && is_digit b
                 && (1 <=? two_digits a b) && (two_digits a b <=? 12) in
  match s with
  | String a (String b r) =>
      if two a b then Some (two_digits a b, r)
      else if one a then Some (digit_val a, String b r)
      else None
  | String a EmptyString => if one a then Some (digit_val a, EmptyString) else None
  | EmptyString => None
  end.

(** [%Y]: [\d\d\d\d] *)
Definition parse_year (s : string) : option (Z * string) :=
  match s with
  | String a (String b (String c (String d r))) =>
      if is_digit a && is_digit b && is_digit c && is_digit d
      then Some (100 * two_digits a b + two_digits c d, r)
      else None
  | _ => None
  end.

Definition expect (c : ascii) (s : string) : option string :=
  match s with
  | String a r => if ascii_dec a c then Some r else None
  | EmptyString => None
  end.

(** [datetime.strptime(s, "%d/%m")]: the year defaults to 1900, and the
    date is then built by the constructor. *)
Definition strptime_dm (s : string) : res datetime :=
  match
    '(d, r) ← parse_day s; r ← expect "/" r; '(m, r) ← parse_month r;
    if r is EmptyString then new_datetime 1900 m d else None
  with
  | Some t => Ok t
  | None => Raise ValueError
  end.

(** [datetime.strptime(s, "%d/%m/%Y")] *)
Definition strptime_dmy (s : string) : res datetime :=
  match
    '(d, r) ← parse_day s; r ← expect "/" r; '(m, r) ← parse_month r;
    r ← expect "/" r; '(y, r) ← parse_year r;
    if r is EmptyString then new_datetime y m d else None
  with
  | Some t => Ok t
  | None => Raise ValueError
  end.

(** [t.strftime("%d/%m")] *)
Definition strftime_dm (t : datetime) : string :=
  pad2 (day t) +:+ "/" +:+ pad2 (month t).

(** The two clocks the program reads: [datetime.now()] (local time) and
    [datetime.now(timezone.utc)]. *)
Record clock := mkclock { now : datetime; utcnow : datetime }.

(** *** [extract_date] *)

(** [\b(\d{2}/\d{2}/\d{4})\b] *)
Definition year_re : Regex.re :=
  Regex.seq [Regex.Wordb;
             Regex.Grp 1 (Regex.seq [Regex.exactly 2 is_digit; Regex.Chr "/";
                                     Regex.exactly 2 is_digit; Regex.Chr "/";
                                     Regex.exactly 4 is_digit]);
             Regex.Wordb].

(** [\b(\d{2}/\d{2})(?!/\d{4})\b] *)
Definition bare_re : Regex.re :=
  Regex.seq [Regex.Wordb;
             Regex.Grp 1 (Regex.seq [Regex.exactly 2 is_digit; Regex.Chr "/";
                                     Regex.exactly 2 is_digit]);
             Regex.NotAhead (Regex.seq [Regex.Chr "/"; Regex.exactly 4 is_digit]);
             Regex.Wordb].

Inductive status := success | no_date | invalid_date.

(** The dictionary [{"status": .., "date": .., "year": ..}]. *)
Record extracted := mkextracted {
  ex_status : status;
  ex_date : option string;
  ex_year : option Z
}.

Definition extract_date (message : string) : extracted :=
  match Regex.search year_re message with
  | Some (_, _, g) =>
      let date_with_year := Regex.group 1 g in
      match strptime_dmy date_with_year with
      | Ok date_obj =>
          mkextracted success (Some (strftime_dm date_obj)) (Some (year date_obj))
      | Raise ValueError => mkextracted invalid_date None None
      end
  | None =>
      match Regex.search bare_re message with
      | None => mkextracted no_date None None
      | Some (_, _, g) =>
          let date := Regex.group 1 g in
          match strptime_dm date with
          | Ok _ => mkextracted success (Some date) None
          | Raise ValueError => mkextracted invalid_date None None
          end
      end
  end.

(** *** [date_to_words] *)

(** [calendar.month_name] *)
Definition month_name (m : Z) : string :=
  match m with
  | 1 => "January" | 2 => "February" | 3 => "March" | 4 => "April"
  | 5 => "May" | 6 => "June" | 7 => "July" | 8 => "August"
  | 9 => "September" | 10 => "October" | 11 => "November" | 12 => "December"
  | _ => ""
  end.

Definition day_suffix (d : Z) : string :=
  match d mod 10 with
  | 1 => "st" | 2 => "nd" | 3 => "rd" | _ => "th"
  end.

(** Truth value of an optional integer: [None] and [0] are false. *)
Definition truthy_int (y : option Z) : bool :=
  match y with
  | Some v => negb (v =? 0)
  | None => false
  end.

Definition date_to_words (date : string) (year : option Z) : res string :=
  res_bind (strptime_dm date) (fun date_obj =>
    let day := day date_obj in
    let day_str :=
      if (11 <=? day) && (day <=? 13) then str_of_Z day +:+ "th"
      else str_of_Z day +:+ day_suffix day in
    let month := month_name (month date_obj) in
    match year with
    | Some y =>
        if truthy_int year
        then Ok (day_str +:+ " of " +:+ month +:+ ", " +:+ str_of_Z y)
        else Ok (day_str +:+ " of " +:+ month)
    | None => Ok (day_str +:+ " of " +:+ month)
    end).

(** *** [calculate_age]: reads [datetime.now()] *)

Definition calculate_age (clk : clock) (birth_year : Z) (birth_date : option string) : Z :=
  let today := now clk in
  let age := year today - birth_year in
  match birth_date with
  | Some (String _ _ as bd) =>
      match split_day_month bd with
      | Ok (day, month) =>
          if (date_utils.month today <? month)
             || (date_utils.month today =? month) && (date_utils.day today <? day)
          then age - 1 else age
      | Raise ValueError => age
      end
  | _ => age
  end.

(** *** [check_if_birthday_today] *)

Definition check_if_birthday_today (clk : clock) (date_str : string)
    (reference_date : option datetime) : res bool :=
  let reference_date := default (utcnow clk) reference_date in
  res_bind (split_day_month date_str) (fun '(day, month) =>
    Ok ((day =? date_utils.day reference_date)
        && (month =? date_utils.month reference_date))).

(** *** [calculate_days_until_birthday] *)

(** The loop [while True: try: datetime(next_year, month, day) ... except
    ValueError: next_year += 1].  [None]: the fuel ran out. *)
Fixpoint next_valid_year (fuel : nat) (next_year month day : Z) : option datetime :=
  match fuel with
  | O => None
  | S fuel' =>
      match new_datetime next_year month day with
      | Some birthday_date => Some birthday_date
      | None => next_valid_year fuel' (next_year + 1) month day
      end
  end.

Definition calculate_days_until_birthday (fuel : nat) (clk : clock)
    (date_str : string) (reference_date : option datetime) : option (res Z) :=
  let reference_date := default (utcnow clk) reference_date in
  match split_day_month date_str with
  | Raise e => Some (Raise e)
  | Ok (day, month) =>
      (* the [try] block: this year's birthday, or next year's if passed *)
      let attempt :=
        match new_datetime (year reference_date) month day with
        | Some birthday_date =>
            if dt_lt birthday_date reference_date
            then new_datetime (year reference_date + 1) month day
            else Some birthday_date
        | None => None
        end in
      match attempt with
      | Some birthday_date => Some (Ok (days_between birthday_date reference_date))
      | None =>
          (* [except ValueError]: roll forward year by year *)
          match next_valid_year fuel (year reference_date + 1) month day with
          | Some birthday_date => Some (Ok (days_between birthday_date reference_date))
          | None => None
          end
      end
  end.

(** *** [get_star_sign] *)

Definition get_star_sign (date_str : string) : option string :=
  match split_day_month date_str with
  | Raise _ => None
  | Ok (day, month) =>
      Some (
        if (month =? 1) && (20 <=? day) || (month =? 2) && (day <=? 18) then "Aquarius"
        else if (month =? 2) && (19 <=? day) || (month =? 3) && (day <=? 20) then "Pisces"
        else if (month =? 3) && (21 <=? day) || (month =? 4) && (day <=? 19) then "Aries"
        else if (month =? 4) && (20 <=? day) || (month =? 5) && (day <=? 20) then "Taurus"
        else if (month =? 5) && (21 <=? day) || (month =? 6) && (day <=? 20) then "Gemini"
        else if (month =? 6) && (21 <=? day) || (month =? 7) && (day <=? 22) then "Cancer"
        else if (month =? 7) && (23 <=? day) || (month =? 8) && (day <=? 22) then "Leo"
        else if (month =? 8) && (23 <=? day) || (month =? 9) && (day <=? 22) then "Virgo"
        else if (month =? 9) && (23 <=? day) || (month =? 10) && (day <=? 22) then "Libra"
        else if (month =? 10) && (23 <=? day) || (month =? 11) && (day <=? 21) then "Scorpio"
        else if (month =? 11) && (22 <=? day) || (month =? 12) && (day <=? 21) then "Sagittarius"
        else "Capricorn")
  end.

End date_utils.

(** ** Chat platform helpers: [utils/slack_utils.py] *)

Module slack_utils.

(** Truth value of an optional text: [None] and the empty text are false. *)
Definition truthy_str (s : option string) : bool :=
  match s with
  | Some (String _ _) => true
  | _ => false
  end.

Definition get_user_mention (user_id : option string) : string :=
  match user_id with
  | Some (String _ _ as u) => "<@" +:+ u +:+ ">"
  | _ => "Unknown User"
  end.

End slack_utils.

(** ** MessageComposer: [utils/message_generator.py] *)

Module message_generator.
Import Text date_utils slack_utils.

(** Birthday announcement formats *)
Definition BIRTHDAY_INTROS : list string := [
  ":birthday: ATTENTION WONDERFUL HUMANS! :tada:";
  ":loudspeaker: :sparkles: SPECIAL ANNOUNCEMENT FOR EVERYONE! :sparkles: :loudspeaker:";
  ":rotating_light: BIRTHDAY ALERT! BIRTHDAY ALERT! :rotating_light:";
  ":mega: HEY <!channel>! STOP WHAT YOU'RE DOING! :mega:";
  ":siren: URGENT: CAKE NEEDED IN THE CHAT! :siren:"
].

Definition BIRTHDAY_MIDDLES : list string := [
  "Time to take a break from work and gather 'round because... :drum:";
  "We have a very special occasion that demands your immediate attention! :eyes:";
  "Put those Slack notifications on pause because this is WAY more important! :no_bell:";
  "Forget those deadlines for a moment, we've got something to celebrate! :confetti_ball:";
  "Clear your calendar and prepare the party emojis, folks! :calendar: :tada:"
].

Definition BIRTHDAY_CALL_TO_ACTIONS : list string := [
  lines
    [":mega: Let's make some noise and flood the chat with good wishes! Bring your:";
     "• Best GIFs :movie_camera:";
     "• Favorite memories :brain:";
     "• Terrible puns encouraged :nerd_face:"];
  lines
    [":sparkles: Time to shower them with birthday love! Don't hold back on:";
     "• Your most ridiculous emojis :stuck_out_tongue_winking_eye:";
     "• Work-appropriate birthday memes :framed_picture:";
     "• Tales of their legendary feats :superhero:"];
  lines
    [":confetti_ball: Operation Birthday Spam is now active! Contribute with:";
     "• Birthday song lyrics :musical_note:";
     "• Virtual cake slices :cake:";
     "• Your worst dad jokes :man:"];
  lines
    [":rocket: Launch the birthday celebration protocols! Required items:";
     "• Embarrassing compliments :blush:";
     "• Pet photos (always welcome) :dog:";
     "• More exclamation points than necessary!!!!!!"];
  lines
    [":star2: Commence birthday appreciation sequence! Please submit:";
     "• Appreciation in GIF form :gift:";
     "• Your best birthday haiku :scroll:";
     "• Creative use of emojis :art:"]
].

Definition BIRTHDAY_ENDINGS : list string := [
  ":point_down: Drop your birthday messages below! :point_down:";
  ":eyes: We're all watching to see who posts the best birthday wish! :eyes:";
  ":alarm_clock: Don't delay! Birthday wishes must be submitted ASAP! :alarm_clock:";
  ":white_check_mark: Your participation in this birthday celebration is mandatory and appreciated! :white_check_mark:";
  ":handshake: Together we can make this the best birthday they've had at work yet! :handshake:"
].

(** Age-based fun facts *)
Definition AGE_FACTS : list (Z * string) := [
  (20, "You're officially out of your teens! Welcome to the decade of figuring out how taxes work!");
  (21, "You can now legally drink in the US! But you'll still get carded until you're 35!");
  (25, "Quarter of a century! You're now officially vintage... but not yet an antique!");
  (30, "Welcome to your 30s! Your back will start making weird noises when you stand up now!");
  (35, "You're now officially 'mid-thirties' - where you inexplicably start enjoying gardening and early nights!");
  (40, "40 is like your 30s but with reading glasses! Welcome to the club!");
  (45, "At 45, you've earned the right to complain about 'kids these days' without irony!");
  (50, "Half a century! You're basically a walking historical monument now!");
  (55, "55! Like being 25, but with more wisdom, money, and knee pain!");
  (60, "You're now entering the golden years! Where 'going wild' means staying up past 10pm!");
  (65, "Traditional retirement age! But knowing you, you're just getting started!");
  (70, "70 years young! You're officially old enough to get away with saying whatever you want!");
  (75, "You've been around for three quarters of a century! That's a lot of cake!");
  (80, "80 years strong! That deserves a standing ovation!");
  (90, "90 years strong! You should be studied by scientists to discover your secret!");
  (100, "A CENTURY! You've officially unlocked legendary status!")
].

(** Backup birthday messages for fallback if the API fails *)
Definition BACKUP_MESSAGES : list string := [
  lines
    ["";
     ":birthday: HAPPY BIRTHDAY {name}!!! :tada:";
     "";
     "<!channel> We've got a birthday to celebrate! ";
     "";
     ":cake: :cake: :cake: :cake: :cake: :cake: :cake:";
     "";
     "*Let the festivities begin!* :confetti_ball: ";
     "";
     "Wishing you a day filled with:";
     "• Joy :smile:";
     "• Laughter :joy:";
     "• _Way too much_ cake :cake:";
     "• Zero work emails :no_bell:";
     "";
     "Any special celebration plans for your big day? :sparkles:";
     "";
     ":point_down: Drop your birthday wishes below! :point_down:";
     "    "];
  lines
    ["";
     ":rotating_light: ATTENTION <!channel> :rotating_light:";
     "";
     "IT'S {name}'s BIRTHDAY!!! :birthday: ";
     "";
     ":star2: :star2: :star2: :star2: :star2:";
     "";
     "Time to celebrate *YOU* and all the awesome you bring to our team! :muscle:";
     "";
     "• Your jokes :laughing:";
     "• Your hard work :computer:";
     "• Your brilliant ideas :bulb:";
     "• Just being YOU :heart:";
     "";
     "Hope your day is as amazing as you are! :star:";
     "";
     "So... how are you planning to celebrate? :thinking_face:";
     "    "];
  lines
    ["";
     ":alarm_clock: *Birthday Alert* :alarm_clock:";
     "";
     "<!channel> Everyone drop what you're doing because...";
     "";
     "{name} is having a BIRTHDAY today! :birthday:";
     "";
     ":cake: :gift: :balloon: :confetti_ball: :cake: :gift: :balloon:";
     "";
     "Wishing you:";
     "• Mountains of cake :mountain:";
     "• Oceans of presents :ocean:";
     "• Absolutely *zero* work emails! :no_bell:";
     "";
     "What's on the birthday agenda today? :calendar:";
     "";
     ":point_right: Reply with your best birthday GIF! :point_left:";
     "    "];
  lines
    ["";
     "Whoop whoop! :tada: ";
     "";
     ":loudspeaker: <!channel> Announcement! :loudspeaker:";
     "";
     "It's {name}'s special day! :birthday:";
     "";
     ":sparkles: :sparkles: :sparkles: :sparkles: :sparkles:";
     "";
     "May your birthday be filled with:";
     "• Cake that's *just right* :cake:";
     "• Presents that don't need returning :gift:";
     "• Birthday wishes that actually come true! :sparkles:";
     "";
     "How are you celebrating this year? :cake:";
     "";
     ":clap: :clap: :clap: :clap: :clap:";
     "    "];
  lines
    ["";
     ":rotating_light: SPECIAL BIRTHDAY ANNOUNCEMENT :rotating_light:";
     "";
     "<!channel> HEY EVERYONE! ";
     "";
     ":arrow_down: :arrow_down: :arrow_down:";
     "It's {name}'s birthday!";
     ":arrow_up: :arrow_up: :arrow_up:";
     "";
     ":birthday: :confetti_ball: :birthday: :confetti_ball:";
     "";
     "Time to shower them with:";
     "• ~Work assignments~ BIRTHDAY WISHES instead! :grin:";
     "• Your most ridiculous emojis :stuck_out_tongue_closed_eyes:";
     "• Virtual high-fives :raised_hands:";
     "";
     "Hope your special day is absolutely *fantastic*! :star2: ";
     "";
     "Any exciting birthday plans to share? :eyes:";
     "    "]
].

(** *** [fix_slack_formatting] *)

(** [\*\*(.*?)\*\*] *)
Definition bold_re : Regex.re :=
  Regex.seq [Regex.Chr "*"; Regex.Chr "*"; Regex.Grp 1 (Regex.lazy_star Regex.dot);
             Regex.Chr "*"; Regex.Chr "*"].

(** [__(.*?)__] *)
Definition italic_re : Regex.re :=
  Regex.seq [Regex.Chr "_"; Regex.Chr "_"; Regex.Grp 1 (Regex.lazy_star Regex.dot);
             Regex.Chr "_"; Regex.Chr "_"].

(** [\[(.*?)\]\((.*?)\)] *)
Definition link_re : Regex.re :=
  Regex.seq [Regex.Chr "["; Regex.Grp 1 (Regex.lazy_star Regex.dot); Regex.Chr "]";
             Regex.Chr "("; Regex.Grp 2 (Regex.lazy_star Regex.dot); Regex.Chr ")"].

(** [^(#{1,6})\s+(.*?)$] with [re.MULTILINE] *)
Definition header_re : Regex.re :=
  Regex.seq [Regex.Bol; Regex.Grp 1 (Regex.Rep (Regex.one_of "#") 1 (Some 6%nat) true);
             Regex.plus is_space; Regex.Grp 2 (Regex.lazy_star Regex.dot);
             Regex.Eol].

(** [<(?![@!#])(.*?)>] *)
Definition tag_re : Regex.re :=
  Regex.seq [Regex.Chr "<"; Regex.NotAhead (Regex.Cls (Regex.one_of "@!#"));
             Regex.Grp 1 (Regex.lazy_star Regex.dot); Regex.Chr ">"].

(** [```(.*?)```] with [re.DOTALL] *)
Definition code_re : Regex.re :=
  Regex.seq [Regex.Chr "`"; Regex.Chr "`"; Regex.Chr "`";
             Regex.Grp 1 (Regex.lazy_star Regex.dotall);
             Regex.Chr "`"; Regex.Chr "`"; Regex.Chr "`"].

(** [^>\s+(.*?)$] with [re.MULTILINE] *)
Definition quote_re : Regex.re :=
  Regex.seq [Regex.Bol; Regex.Chr ">"; Regex.plus is_space;
             Regex.Grp 1 (Regex.lazy_star Regex.dot); Regex.Eol].

Definition fix_slack_formatting (text : string) : string :=
  (* Fix bold formatting: Replace **bold** with *bold* *)
  let text := Regex.sub bold_re [Regex.Lit "*"; Regex.Ref 1; Regex.Lit "*"] text in
  (* Fix italic formatting: Replace __italic__ with _italic_ *)
  let text := Regex.sub italic_re [Regex.Lit "_"; Regex.Ref 1; Regex.Lit "_"] text in
  (* Fix markdown links: Replace [text](url) with <url|text> *)
  let text := Regex.sub link_re
                [Regex.Lit "<"; Regex.Ref 2; Regex.Lit "|"; Regex.Ref 1; Regex.Lit ">"]
                text in
  (* Fix markdown headers with # to just bold text *)
  let text := Regex.sub header_re [Regex.Lit "*"; Regex.Ref 2; Regex.Lit "*"] text in
  (* Remove HTML tags that might slip in *)
  let text := Regex.sub tag_re [Regex.Ref 1] text in
  (* Check for and fix incorrect code blocks *)
  let text := Regex.sub code_re [Regex.Lit "`"; Regex.Ref 1; Regex.Lit "`"] text in
  (* Fix blockquotes: replace markdown > with Slack's blockquote *)
  let text := Regex.sub quote_re [Regex.Lit ">>>"; Regex.Ref 1] text in
  text.

(** *** [create_birthday_announcement] *)

(** [random.choice(pool)], the random index being [i]. *)
Definition random_choice (i : nat) (pool : list string) : string :=
  nth (i mod length pool) pool EmptyString.

Definition safe_emojis : list string :=
  [":birthday:"; ":tada:"; ":cake:"; ":gift:"; ":sparkles:"; ":star:"; ":crown:"].

(** [min(age_keys, key=lambda x: abs(x - age))]: the first key at the least
    distance. *)
Fixpoint closest_key (age : Z) (best : Z) (keys : list Z) : Z :=
  match keys with
  | [] => best
  | k :: rest =>
      closest_key age (if Z.abs (k - age) <? Z.abs (best - age) then k else best) rest
  end.

Definition age_fact_for (age : Z) : string :=
  match List.find (fun e => fst e =? age) AGE_FACTS with
  | Some (_, fact) => fact
  | None =>
      if 0 <? age then
        match fst <$> AGE_FACTS with
        | k :: rest =>
            let closest := closest_key age k rest in
            if Z.abs (closest - age) <=? 3
            then match List.find (fun e => fst e =? closest) AGE_FACTS with
                 | Some (_, fact) => fact
                 | None => EmptyString
                 end
            else EmptyString
        | [] => EmptyString
        end
      else EmptyString
  end.

(** [clk] is the clock, [rnd k] the index taken by the [k]-th call of
    [random.choice]. *)
Definition create_birthday_announcement (clk : clock) (rnd : nat -> nat)
    (user_id : option string) (name : string) (date_str : string)
    (birth_year : option Z) : string :=
  (* Parse the date *)
  let '(month_name_str, day_num) :=
    match split_day_month date_str with
    | Ok (day, month) =>
        match new_datetime 2000 month day with (* Using leap year for formatting *)
        | Some date_obj => (month_name (date_utils.month date_obj),
                            str_of_Z (date_utils.day date_obj))
        | None => ("Unknown Month", "??")
        end
    | Raise ValueError => ("Unknown Month", "??")
    end in
  (* Calculate age if birth year is provided *)
  let '(age_text, age_fact) :=
    match birth_year with
    | Some birth_year =>
        if negb (birth_year =? 0) then
          let current_year := year (now clk) in
          let age := current_year - birth_year in
          (" (" +:+ str_of_Z age +:+ " years young)", age_fact_for age)
        else (EmptyString, EmptyString)
    | None => (EmptyString, EmptyString)
    end in
  (* Determine star sign if not provided *)
  let star_sign := get_star_sign date_str in
  let star_sign_text :=
    match star_sign with
    | Some (String _ _ as sign) => ":crystal_ball: " +:+ sign
    | _ => EmptyString
    end in
  (* Select random elements *)
  let intro := random_choice (rnd 0%nat) BIRTHDAY_INTROS in
  let middle := random_choice (rnd 1%nat) BIRTHDAY_MIDDLES in
  let call_to_action := random_choice (rnd 2%nat) BIRTHDAY_CALL_TO_ACTIONS in
  let ending := random_choice (rnd 3%nat) BIRTHDAY_ENDINGS in
  let emoji1 := random_choice (rnd 4%nat) safe_emojis in
  let emoji2 := random_choice (rnd 5%nat) safe_emojis in
  (* Build the announcement *)
  let message := lines
    [EmptyString;
     intro;
     EmptyString;
     middle;
     EmptyString;
     get_user_mention user_id;
     emoji1 +:+ " Birthday Extraordinaire " +:+ emoji2;
     month_name_str +:+ " " +:+ day_num +:+ age_text;
     star_sign_text;
     EmptyString;
     match age_fact with
     | String _ _ => "✨ " +:+ age_fact +:+ " ✨"
     | EmptyString => EmptyString
     end;
     EmptyString;
     "---";
     call_to_action;
     EmptyString;
     ending;
     EmptyString;
     "<!channel> Let's celebrate together!";
     EmptyString] in
  strip message.

(** *** [completion] *)

Inductive role := system | user | assistant.

(** One entry [{"role": .., "content": ..}] of the conversation. *)
Definition chat_message : Type := role * string.

(** The generative backend, [client.chat.completions.create(..)
    .choices[0].message.content]: asked for the [n]-th time within one
    [completion] with the conversation so far, it answers with a text or
    raises ([None]). *)
Definition backend : Type := nat -> list chat_message -> option string.

Inductive provenance := generated | fallback.

(** The text [completion] returns, with what the specification calls its
    provenance and the conversations sent to the backend, in order. *)
Record composed := mkcomposed {
  text : string;
  source : provenance;
  calls : list (list chat_message)
}.

Definition BROADCAST : string := "<!channel>".

(** The checks of one attempt: the messages of [validation_errors]. *)
Definition validation_errors (user_id : option string) (reply : string) : list string :=
  (if truthy_str user_id && negb (contains (get_user_mention user_id) reply)
   then ["Missing user mention " +:+ get_user_mention user_id] else [])
  ++ (if negb (contains BROADCAST reply)
      then ["Missing channel mention <!channel>"] else []).

Definition is_valid (user_id : option string) (reply : string) : bool :=
  match validation_errors user_id reply with
  | [] => true
  | _ => false
  end.

(** [user_mention]: the mention when a user id is given, the name otherwise. *)
Definition user_mention_of (name : string) (user_id : option string) : string :=
  if truthy_str user_id then get_user_mention user_id else name.

(** The [except] branch: one of the backup messages, [{name}] replaced. *)
Definition fallback_message (choice : nat) (name : string) (user_id : option string)
  : string :=
  let random_message := random_choice choice BACKUP_MESSAGES in
  let mention_text :=
    if truthy_str user_id then user_mention_of name user_id else name in
  replace "{name}" mention_text random_message.

(** The [while retry_count <= max_retries] loop; [remaining] is
    [max_retries - retry_count], and [sent] the conversations already sent. *)
Fixpoint completion_loop (gen : backend) (choice : nat) (name : string)
    (user_id : option string) (retry_count remaining : nat)
    (template : list chat_message) (sent : list (list chat_message)) : composed :=
  match gen retry_count template with
  | None =>
      (* Use one of our backup messages if the API call fails *)
      mkcomposed (fallback_message choice name user_id) fallback (sent ++ [template])
  | Some reply =>
      (* Fix common Slack formatting issues *)
      let reply := fix_slack_formatting reply in
      if is_valid user_id reply
      then mkcomposed reply generated (sent ++ [template])
      else
        match remaining with
        | S remaining' =>
            (* If validation failed and we have retries left, try again *)
            let error_msg := join ", " (validation_errors user_id reply) in
            let template' :=
              template
              ++ [(assistant, reply);
                  (user, "The message you provided is missing: " +:+ error_msg
                         +:+ ". Please regenerate the message including both the user mention "
                         +:+ user_mention_of name user_id
                         +:+ " and channel mention <!channel> formats exactly as specified.")] in
            completion_loop gen choice name user_id (S retry_count) remaining'
              template' (sent ++ [template])
        | O =>
            (* Log the failure but return the last generated message *)
            mkcomposed reply generated (sent ++ [template])
        end
  end.

(** [completion(name, date, user_id, birth_date, birth_year, max_retries)].
    [template] is the conversation built before the loop (the system prompt
    of the personality and the request for this birthday), [gen] the
    backend, [choice] the index [random.choice] takes if it is called.
    [max_retries] is a natural number: the loop body runs at least once, and
    the statement after the loop is not reached. *)
Definition completion (gen : backend) (choice : nat)
    (template : list chat_message) (name : string) (user_id : option string)
    (max_retries : nat) : composed :=
  completion_loop gen choice name user_id 0 max_retries template [].

End message_generator.

(** ** The surroundings of the scheduler

    The tracking directory and the messages delivered are state, threaded
    through the functions below.  The behaviour of the collaborators (the
    backend, the chat platform, the random generator, the file system) is
    given by oracles; those that may answer differently from call to call
    take the length of the trace as the moment of the call. *)

Inductive fs_op :=
| op_listdir
| op_remove (name : string)
| op_read (name : string)
| op_append (name : string).

Inductive event :=
| Rotated                                  (* cleanup_old_announcement_files ran *)
| ReadAnnounced                            (* get_announced_birthdays_today ran *)
| Composed (user_id : string)              (* a message was requested for the subject *)
| Delivered (user_id channel text : string) (ok : bool)
                                           (* send_message ran, with its result *)
| Marked (user_id : string) (written : bool).
                                           (* mark_birthday_announced ran *)

Record env := mkenv {
  clk : date_utils.clock;
  BIRTHDAY_CHANNEL : string;
  (** the file operations that raise [OSError] *)
  fs_fails : fs_op -> bool;
  (** [get_username(app, user_id)] *)
  username : string -> string;
  (** the conversation [completion] builds before its loop from the name,
      the date in words, the user id, the date and the birth year; [None]:
      building it raises *)
  build_prompt : string -> string -> string -> string -> option Z
                 -> option (list message_generator.chat_message);
  (** the backend, as it answers the [completion] started at a moment *)
  generate : nat -> message_generator.backend;
  (** [chat_postMessage]: [false] when it raises [SlackApiError] *)
  deliver : nat -> string -> string -> bool;
  (** the index taken by the [k]-th [random.choice] at a moment *)
  choice : nat -> nat -> nat
}.

Record world := mkworld {
  (** the tracking directory: file name to lines *)
  files : gmap string (list string);
  (** the messages the platform accepted: channel and text *)
  posted : list (string * string);
  trace : list event
}.

Definition log (e : event) (w : world) : world :=
  mkworld (files w) (posted w) (trace w ++ [e]).

(** ** AnnouncementLedger: [utils/storage.py] *)

Module storage.
Import Text date_utils.

(** [t.strftime("%Y-%m-%d")], for a year of four digits. *)
Definition strftime_ymd (t : datetime) : string :=
  str_of_Z (year t) +:+ "-" +:+ pad2 (month t) +:+ "-" +:+ pad2 (day t).

(** The marker file of today, inside [TRACKING_DIR]. *)
Definition announced_file (e : env) : string :=
  let today := strftime_ymd (now (clk e)) in
  "announced_" +:+ today +:+ ".txt".

Definition nonempty (s : string) : bool :=
  match s with
  | EmptyString => false
  | String _ _ => true
  end.

Definition get_announced_birthdays_today (e : env) (w : world) : list string :=
  let announced_file := announced_file e in
  if fs_fails e (op_read announced_file) then []
  else
    match files w !! announced_file with
    | Some f => List.filter nonempty (strip <$> f)
    | None => []
    end.

(** [f.write(f"{user_id}\n")] in append mode adds one line (a user id holds
    no line break). *)
Definition mark_birthday_announced (e : env) (user_id : string) (w : world) : world :=
  let announced_file := announced_file e in
  if fs_fails e (op_append announced_file) then log (Marked user_id false) w
  else
    let f := default [] (files w !! announced_file) in
    log (Marked user_id true)
      (mkworld (<[announced_file := f ++ [user_id]]> (files w)) (posted w) (trace w)).

(** [os.listdir(TRACKING_DIR)] *)
Definition listdir (w : world) : list string := (map_to_list (files w)).*1.

(** The loop of [cleanup_old_announcement_files]; a removal that raises ends
    it (the exception is caught around the loop). *)
Fixpoint remove_old (e : env) (today_file : string) (names : list string)
    (w : world) : world :=
  match names with
  | [] => w
  | filename :: rest =>
      if starts_with "announced_" filename && negb (String.eqb filename today_file)
      then
        if fs_fails e (op_remove filename) then w
        else remove_old e today_file rest
               (mkworld (delete filename (files w)) (posted w) (trace w))
      else remove_old e today_file rest w
  end.

Definition cleanup_old_announcement_files (e : env) (w : world) : world :=
  if fs_fails e op_listdir then w
  else remove_old e (announced_file e) (listdir w) w.

End storage.

(** ** Delivery of one announcement: [send_birthday_announcement] *)

Module announcement.
Import Text date_utils slack_utils message_generator.

(** [send_message(app, channel, text)] *)
Definition send_message (e : env) (channel text : string) (w : world) : bool * world :=
  let ok := deliver e (length (trace w)) channel text in
  (ok, if ok then mkworld (files w) (posted w ++ [(channel, text)]) (trace w) else w).

(** Try AI message, fall back to template announcement. *)
Definition send_birthday_announcement (e : env) (channel username user_id date
    date_words : string) (year : option Z) (w : world) : world :=
  let t := length (trace w) in
  let w := log (Composed user_id) w in
  let message :=
    match build_prompt e username date_words user_id date year with
    | Some template =>
        text (completion (generate e t) (choice e t 0%nat) template username
                (Some user_id) 2)
    | None =>
        create_birthday_announcement (clk e) (choice e t) (Some user_id)
          username date year
    end in
  let '(ok, w) := send_message e channel message w in
  log (Delivered user_id channel message ok) w.

End announcement.

(** ** DailyScheduler: [services/birthday.py] *)

Module birthday.
Import Text date_utils storage announcement.

(** One value of the dictionary [load_birthdays()] returns. *)
Record birthday_data := mkbirthday { bd_date : string; bd_year : option Z }.

(** [user_id in already_announced] *)
Definition is_in (user_id : string) (l : list string) : bool :=
  existsb (String.eqb user_id) l.

(** The loop over [birthdays.items()]. *)
Fixpoint daily_loop (e : env) (moment : datetime) (already_announced : list string)
    (birthdays : list (string * birthday_data)) (birthday_count : Z) (w : world)
  : res Z * world :=
  match birthdays with
  | [] => (Ok birthday_count, w)
  | (user_id, data) :: rest =>
      (* Skip if already announced today *)
      if is_in user_id already_announced
      then daily_loop e moment already_announced rest (birthday_count + 1) w
      else
        match check_if_birthday_today (clk e) (bd_date data) (Some moment) with
        | Raise err => (Raise err, w)
        | Ok false => daily_loop e moment already_announced rest birthday_count w
        | Ok true =>
            let username := username e user_id in
            match date_to_words (bd_date data) (bd_year data) with
            | Raise err => (Raise err, w)
            | Ok date_words =>
                let w :=
                  send_birthday_announcement e (BIRTHDAY_CHANNEL e) username
                    user_id (bd_date data) date_words (bd_year data) w in
                let w := mark_birthday_announced e user_id w in
                daily_loop e moment already_announced rest (birthday_count + 1) w
            end
        end
  end.

(** [daily(app, moment)]; [birthdays] is what [load_birthdays()] returns, a
    dictionary: no user id occurs twice. *)
Definition daily (e : env) (birthdays : list (string * birthday_data))
    (moment : datetime) (w : world) : res Z * world :=
  (* Clean up old announcement files *)
  let w := log Rotated (cleanup_old_announcement_files e w) in
  (* Get already announced birthdays *)
  let already_announced := get_announced_birthdays_today e w in
  let w := log ReadAnnounced w in
  daily_loop e moment already_announced birthdays 0 w.

End birthday.

(** ** BirthdayStore: the birthdays file of [utils/storage.py] and its
    backups

    The file and the backup directory are state.  A file is its text and
    its modification time; reading a file that exists does not fail, the
    other operations fail as the oracle [io] says.  A backup directory that
    does not exist behaves as an empty one ([create_backup] makes it,
    [restore_latest_backup] finds no backup either way). *)

Module birthday_store.
Import Text date_utils birthday.

(** *** The dictionary [load_birthdays] returns

    A [dict] keeps its keys in the order of insertion; assigning to a key
    it has keeps the key in its place. *)
Definition dict : Type := list (string * birthday_data).

Fixpoint dict_set (k : string) (v : birthday_data) (d : dict) : dict :=
  match d with
  | [] => [(k, v)]
  | (k', v') :: rest =>
      if String.eqb k k' then (k', v) :: rest else (k', v') :: dict_set k v rest
  end.

(** [k in d] *)
Definition dict_mem (k : string) (d : dict) : bool :=
  existsb (fun e => String.eqb k e.1) d.

(** [del d[k]] *)
Definition dict_del (k : string) (d : dict) : dict :=
  List.filter (fun e => negb (String.eqb k e.1)) d.

(** [d.get(k)] *)
Definition dict_get (k : string) (d : dict) : option birthday_data :=
  snd <$> List.find (fun e => String.eqb k e.1) d.

(** *** The text of the file *)

Definition cr : ascii := ascii_of_nat 13.

(** The lines a text file yields when it is iterated, without their line
    ends: the text is cut after every line end ([\n], [\r] or [\r\n], as a
    file opened in text mode reads them), and what follows the last line end
    is a line when it is not empty.  [after_cr]: the character before was
    [\r]. *)
Fixpoint readlines (after_cr : bool) (s : string) : list string :=
  match s with
  | EmptyString => []
  | String c s' =>
      if ascii_dec c nl then
        if after_cr then readlines false s' else EmptyString :: readlines false s'
      else if ascii_dec c cr then EmptyString :: readlines true s'
      else match readlines false s' with
           | line :: rest => String c line :: rest
           | [] => [String c EmptyString]
           end
  end.

(** The body of the loop of [load_birthdays] on one line. *)
Definition load_line (birthdays : dict) (line : string) : dict :=
  let parts := split "," (strip line) in
  match parts with
  | user_id :: date :: more =>
      (* Try to extract year if present *)
      let year :=
        match more with
        | p2 :: _ => if storage.nonempty (strip p2) then int_of_str p2 else None
        | [] => None
        end in
      dict_set user_id (mkbirthday date year) birthdays
  | _ => birthdays (* Skip invalid lines *)
  end.

(** The dictionary read from the text of the file. *)
Definition parse (content : string) : dict :=
  foldl load_line [] (readlines false content).

(** The line [save_birthdays] writes for one entry. *)
Definition save_line (user : string) (data : birthday_data) : string :=
  let year_part :=
    match bd_year data with
    | Some y => if truthy_int (bd_year data) then "," +:+ str_of_Z y else EmptyString
    | None => EmptyString
    end in
  user +:+ "," +:+ bd_date data +:+ year_part +:+ String nl EmptyString.

(** The text [save_birthdays] writes. *)
Definition render (birthdays : dict) : string :=
  foldr (fun e acc => save_line e.1 e.2 +:+ acc) EmptyString birthdays.

(** *** The files *)

Record file := mkfile { mtime : Z; content : string }.

Record disk := mkdisk {
  (** [BIRTHDAYS_FILE]; [None]: it does not exist *)
  birthdays_file : option file;
  (** the files of [BACKUP_DIR] *)
  backup_dir : gmap string file
}.

(** What the surroundings decide during one call. *)
Record io := mkio {
  (** [open(BIRTHDAYS_FILE, "w")] raises *)
  write_fails : bool;
  (** [shutil.copy2] raises *)
  copy_fails : bool;
  (** [os.remove] raises on this file *)
  remove_fails : string -> bool;
  (** the time of the call: the modification time of a file written *)
  time : Z;
  (** [datetime.now().strftime("%Y%m%d_%H%M%S")] *)
  timestamp : string
}.

Definition MAX_BACKUPS : nat := 10.

(** [s.endswith(suffix)] *)
Definition ends_with (suffix s : string) : bool :=
  (String.length suffix <=? String.length s)%nat
  && String.eqb suffix
       (String.substring (String.length s - String.length suffix)
          (String.length suffix) s).

Definition is_backup (f : string) : bool :=
  starts_with "birthdays_" f && ends_with ".txt" f.

(** [os.path.getmtime] of a file of the backup directory. *)
Definition getmtime (dir : gmap string file) (f : string) : Z :=
  default 0 (mtime <$> dir !! f).

(** [list.sort(key=key)]: a stable sort, by insertion from the right. *)
Fixpoint insert_by (key : string -> Z) (x : string) (l : list string) : list string :=
  match l with
  | [] => [x]
  | y :: l' => if key x <=? key y then x :: y :: l' else y :: insert_by key x l'
  end.

Definition sort_by (key : string -> Z) (l : list string) : list string :=
  foldr (insert_by key) [] l.

(** The backup files, as [os.listdir] gives them. *)
Definition backup_files (dir : gmap string file) : list string :=
  List.filter is_backup (map_to_list dir).*1.

(** The loop of [rotate_backups]: [while len(backup_files) > MAX_BACKUPS].
    A removal that raises ends it. *)
Fixpoint remove_oldest (o : io) (backup_files : list string) (dir : gmap string file)
  : gmap string file :=
  match backup_files with
  | [] => dir
  | oldest :: rest =>
      if (MAX_BACKUPS <? length backup_files)%nat
      then if remove_fails o oldest then dir
           else remove_oldest o rest (delete oldest dir)
      else dir
  end.

Definition rotate_backups (o : io) (d : disk) : disk :=
  (* Sort by modification time (oldest first) *)
  let sorted := sort_by (getmtime (backup_dir d)) (backup_files (backup_dir d)) in
  mkdisk (birthdays_file d) (remove_oldest o sorted (backup_dir d)).

Definition create_backup (o : io) (d : disk) : disk :=
  match birthdays_file d with
  | None => d (* Only backup if the file exists *)
  | Some f =>
      let backup_file := "birthdays_" +:+ timestamp o +:+ ".txt" in
      if copy_fails o then d
      else rotate_backups o
             (mkdisk (birthdays_file d) (<[backup_file := f]> (backup_dir d)))
  end.

Definition restore_latest_backup (o : io) (d : disk) : bool * disk :=
  (* Sort by modification time (newest first) *)
  match sort_by (fun f => - getmtime (backup_dir d) f) (backup_files (backup_dir d)) with
  | [] => (false, d)
  | latest :: _ =>
      if copy_fails o then (false, d)
      else (true, mkdisk (backup_dir d !! latest) (backup_dir d))
  end.

(** [load_birthdays()]; it calls itself after a restore, so it takes fuel. *)
Fixpoint load_birthdays (fuel : nat) (o : io) (d : disk) : option (dict * disk) :=
  match fuel with
  | O => None
  | S fuel' =>
      match birthdays_file d with
      | Some f => Some (parse (content f), d)
      | None =>
          (* Try to restore from backup if main file doesn't exist *)
          let '(restored, d') := restore_latest_backup o d in
          if restored then load_birthdays fuel' o d' else Some ([], d')
      end
  end.

Definition save_birthdays (o : io) (birthdays : dict) (d : disk) : disk :=
  if write_fails o then d
  else
    (* Create a backup after saving *)
    create_backup o (mkdisk (Some (mkfile (time o) (render birthdays))) (backup_dir d)).

Definition save_birthday (fuel : nat) (o : io) (date user : string) (year : option Z)
    (d : disk) : option (bool * disk) :=
  '(birthdays, d) ← load_birthdays fuel o d;
  let updated := dict_mem user birthdays in
  let birthdays := dict_set user (mkbirthday date year) birthdays in
  let d := save_birthdays o birthdays d in
  Some (updated, d).

Definition remove_birthday (fuel : nat) (o : io) (user : string) (d : disk)
  : option (bool * disk) :=
  '(birthdays, d) ← load_birthdays fuel o d;
  if dict_mem user birthdays
  then
    let birthdays := dict_del user birthdays in
    let d := save_birthdays o birthdays d in
    Some (true, d)
  else Some (false, d).

End birthday_store.

(** ** The chat platform: more of [utils/slack_utils.py]

    The answers of the platform are oracles; [None] is a call that raises
    [SlackApiError].  An oracle that is asked more than once takes the
    number of the call. *)

Module slack_api.
Import Text slack_utils birthday.

(** [users_info(user=..)["user"]], its two flags (absent: [False]). *)
Record user_info := mkuser_info { ui_is_admin : bool; ui_is_bot : bool }.

(** [users_profile_get(user=..)] *)
Record profile := mkprofile { ok : bool; display_name : string; real_name : string }.

(** One answer of [conversations_members]: the members of the page and the
    cursor of the next one. *)
Record page := mkpage { members : list string; next_cursor : option string }.

(** *** [get_username] *)

(** [username_cache] is state. *)
Definition get_username (users_profile_get : string -> option profile)
    (user_id : string) (username_cache : gmap string string)
  : string * gmap string string :=
  (* Check cache first *)
  match username_cache !! user_id with
  | Some name => (name, username_cache)
  | None =>
      match users_profile_get user_id with
      | Some response =>
          if ok response then
            let username :=
              if truthy_str (Some (display_name response))
              then display_name response else real_name response in
            (* Cache the result *)
            (username, <[user_id := username]> username_cache)
          else (get_user_mention (Some user_id), username_cache)
      | None =>
          (* Fallback to mention format *)
          (get_user_mention (Some user_id), username_cache)
      end
  end.

(** *** [is_admin] and [check_command_permission] *)

Definition is_admin (ADMIN_USERS : list string)
    (users_info : string -> option user_info) (user_id : string) : bool :=
  (* First, check if user is in the in-memory admin list *)
  if is_in user_id ADMIN_USERS then true
  else
    (* Then check if they're a workspace admin *)
    match users_info user_id with
    | Some info => ui_is_admin info
    | None => false
    end.

Definition check_command_permission (ADMIN_USERS : list string)
    (COMMAND_PERMISSIONS : gmap string bool)
    (users_info : string -> option user_info) (user_id command : string) : bool :=
  (* Remind command always requires admin *)
  if String.eqb command "remind" then is_admin ADMIN_USERS users_info user_id
  else
    (* For other commands, check the permission settings *)
    match COMMAND_PERMISSIONS !! command with
    | Some true => is_admin ADMIN_USERS users_info user_id
    | _ => true (* available to all users *)
    end.

(** *** [get_channel_members] *)

(** The loop [while True]; [n] is the number of the call, [None] the fuel
    used up. *)
Fixpoint get_channel_members_loop (fuel : nat)
    (conversations_members : nat -> option string -> option page)
    (n : nat) (members_ : list string) (next_cursor_ : option string)
  : option (list string) :=
  match fuel with
  | O => None
  | S fuel' =>
      (* Make API call with cursor if we have one *)
      match conversations_members n
              (if truthy_str next_cursor_ then next_cursor_ else None) with
      | None => Some [] (* except SlackApiError *)
      | Some result =>
          (* Add members from this page *)
          let members_ := members_ ++ members result in
          (* Check if we need to fetch more pages *)
          let next_cursor_ := next_cursor result in
          if truthy_str next_cursor_
          then get_channel_members_loop fuel' conversations_members (S n)
                 members_ next_cursor_
          else Some members_
      end
  end.

Definition get_channel_members (fuel : nat)
    (conversations_members : nat -> option string -> option page)
  : option (list string) :=
  get_channel_members_loop fuel conversations_members 0 [] None.

End slack_api.

(** ** Reminders: [send_reminder_to_users] of [services/birthday.py] *)

Module reminders.
Import Text slack_utils message_generator announcement birthday slack_api.

(** The dictionary [results]. *)
Record results := mkresults {
  successful : Z;
  failed : Z;
  skipped_bots : Z;
  users : list string
}.

Definition greetings (user_id : string) : list string :=
  ["Hey there " +:+ get_user_mention (Some user_id) +:+ "! :wave:";
   "Hello " +:+ get_user_mention (Some user_id) +:+ "! :sunny:";
   "Greetings, " +:+ get_user_mention (Some user_id) +:+ "! :sparkles:";
   "Hi " +:+ get_user_mention (Some user_id) +:+ "! :smile:";
   "*Psst* " +:+ get_user_mention (Some user_id) +:+ "! :eyes:"].

Definition intros : list string :=
  ["Looks like we don't have your birthday on record yet!";
   "I noticed your birthday isn't in our celebration calendar!";
   "We're missing an important date - YOUR birthday!";
   "The birthday list has a person-shaped hole that looks just like you!";
   "Our birthday celebration squad is missing some info about you!"].

Definition reasons : list string :=
  ["We'd love to celebrate your special day with you! :birthday:";
   "We want to make sure your day gets the celebration it deserves! :tada:";
   "Everyone deserves a little birthday recognition! :cake:";
   "Our team celebrations wouldn't be complete without yours! :gift:";
   "We don't want to miss the chance to celebrate you! :confetti_ball:"].

Definition instructions : list string :=
  ["Just send me your birthday in DD/MM format (like `14/02`), or include the year with DD/MM/YYYY (like `14/02/1990`).";
   "Simply reply with your birthday as DD/MM (example: `25/12`) or with the year DD/MM/YYYY (example: `25/12/1990`).";
   "Drop me a quick message with your birthday in DD/MM format (like `31/10`) or with the year DD/MM/YYYY (like `31/10/1985`).";
   "Just type your birthday as DD/MM (like `01/04`) or include the year with DD/MM/YYYY (like `01/04/1988`).";
   "Send your birthday as DD/MM (example: `19/07`) or with the year if you'd like DD/MM/YYYY (example: `19/07/1995`)."].

Definition outros : list string :=
  ["Thanks! :star:";
   "Can't wait to celebrate with you! :raised_hands:";
   "Looking forward to it! :sparkles:";
   "Your birthday will be awesome! :rocket:";
   "Thanks for helping us make our workplace more fun! :party-blob:"].

(** The message for one user; [rnd k] is the index taken by the [k]-th
    call of [random.choice]. *)
Definition reminder_message (rnd : nat -> nat) (user_id : string)
    (custom_message : option string) : string :=
  match custom_message with
  | Some (String _ _ as custom_message) =>
      (* Use custom message but ensure it includes the user's mention *)
      if negb (contains (get_user_mention (Some user_id)) custom_message)
      then get_user_mention (Some user_id) +:+ ", " +:+ custom_message
      else custom_message
  | _ =>
      (* Create lively personalized message if no custom message provided *)
      let nlnl := String nl (String nl EmptyString) in
      random_choice (rnd 0%nat) (greetings user_id) +:+ nlnl
      +:+ random_choice (rnd 1%nat) intros +:+ " "
      +:+ random_choice (rnd 2%nat) reasons +:+ nlnl
      +:+ random_choice (rnd 3%nat) instructions +:+ nlnl
      +:+ random_choice (rnd 4%nat) outros
  end.

(** The loop over [users]; [users_info] is asked at the moment given by
    the length of the trace.  The name [get_username] returns goes into a
    log line only and is left out. *)
Fixpoint send_reminder_loop (e : env) (users_info : nat -> string -> option user_info)
    (users_ : list string) (custom_message : option string)
    (r : results) (w : world) : results * world :=
  match users_ with
  | [] => (r, w)
  | user_id :: rest =>
      let t := length (trace w) in
      (* Skip bots; if the check raises, assume not a bot *)
      let bot :=
        match users_info t user_id with
        | Some info => ui_is_bot info
        | None => false
        end in
      if bot
      then send_reminder_loop e users_info rest custom_message
             (mkresults (successful r) (failed r) (skipped_bots r + 1) (users r)) w
      else
        let message := reminder_message (choice e t) user_id custom_message in
        (* Send the message *)
        let '(sent, w) := send_message e user_id message w in
        let w := log (Delivered user_id user_id message sent) w in
        if sent
        then send_reminder_loop e users_info rest custom_message
               (mkresults (successful r + 1) (failed r) (skipped_bots r)
                  (users r ++ [user_id])) w
        else send_reminder_loop e users_info rest custom_message
               (mkresults (successful r) (failed r + 1) (skipped_bots r) (users r)) w
  end.

Definition send_reminder_to_users (e : env)
    (users_info : nat -> string -> option user_info)
    (users_ : list string) (custom_message : option string) (w : world)
  : results * world :=
  send_reminder_loop e users_info users_ custom_message (mkresults 0 0 0 []) w.

End reminders.

(** ** The [remind] command: [handlers/commands/list_commands.py] *)

Module list_commands.
Import Text slack_utils birthday birthday_store slack_api reminders.

(** [handle_remind_command(parts, user_id, say, app)]: what it says, and
    the state after it.  [users_info] is asked at the moment given by the
    length of the trace; [None]: the fuel of a loop ran out. *)
Definition handle_remind_command (fuel : nat)
    (ADMIN_USERS : list string) (COMMAND_PERMISSIONS : gmap string bool)
    (users_info : nat -> string -> option user_info)
    (conversations_members : nat -> option string -> option page)
    (o : io) (e : env) (parts : list string) (user_id : string)
    (w : world) (d : disk) : option (string * world * disk) :=
  if negb (check_command_permission ADMIN_USERS COMMAND_PERMISSIONS
             (users_info (length (trace w))) user_id "remind")
  then Some ("You don't have permission to send reminders. This command is restricted to admins.",
             w, d)
  else
    (* Check if custom message is provided *)
    let custom_message :=
      match parts with
      | _ :: (_ :: _) as parts => Some (join " " (tail parts))
      | _ => None
      end in
    (* Get all users in the birthday channel *)
    channel_members ← get_channel_members fuel conversations_members;
    match channel_members with
    | [] => Some ("Could not retrieve channel members", w, d)
    | _ :: _ =>
        (* Get users who already have birthdays *)
        '(birthdays, d) ← load_birthdays fuel o d;
        (* Find users without birthdays *)
        let users_missing_birthdays :=
          List.filter (fun user => negb (dict_mem user birthdays)) channel_members in
        match users_missing_birthdays with
        | [] =>
            Some ("Good news! All members of the birthday channel already have their birthdays saved. 🎉",
                  w, d)
        | _ :: _ =>
            (* Send reminders to users without birthdays *)
            let '(results, w) :=
              send_reminder_to_users e users_info users_missing_birthdays
                custom_message w in
            (* Prepare response message *)
            let response_message :=
              "Reminder sent to " +:+ str_of_Z (successful results) +:+ " users" in
            let response_message :=
              if 0 <? failed results
              then response_message +:+ " (failed to send to "
                   +:+ str_of_Z (failed results) +:+ " users)"
              else response_message in
            let response_message :=
              if 0 <? skipped_bots results
              then response_message +:+ " (skipped "
                   +:+ str_of_Z (skipped_bots results) +:+ " bots)"
              else response_message in
            Some (response_message, w, d)
        end
    end.

End list_commands.

(** ** Setting a birthday: [handlers/commands/user_commands.py] *)

Module user_commands.
Import Text date_utils slack_utils announcement birthday birthday_store.

(** The state a handler works on: the scheduler's surroundings, the
    birthday store, and what it said to the user so far. *)
Record session := mksession { sw : world; sd : disk; said : list string }.

Definition say (text : string) (s : session) : session :=
  mksession (sw s) (sd s) (said s ++ [text]).

(** The date in words and the text about the age, as both handlers build
    them. *)
Definition words_and_age (e : env) (date : string) (year : option Z)
  : res (string * string) :=
  match year with
  | Some y =>
      if truthy_int year
      then res_bind (date_to_words date year) (fun date_words =>
             let age := calculate_age (clk e) y None in
             Ok (date_words, " (Age: " +:+ str_of_Z age +:+ ")"))
      else res_bind (date_to_words date None) (fun date_words =>
             Ok (date_words, EmptyString))
  | None =>
      res_bind (date_to_words date None) (fun date_words =>
        Ok (date_words, EmptyString))
  end.

(** [handle_dm_date(say, user, result, app)]: the words are built before
    the birthday is saved.  The result is [Ok] or the exception that ended
    the handler, with the state it left; [None]: the fuel ran out. *)
Definition handle_dm_date (fuel : nat) (o : io) (e : env) (user : string)
    (result : extracted) (s : session) : option (res unit * session) :=
  let date := default EmptyString (ex_date result) in
  let year := ex_year result in
  (* Format birthday information for response *)
  match words_and_age e date year with
  | Raise err => Some (Raise err, s)
  | Ok (date_words, age_text) =>
      '(updated, d) ← save_birthday fuel o date user year (sd s);
      let s := mksession (sw s) d (said s) in
      (* Check if birthday is today and send announcement if so *)
      match check_if_birthday_today (clk e) date None with
      | Raise err => Some (Raise err, s)
      | Ok true =>
          let s :=
            say ("It's your birthday today! " +:+ date_words +:+ age_text
                 +:+ " - I'll send an announcement to the birthday channel right away!")
              s in
          let username := username e user in
          let w := send_birthday_announcement e (BIRTHDAY_CHANNEL e) username user
                     date date_words year (sw s) in
          Some (Ok tt, mksession w (sd s) (said s))
      | Ok false =>
          if (updated : bool)
          then Some (Ok tt,
                     say ("Birthday updated to " +:+ date_words +:+ age_text
                          +:+ ". If this is incorrect, please try again with the correct date.")
                       s)
          else Some (Ok tt,
                     say (date_words +:+ age_text
                          +:+ " has been saved as your birthday. If this is incorrect, please try again.")
                       s)
      end
  end.

(** [handle_add_command(parts, user_id, say, app)]: the birthday is saved
    before the words are built. *)
Definition handle_add_command (fuel : nat) (o : io) (e : env) (parts : list string)
    (user_id : string) (s : session) : option (res unit * session) :=
  let date_text := join " " (tail parts) in
  let result := extract_date date_text in
  let username := username e user_id in
  match ex_status result with
  | no_date =>
      Some (Ok tt,
            say "No date found. Please use format: `add DD/MM` or `add DD/MM/YYYY`" s)
  | invalid_date =>
      Some (Ok tt,
            say "Invalid date. Please use format: `add DD/MM` or `add DD/MM/YYYY`" s)
  | success =>
      let date := default EmptyString (ex_date result) in
      let year := ex_year result in
      '(updated, d) ← save_birthday fuel o date user_id year (sd s);
      let s := mksession (sw s) d (said s) in
      match words_and_age e date year with
      | Raise err => Some (Raise err, s)
      | Ok (date_words, age_text) =>
          (* Check if birthday is today and send announcement if so *)
          match check_if_birthday_today (clk e) date None with
          | Raise err => Some (Raise err, s)
          | Ok true =>
              let s :=
                say ("It's your birthday today! " +:+ date_words +:+ age_text
                     +:+ " - I'll send an announcement to the birthday channel right away!")
                  s in
              let w := send_birthday_announcement e (BIRTHDAY_CHANNEL e) username
                         user_id date date_words year (sw s) in
              Some (Ok tt, mksession w (sd s) (said s))
          | Ok false =>
              if (updated : bool)
              then Some (Ok tt,
                         say ("Your birthday has been updated to " +:+ date_words
                              +:+ age_text) s)
              else Some (Ok tt,
                         say ("Your birthday (" +:+ date_words +:+ age_text
                              +:+ ") has been saved!") s)
          end
      end
  end.

End user_commands.

(** * Properties *)

(** ** Text *)

Module text_facts.
Import Text.

Lemma append_assoc (a b c : string) : (a +:+ b) +:+ c = a +:+ b +:+ c.
Proof.
  induction a as [| x a IH]; cbv [String.append]; [done |].
  fold String.append. by rewrite IH.
Qed.

Lemma length_append (a b : string) :
  String.length (a +:+ b) = (String.length a + String.length b)%nat.
Proof.
  induction a as [| x a IH]; cbv [String.append]; [done |].
  fold String.append. simpl. by rewrite IH.
Qed.

Lemma append_cons c (a b : string) : String c a +:+ b = String c (a +:+ b).
Proof. reflexivity. Qed.

Lemma starts_with_append t s : starts_with t (t +:+ s) = true.
Proof.
  induction t as [| c t IH]; [done |].
  rewrite append_cons. simpl. by destruct (ascii_dec c c).
Qed.

Lemma starts_with_append_l t a b :
  starts_with t a = true -> starts_with t (a +:+ b) = true.
Proof.
  revert a. induction t as [| c t IH]; intros a H; [done |].
  destruct a as [| x a]; [discriminate |].
  rewrite append_cons. simpl in *. destruct (ascii_dec c x); [auto | done].
Qed.

Lemma contains_cons t x s :
  contains t (String x s) = starts_with t (String x s) || contains t s.
Proof. reflexivity. Qed.

Lemma contains_append_l t a b :
  contains t a = true -> contains t (a +:+ b) = true.
Proof.
  induction a as [| x a IH]; intros H.
  - simpl in H. rewrite orb_false_r in H.
    destruct t; [| discriminate]. by destruct b.
  - rewrite append_cons, contains_cons. rewrite contains_cons in H.
    apply orb_true_iff in H as [H | H]; apply orb_true_iff.
    + left. by apply (starts_with_append_l t (String x a) b).
    + right. auto.
Qed.

Lemma contains_append_r t a b :
  contains t b = true -> contains t (a +:+ b) = true.
Proof.
  intros H. induction a as [| x a IH]; [done |].
  rewrite append_cons, contains_cons, IH. apply orb_true_r.
Qed.

Lemma contains_starts_with t s : starts_with t s = true -> contains t s = true.
Proof. intros H. destruct s; simpl in *; by rewrite H. Qed.

Lemma contains_middle a t b : contains t (a +:+ t +:+ b) = true.
Proof.
  apply contains_append_r, contains_starts_with, starts_with_append.
Qed.

End text_facts.


(** ** DateEngine *)

Module date_facts.
Import Text date_utils.

(** A day/month pair that denotes a date of some year. *)
Definition valid_day_month (d m : Z) : bool := date_ok 2000 m d.

(** ... and one that is not the leap day. *)
Definition every_year (d m : Z) : bool := date_ok 1900 m d.

Lemma is_leap_spec y :
  is_leap y = true <-> y mod 4 = 0 /\ (y mod 100 <> 0 \/ y mod 400 = 0).
Proof.
  unfold is_leap.
  destruct (Z.eqb_spec (y mod 4) 0), (Z.eqb_spec (y mod 100) 0),
    (Z.eqb_spec (y mod 400) 0); simpl; intuition congruence.
Qed.

Lemma days_before_year_succ y :
  days_before_year (y + 1)
  = days_before_year y + 365 + (if is_leap y then 1 else 0).
Proof.
  unfold days_before_year, is_leap.
  replace (y + 1 - 1) with y by lia.
  destruct (Z.eqb_spec (y mod 4) 0), (Z.eqb_spec (y mod 100) 0),
    (Z.eqb_spec (y mod 400) 0); simpl;
    Z.div_mod_to_equations; lia.
Qed.

Ltac month_cases m :=
  let H := fresh in
  assert (H : m = 1 \/ m = 2 \/ m = 3 \/ m = 4 \/ m = 5 \/ m = 6 \/ m = 7
              \/ m = 8 \/ m = 9 \/ m = 10 \/ m = 11 \/ m = 12) by lia;
  repeat (destruct H as [H | H]); subst m.

Lemma date_ok_bounds y m d :
  date_ok y m d = true ->
  MINYEAR <= y <= MAXYEAR /\ 1 <= m <= 12 /\ 1 <= d <= days_in_month y m.
Proof. unfold date_ok. intros H. repeat (apply andb_prop in H as [H ?]). lia. Qed.

Lemma date_ok_intro y m d :
  MINYEAR <= y <= MAXYEAR -> 1 <= m <= 12 -> 1 <= d <= days_in_month y m ->
  date_ok y m d = true.
Proof.
  intros. unfold date_ok.
  repeat (apply andb_true_intro; split); lia.
Qed.

Lemma every_year_ok d m y :
  every_year d m = true -> MINYEAR <= y <= MAXYEAR -> date_ok y m d = true.
Proof.
  intros H Hy. apply date_ok_bounds in H as (_ & Hm & Hd).
  apply date_ok_intro; [done.. |].
  month_cases m; unfold days_in_month in *; simpl in *;
    try lia; destruct (is_leap y); lia.
Qed.

(** The day number is strictly monotone within a year. *)
Lemma ordinal_same_year y m1 d1 m2 d2 :
  date_ok y m1 d1 = true -> date_ok y m2 d2 = true ->
  let n := days_between (mkdate y m1 d1) (mkdate y m2 d2) in
  -365 <= n <= 365
  /\ (dt_lt (mkdate y m1 d1) (mkdate y m2 d2) = true <-> n < 0)
  /\ (n = 0 <-> d1 = d2 /\ m1 = m2).
Proof.
  intros H1 H2.
  apply date_ok_bounds in H1 as (_ & Hm1 & Hd1).
  apply date_ok_bounds in H2 as (_ & Hm2 & Hd2).
  unfold days_between, ordinal, dt_lt, days_before_month, days_in_month in *;
    simpl.
  rewrite Z.ltb_irrefl, Z.eqb_refl. simpl.
  month_cases m1; month_cases m2; simpl in *; destruct (is_leap y); simpl;
    (split; [lia | split; [| lia]]);
    repeat match goal with
           | |- context [ (?a <? ?b) ] => destruct (Z.ltb_spec a b)
           end; simpl; split; intros; try discriminate; try lia; try done.
Qed.

Lemma day_of_year_bounds y m d :
  date_ok y m d = true ->
  1 <= days_before_month y m + d <= 365 + (if is_leap y then 1 else 0).
Proof.
  intros H. apply date_ok_bounds in H as (_ & Hm & Hd).
  unfold days_before_month, days_in_month in *.
  month_cases m; simpl in *; destruct (is_leap y); simpl; lia.
Qed.



(** *** Days until the next birthday (C2) *)





(** *** The leap day in a year without one (C3) *)

Lemma is_leap_false y :
  is_leap y = false -> y mod 4 <> 0 \/ (y mod 100 = 0 /\ y mod 400 <> 0).
Proof.
  unfold is_leap.
  destruct (Z.eqb_spec (y mod 4) 0), (Z.eqb_spec (y mod 100) 0),
    (Z.eqb_spec (y mod 400) 0); simpl; intros; try discriminate; lia.
Qed.

(** The first index below a bound at which a test succeeds. *)
Lemma first_true (P : Z -> bool) (n : nat) :
  forall y, P (y + Z.of_nat n) = true ->
  exists k, 0 <= k <= Z.of_nat n /\ P (y + k) = true
            /\ forall j, 0 <= j < k -> P (y + j) = false.
Proof.
  induction n as [| n IH]; intros y Hn.
  - exists 0. rewrite Z.add_0_r in *. split; [lia | split; [done | intros; lia]].
  - destruct (P y) eqn:Hy.
    + exists 0. rewrite Z.add_0_r. split; [lia | split; [done | intros; lia]].
    + destruct (IH (y + 1)) as (k & Hk & Hpk & Hbefore).
      { rewrite <- Hn. f_equal. lia. }
      exists (k + 1). split; [lia |]. split.
      * rewrite <- Hpk. f_equal. lia.
      * intros j Hj. destruct (Z.eq_dec j 0) as [-> |].
        -- by rewrite Z.add_0_r.
        -- replace (y + j) with (y + 1 + (j - 1)) by lia. apply Hbefore. lia.
Qed.

Lemma multiple_of_4_ahead y : exists a, 0 <= a <= 3 /\ (y + a) mod 4 = 0.
Proof.
  exists ((- y) mod 4). Z.div_mod_to_equations. lia.
Qed.

Lemma leap_4_after_century y :
  y mod 4 = 0 -> y mod 100 = 0 -> is_leap (y + 4) = true.
Proof.
  intros H4 H100. apply is_leap_spec. Z.div_mod_to_equations. lia.
Qed.

(** Eight consecutive years always hold a leap year. *)
Lemma leap_within_8 y :
  exists k, 0 <= k <= 7 /\ is_leap (y + k) = true
            /\ forall j, 0 <= j < k -> is_leap (y + j) = false.
Proof.
  destruct (multiple_of_4_ahead y) as (a & Ha & H4).
  assert (exists n, (n <= 7)%nat /\ is_leap (y + Z.of_nat n) = true)
    as (n & Hn & Hleap).
  { destruct (is_leap (y + a)) eqn:Hla.
    - exists (Z.to_nat a). rewrite Z2Nat.id by lia. split; [lia | done].
    - exists (Z.to_nat (a + 4)). rewrite Z2Nat.id by lia. split; [lia |].
      rewrite Z.add_assoc. apply leap_4_after_century; [done |].
      apply is_leap_false in Hla as [? | [? _]]; [done | done]. }
  destruct (first_true is_leap n y Hleap) as (k & Hk & Hpk & Hbefore).
  exists k. split; [lia | done].
Qed.

Lemma feb29_ok y : date_ok y 2 29 = is_leap y && (1 <=? y) && (y <=? MAXYEAR).
Proof.
  unfold date_ok, days_in_month, MINYEAR. simpl.
  destruct (is_leap y), (1 <=? y), (y <=? MAXYEAR); reflexivity.
Qed.

(** The roll-forward loop stops at the first leap year it meets. *)
Lemma next_valid_year_feb29 (k : nat) :
  forall (fuel : nat) y,
    (k < fuel)%nat ->
    (forall j, 0 <= j < Z.of_nat k -> is_leap (y + j) = false) ->
    is_leap (y + Z.of_nat k) = true ->
    1 <= y -> y + Z.of_nat k <= MAXYEAR ->
    next_valid_year fuel y 2 29 = Some (mkdate (y + Z.of_nat k) 2 29).
Proof.
  induction k as [| k IH]; intros fuel y Hfuel Hbefore Hleap Hmin Hmax;
    (destruct fuel as [| fuel]; [lia |]); simpl; unfold new_datetime;
    rewrite feb29_ok.
  - replace (y + Z.of_nat 0) with y in * by lia.
    rewrite Hleap. simpl.
    destruct (Z.leb_spec 1 y), (Z.leb_spec y MAXYEAR); try lia. done.
  - rewrite <- (Z.add_0_r y) at 1. rewrite (Hbefore 0) by lia. simpl.
    rewrite (IH fuel (y + 1)); try lia.
    + do 2 f_equal. lia.
    + intros j Hj. replace (y + 1 + j) with (y + (j + 1)) by lia.
      apply Hbefore. lia.
    + rewrite <- Hleap. f_equal. lia.
Qed.

(** C3 as the specification words it, at one reference date: a 29 February
    within four years of the reference year, and the distance to it. *)
Definition feb29_within_4_claim (ref : datetime) : Prop :=
  forall clk, exists fuel y,
    year ref < y <= year ref + 4
    /\ date_ok y 2 29 = true
    /\ calculate_days_until_birthday fuel clk "29/02" (Some ref)
       = Some (Ok (days_between (mkdate y 2 29) ref)).

(** C3, counterexample: 2097 has no 29 February, and neither have the four
    years after it (2100 is not a leap year); from 2097-03-01 the loop
    stops at 2104, seven years on. *)
Lemma feb29_not_within_4_years :
  valid_datetime (mkdate 2097 3 1) /\ is_leap 2097 = false
  /\ (forall clk, calculate_days_until_birthday 7 clk "29/02"
                    (Some (mkdate 2097 3 1))
                  = Some (Ok (days_between (mkdate 2104 2 29) (mkdate 2097 3 1))))
  /\ ~ feb29_within_4_claim (mkdate 2097 3 1).
Proof.
  split; [reflexivity | split; [reflexivity | split; [reflexivity |]]].
  intros H.
  destruct (H (mkclock (mkdate 2097 3 1) (mkdate 2097 3 1)))
    as (fuel & y & Hy & Hok & _).
  simpl in Hy.
  assert (y = 2098 \/ y = 2099 \/ y = 2100 \/ y = 2101)
    as [-> | [-> | [-> | ->]]] by lia; discriminate.
Qed.

(** C3, amended: for a 29/02 birthday and every reference date of a year
    below 9996 that has no 29 February, the roll-forward loop terminates
    (seven rounds of fuel are enough) at the first leap year after the
    reference year, which lies within seven years of it, and within four
    unless one of the next four years is a multiple of 100; the function
    returns the day difference to that year's 29 February and raises
    nothing. *)
Theorem feb29_roll_forward fuel clk date_str ref :
  split_day_month date_str = Ok (29, 2) ->
  valid_datetime ref -> is_leap (year ref) = false -> year ref < 9996 ->
  (7 <= fuel)%nat ->
  exists y,
    year ref < y <= year ref + 7
    /\ is_leap y = true
    /\ (forall y', year ref < y' < y -> is_leap y' = false)
    /\ ((forall c, year ref < c <= year ref + 4 -> c mod 100 <> 0) ->
        y <= year ref + 4)
    /\ calculate_days_until_birthday fuel clk date_str (Some ref)
       = Some (Ok (days_between (mkdate y 2 29) ref)).
Proof.
  intros Hsplit Href Hnoleap Hmax Hfuel.
  destruct ref as [ry rm rd]. unfold valid_datetime in Href. simpl in *.
  pose proof (date_ok_bounds _ _ _ Href) as (Hy & _ & _).
  unfold MINYEAR, MAXYEAR in Hy.
  destruct (leap_within_8 ry) as (k & Hk & Hleap & Hbefore).
  assert (k <> 0) by (intros ->; rewrite Z.add_0_r in Hleap; congruence).
  assert (Hfirst : forall y', ry < y' < ry + k -> is_leap y' = false).
  { intros y' Hy'. replace y' with (ry + (y' - ry)) by lia.
    apply Hbefore. lia. }
  assert (Hin : ry + k <= 9996).
  { destruct (Z.le_gt_cases (ry + k) 9996) as [| Hgt]; [done |].
    assert (is_leap 9996 = false) by (apply Hfirst; lia). discriminate. }
  exists (ry + k). repeat split; try lia; try done.
  - intros Hcent.
    destruct (Z.le_gt_cases k 4) as [| Hgt]; [lia |].
    exfalso.
    destruct (multiple_of_4_ahead (ry + 1)) as (a & Ha & H4).
    assert (Hla := Hfirst (ry + 1 + a) ltac:(lia)).
    apply is_leap_false in Hla as [? | [H100 _]]; [done |].
    by apply (Hcent (ry + 1 + a) ltac:(lia)).
  - unfold calculate_days_until_birthday. rewrite Hsplit. simpl.
    unfold new_datetime at 1. rewrite feb29_ok, Hnoleap. simpl.
    rewrite (next_valid_year_feb29 (Z.to_nat (k - 1)) fuel (ry + 1));
      rewrite ?Z2Nat.id; try lia.
    + do 4 f_equal. lia.
    + intros j Hj. replace (ry + 1 + j) with (ry + (j + 1)) by lia.
      apply Hbefore. lia.
    + rewrite <- Hleap. f_equal. lia.
    + unfold MAXYEAR. lia.
Qed.

Lemma feb29_roll_forward_witness :
  exists y,
    2023 < y <= 2023 + 7
    /\ is_leap y = true
    /\ (forall y', 2023 < y' < y -> is_leap y' = false)
    /\ ((forall c, 2023 < c <= 2023 + 4 -> c mod 100 <> 0) -> y <= 2023 + 4)
    /\ calculate_days_until_birthday 7
         (mkclock (mkdate 2023 3 1) (mkdate 2023 3 1)) "29/02"
         (Some (mkdate 2023 3 1))
       = Some (Ok (days_between (mkdate y 2 29) (mkdate 2023 3 1))).
Proof.
  apply (feb29_roll_forward 7 _ "29/02" (mkdate 2023 3 1));
    [reflexivity | reflexivity | reflexivity | reflexivity | lia].
Defined.

(** Beyond the last leap year of the calendar the loop finds nothing: from a
    reference date after 9996-02-29 no amount of fuel lets it return. *)
Lemma next_valid_year_none_after_9996 fuel :
  forall y, 9996 < y -> next_valid_year fuel y 2 29 = None.
Proof.
  induction fuel as [| fuel IH]; intros y Hy; [done |].
  cbn [next_valid_year]. unfold new_datetime. rewrite feb29_ok.
  destruct (is_leap y && (1 <=? y) && (y <=? MAXYEAR)) eqn:Hok.
  - exfalso.
    apply andb_prop in Hok as [Hok Hmax]. apply andb_prop in Hok as [Hleap _].
    apply Z.leb_le in Hmax. unfold MAXYEAR in Hmax.
    assert (y = 9997 \/ y = 9998 \/ y = 9999) as [-> | [-> | ->]] by lia;
      discriminate Hleap.
  - apply IH. lia.
Qed.

Example roll_forward_diverges fuel clk :
  calculate_days_until_birthday fuel clk "29/02" (Some (mkdate 9997 3 1)) = None.
Proof.
  unfold calculate_days_until_birthday.
  change (split_day_month "29/02") with (Ok (29, 2) : res (Z * Z)).
  cbn -[next_valid_year]. by rewrite next_valid_year_none_after_9996.
Qed.

(** The scenarios of the specification. *)
Example scenario_christmas clk :
  check_if_birthday_today clk "25/12" (Some (mkdate 2024 12 25)) = Ok true.
Proof. reflexivity. Qed.

Example scenario_leap_day_from_march clk :
  calculate_days_until_birthday 1 clk "29/02" (Some (mkdate 2023 3 1))
  = Some (Ok (days_between (mkdate 2024 2 29) (mkdate 2023 3 1))).
Proof. reflexivity. Qed.

End date_facts.

(** ** The clock (C9) *)

Module clock_facts.
Import Text date_utils.




End clock_facts.


(** ** [extract_date] (C7) *)

Module extract_date_facts.
Import Text Regex date_utils text_facts.

(** *** The two patterns, as predicates on the text *)

(** The texts [DD/MM/YYYY] and [DD/MM], character by character. *)
Definition dmy_text (d1 d2 m1 m2 y1 y2 y3 y4 : ascii) : string :=
  String d1 (String d2 (String "/" (String m1 (String m2 (String "/"
    (String y1 (String y2 (String y3 (String y4 EmptyString))))))))).

Definition dm_text (d1 d2 m1 m2 : ascii) : string :=
  String d1 (String d2 (String "/" (String m1 (String m2 EmptyString)))).

Definition dmy_year (y1 y2 y3 y4 : ascii) : Z :=
  100 * two_digits y1 y2 + two_digits y3 y4.

Definition slash (c : ascii) : bool := if ascii_dec c "/" then true else false.

(** The text continues with [/\d{4}]. *)
Definition year_tail (s : string) : bool :=
  match s with
  | String c (String y1 (String y2 (String y3 (String y4 _)))) =>
      slash c && is_digit y1 && is_digit y2 && is_digit y3 && is_digit y4
  | _ => false
  end.



(** [body], standing between the character [prev] and the text [suf], is a
    match of [\b(\d{2}/\d{2}/\d{4})\b]. *)
Definition year_qualified (prev : option ascii) (body suf : string) : Prop :=
  exists d1 d2 m1 m2 y1 y2 y3 y4,
    body = dmy_text d1 d2 m1 m2 y1 y2 y3 y4
    /\ is_digit d1 = true /\ is_digit d2 = true
    /\ is_digit m1 = true /\ is_digit m2 = true
    /\ is_digit y1 = true /\ is_digit y2 = true
    /\ is_digit y3 = true /\ is_digit y4 = true
    /\ word_before prev = false /\ word_after suf = false.

(** ... a match of [\b(\d{2}/\d{2})(?!/\d{4})\b]. *)
Definition bare (prev : option ascii) (body suf : string) : Prop :=
  exists d1 d2 m1 m2,
    body = dm_text d1 d2 m1 m2
    /\ is_digit d1 = true /\ is_digit d2 = true
    /\ is_digit m1 = true /\ is_digit m2 = true
    /\ word_before prev = false
    /\ year_tail suf = false /\ word_after suf = false.





(** *** The matcher on the two patterns *)

(** The match of each pattern at one position, read off the text. *)
Definition year_here (prev : option ascii) (s : string) : option string :=
  match s with
  | String d1 (String d2 (String s1 (String m1 (String m2 (String s2
      (String y1 (String y2 (String y3 (String y4 r))))))))) =>
      if negb (word_before prev)
         && is_digit d1 && is_digit d2 && slash s1
         && is_digit m1 && is_digit m2 && slash s2
         && is_digit y1 && is_digit y2 && is_digit y3 && is_digit y4
         && negb (word_after r)
      then Some (dmy_text d1 d2 m1 m2 y1 y2 y3 y4) else None
  | _ => None
  end.

Definition bare_here (prev : option ascii) (s : string) : option string :=
  match s with
  | String d1 (String d2 (String s1 (String m1 (String m2 r)))) =>
      if negb (word_before prev)
         && is_digit d1 && is_digit d2 && slash s1
         && is_digit m1 && is_digit m2
         && negb (year_tail r) && negb (word_after r)
      then Some (dm_text d1 d2 m1 m2) else None
  | _ => None
  end.

Lemma rep_exactly_0 {R} p (k : cont R) prev s pos g :
  rep p true 0 (Some 0%nat) k prev s pos g = k prev s pos g.
Proof. destruct s; reflexivity. Qed.

Lemma rep_exactly_S {R} p n (k : cont R) prev s pos g :
  rep p true (S n) (Some (S n)) k prev s pos g
  = match s with
    | String c s' =>
        if p c then rep p true n (Some n) k (Some c) s' (S pos) g else None
    | EmptyString => None
    end.
Proof.
  destruct s as [| c s']; simpl; [done |]. destruct (p c); simpl; [| done].
  destruct (rep p true n (Some n) k (Some c) s' (S pos) g); done.
Qed.

Lemma is_digit_word c : is_digit c = true -> is_word c = true.
Proof. unfold is_word. by intros ->. Qed.

Ltac split_bools :=
  repeat (match goal with
          | |- context [ is_digit ?c ] => destruct (is_digit c) eqn:?
          | |- context [ ascii_dec ?a ?b ] => destruct (ascii_dec a b)
          | H : is_digit ?c = true |- context [ is_word ?c ] =>
              rewrite (is_digit_word c H)
          | |- context [ word_before ?c ] => destruct (word_before c) eqn:?
          | |- context [ is_word ?c ] => destruct (is_word c) eqn:?
          end; cbn -[rep Nat.sub]; rewrite ?andb_false_r; cbn -[rep Nat.sub];
          try done).

Lemma match_here_year prev s pos :
  match_here year_re prev s pos
  = (fun body => ((10 + pos)%nat, [(1%nat, body)])) <$> year_here prev s.
Proof.
  unfold match_here, year_re, seq, exactly, year_here, slash.
  cbn -[rep Nat.sub].
  destruct s as [|d1 [|d2 [|s1 [|m1 [|m2 [|s2 [|y1 [|y2 [|y3 [|y4 r]]]]]]]]]];
    repeat (rewrite ?rep_exactly_S, ?rep_exactly_0; cbn -[rep Nat.sub]);
    split_bools.
  all: replace (S (S (S (S (S (S (S (S (S (S pos))))))))) - pos)%nat
         with 10%nat by lia.
  subst. destruct r as [| c r]; cbn; [done | destruct (is_word c); done].
Qed.

Lemma match_here_bare prev s pos :
  match_here bare_re prev s pos
  = (fun body => ((5 + pos)%nat, [(1%nat, body)])) <$> bare_here prev s.
Proof.
  unfold match_here, bare_re, bare_here, seq, exactly, slash, year_tail.
  cbn -[rep Nat.sub].
  destruct s as [|d1 [|d2 [|s1 [|m1 [|m2 r]]]]];
    repeat (rewrite ?rep_exactly_S, ?rep_exactly_0; cbn -[rep Nat.sub]);
    split_bools.
  replace (S (S (S (S (S pos)))) - pos)%nat with 5%nat by lia.
  cbn -[rep]. subst s1.
  destruct r as [| c [| y1 [| y2 [| y3 [| y4 r]]]]];
    repeat (rewrite ?rep_exactly_S, ?rep_exactly_0; cbn -[rep]);
    unfold slash; split_bools; try done.
  all: try (destruct r; done).
Qed.

Lemma year_here_Some prev s body :
  year_here prev s = Some body
  <-> exists suf, s = body +:+ suf /\ year_qualified prev body suf.
Proof.
  split.
  - destruct s as [|d1 [|d2 [|s1 [|m1 [|m2 [|s2 [|y1 [|y2 [|y3 [|y4 r]]]]]]]]]];
      simpl; try discriminate.
    destruct (_ && _) eqn:H; [| discriminate].
    intros [= <-]. exists r.
    repeat (apply andb_prop in H as [H ?]).
    unfold slash in *.
    destruct (ascii_dec s1 "/"), (ascii_dec s2 "/"); try discriminate; subst.
    split; [reflexivity |].
    exists d1, d2, m1, m2, y1, y2, y3, y4.
    repeat split; try done; by apply negb_true_iff.
  - intros (suf & -> & d1 & d2 & m1 & m2 & y1 & y2 & y3 & y4 & -> & H).
    destruct H as (H1 & H2 & H3 & H4 & H5 & H6 & H7 & H8 & H9 & H10).
    unfold dmy_text. cbv [String.append year_here].
    rewrite H1, H2, H3, H4, H5, H6, H7, H8, H9, H10. reflexivity.
Qed.

Lemma bare_here_Some prev s body :
  bare_here prev s = Some body
  <-> exists suf, s = body +:+ suf /\ bare prev body suf.
Proof.
  split.
  - destruct s as [|d1 [|d2 [|s1 [|m1 [|m2 r]]]]]; simpl; try discriminate.
    destruct (_ && _) eqn:H; [| discriminate].
    intros [= <-]. exists r.
    repeat (apply andb_prop in H as [H ?]).
    unfold slash in *.
    destruct (ascii_dec s1 "/"); try discriminate; subst.
    split; [reflexivity |].
    exists d1, d2, m1, m2.
    repeat split; try done; by apply negb_true_iff.
  - intros (suf & -> & d1 & d2 & m1 & m2 & -> & H).
    destruct H as (H1 & H2 & H3 & H4 & H5 & H6 & H7).
    unfold dm_text. cbv [String.append bare_here].
    rewrite H1, H2, H3, H4, H5, H6, H7. reflexivity.
Qed.

(** *** [search] finds the leftmost occurrence *)

Section leftmost.
Variable r : re.
Variable here : option ascii -> string -> option string.
Variable P : option ascii -> string -> string -> Prop.
Variable len : nat.
Hypothesis match_here_spec : forall prev s pos,
    match_here r prev s pos
    = (fun body => ((len + pos)%nat, [(1%nat, body)])) <$> here prev s.
Hypothesis here_spec : forall prev s body,
    here prev s = Some body <-> exists suf, s = body +:+ suf /\ P prev body suf.






End leftmost.

(** *** [strptime] on the text of a match *)

Lemma is_digit_inv c :
  is_digit c = true ->
  c ∈ ["0"; "1"; "2"; "3"; "4"; "5"; "6"; "7"; "8"; "9"]%char.
Proof.
  destruct c as [[] [] [] [] [] [] [] []]; intros H; try discriminate H;
    set_solver.
Qed.

Lemma is_digit_not_slash c : is_digit c = true -> c <> "/"%char.
Proof. intros H ->. discriminate. Qed.

Lemma is_digit_not_space c : is_digit c = true -> c <> " "%char.
Proof. intros H ->. discriminate. Qed.

Lemma pad2_two_digits a b :
  is_digit a = true -> is_digit b = true ->
  pad2 (two_digits a b) = String a (String b EmptyString).
Proof.
  intros Ha%is_digit_inv Hb%is_digit_inv.
  repeat (apply elem_of_cons in Ha as [-> | Ha]);
    [.. | by apply elem_of_nil in Ha];
    repeat (apply elem_of_cons in Hb as [-> | Hb]);
    try (by apply elem_of_nil in Hb); reflexivity.
Qed.

Lemma days_in_month_le y m : days_in_month y m <= 31.
Proof.
  unfold days_in_month.
  repeat (match goal with |- context [match ?x with _ => _ end] => destruct x end);
    lia.
Qed.

Lemma date_ok_day_range y m d :
  (1 <=? d) && (d <=? 31) = false -> date_ok y m d = false.
Proof.
  pose proof (days_in_month_le y m) as Hdim.
  unfold date_ok. intros H. apply andb_false_iff in H as [H | H].
  - rewrite H. by rewrite !andb_false_r.
  - apply Z.leb_gt in H. destruct (Z.leb_spec d (days_in_month y m)); [lia |].
    by rewrite !andb_false_r.
Qed.

Lemma date_ok_month_range y m d :
  (1 <=? m) && (m <=? 12) = false -> date_ok y m d = false.
Proof.
  unfold date_ok. intros H. apply andb_false_iff in H as [H | H];
    rewrite H; by rewrite ?andb_false_r.
Qed.

Lemma strptime_dmy_text d1 d2 m1 m2 y1 y2 y3 y4 :
  is_digit d1 = true -> is_digit d2 = true ->
  is_digit m1 = true -> is_digit m2 = true ->
  is_digit y1 = true -> is_digit y2 = true ->
  is_digit y3 = true -> is_digit y4 = true ->
  strptime_dmy (dmy_text d1 d2 m1 m2 y1 y2 y3 y4)
  = if date_ok (dmy_year y1 y2 y3 y4) (two_digits m1 m2) (two_digits d1 d2)
    then Ok (mkdate (dmy_year y1 y2 y3 y4) (two_digits m1 m2) (two_digits d1 d2))
    else Raise ValueError.
Proof.
  intros Hd1 Hd2 Hm1 Hm2 Hy1 Hy2 Hy3 Hy4.
  unfold strptime_dmy, dmy_text, new_datetime, dmy_year.
  set (D := two_digits d1 d2). set (M := two_digits m1 m2).
  set (Y := 100 * two_digits y1 y2 + two_digits y3 y4).
  unfold parse_day. rewrite Hd1, Hd2. cbn [andb]. fold D.
  destruct ((1 <=? D) && (D <=? 31)) eqn:HD.
  - cbn -[is_digit digit_val two_digits Z.leb date_ok Z.add Z.mul].
    rewrite Hm1, Hm2. cbn [andb]. fold M.
    destruct ((1 <=? M) && (M <=? 12)) eqn:HM.
    + cbn -[is_digit digit_val two_digits Z.leb date_ok Z.add Z.mul].
      rewrite Hy1, Hy2, Hy3, Hy4.
      cbn -[is_digit digit_val two_digits Z.leb date_ok Z.add Z.mul].
      fold Y. destruct (date_ok Y M D); reflexivity.
    + rewrite (date_ok_month_range Y M D) by done.
      destruct (negb (digit_val m1 =? 0));
        cbn -[is_digit digit_val two_digits Z.leb date_ok Z.add Z.mul];
        [| done].
      destruct (ascii_dec m2 "/") as [E |]; [by apply is_digit_not_slash in E |].
      done.
  - rewrite (date_ok_day_range Y M D) by done.
    destruct (negb (digit_val d1 =? 0));
      cbn -[is_digit digit_val two_digits Z.leb date_ok Z.add Z.mul].
    + destruct (ascii_dec d2 "/") as [E |]; [by apply is_digit_not_slash in E |].
      done.
    + destruct (ascii_dec d1 " ") as [E |]; [by apply is_digit_not_space in E |].
      done.
Qed.

Lemma strptime_dm_text d1 d2 m1 m2 :
  is_digit d1 = true -> is_digit d2 = true ->
  is_digit m1 = true -> is_digit m2 = true ->
  strptime_dm (dm_text d1 d2 m1 m2)
  = if date_ok 1900 (two_digits m1 m2) (two_digits d1 d2)
    then Ok (mkdate 1900 (two_digits m1 m2) (two_digits d1 d2))
    else Raise ValueError.
Proof.
  intros Hd1 Hd2 Hm1 Hm2.
  unfold strptime_dm, dm_text, new_datetime.
  set (D := two_digits d1 d2). set (M := two_digits m1 m2).
  unfold parse_day. rewrite Hd1, Hd2. cbn [andb]. fold D.
  destruct ((1 <=? D) && (D <=? 31)) eqn:HD.
  - cbn -[is_digit digit_val two_digits Z.leb date_ok Z.add Z.mul].
    rewrite Hm1, Hm2. cbn [andb]. fold M.
    destruct ((1 <=? M) && (M <=? 12)) eqn:HM.
    + cbn -[is_digit digit_val two_digits Z.leb date_ok Z.add Z.mul].
      destruct (date_ok 1900 M D); reflexivity.
    + rewrite (date_ok_month_range 1900 M D) by done.
      destruct (negb (digit_val m1 =? 0));
        cbn -[is_digit digit_val two_digits Z.leb date_ok Z.add Z.mul]; done.
  - rewrite (date_ok_day_range 1900 M D) by done.
    destruct (negb (digit_val d1 =? 0));
      cbn -[is_digit digit_val two_digits Z.leb date_ok Z.add Z.mul].
    + destruct (ascii_dec d2 "/") as [E |]; [by apply is_digit_not_slash in E |].
      done.
    + destruct (ascii_dec d1 " ") as [E |]; [by apply is_digit_not_space in E |].
      done.
Qed.

(** *** The result of [extract_date] *)





End extract_date_facts.

(** ** MessageComposer *)

Module composer_facts.
Import Text date_utils slack_utils message_generator text_facts.

(** The text without its first [n] characters. *)
Fixpoint drop_chars (n : nat) (s : string) : string :=
  match n, s with
  | S n', String _ s' => drop_chars n' s'
  | _, _ => s
  end.

(** The text before and after the first occurrence of [old]. *)
Fixpoint split_at (old s : string) : option (string * string) :=
  if starts_with old s then Some (EmptyString, drop_chars (String.length old) s)
  else match s with
       | EmptyString => None
       | String c s' =>
           match split_at old s' with
           | Some (a, b) => Some (String c a, b)
           | None => None
           end
       end.

(** The backup message of index [i], before and after its [{name}]. *)
Definition name_parts (i : nat) : string * string :=
  default (EmptyString, EmptyString)
    (split_at "{name}" (random_choice i BACKUP_MESSAGES)).

Lemma random_choice_backup i :
  exists j, (j < 5)%nat
            /\ random_choice i BACKUP_MESSAGES = nth j BACKUP_MESSAGES EmptyString.
Proof.
  exists (i mod 5)%nat. split; [apply Nat.mod_upper_bound; lia | reflexivity].
Qed.

Lemma backup_replace i m :
  replace "{name}" m (random_choice i BACKUP_MESSAGES)
  = fst (name_parts i) +:+ m +:+ snd (name_parts i).
Proof.
  unfold name_parts.
  destruct (random_choice_backup i) as (j & Hj & ->).
  destruct j as [|[|[|[|[|j]]]]]; [.. | lia]; vm_compute; reflexivity.
Qed.

Lemma backup_parts i :
  fst (name_parts i) <> EmptyString
  /\ contains BROADCAST (fst (name_parts i))
     || contains BROADCAST (snd (name_parts i)) = true.
Proof.
  unfold name_parts.
  destruct (random_choice_backup i) as (j & Hj & ->).
  destruct j as [|[|[|[|[|j]]]]]; [.. | lia]; vm_compute; done.
Qed.

Lemma mention_text_eq name user_id :
  (if truthy_str user_id then user_mention_of name user_id else name)
  = user_mention_of name user_id.
Proof. unfold user_mention_of. by destruct (truthy_str user_id). Qed.

Lemma fallback_message_parts choice name user_id :
  fallback_message choice name user_id
  = fst (name_parts choice) +:+ user_mention_of name user_id
    +:+ snd (name_parts choice).
Proof. unfold fallback_message. by rewrite mention_text_eq, backup_replace. Qed.

Lemma is_valid_tokens user_id reply :
  truthy_str user_id = true -> is_valid user_id reply = true ->
  contains (get_user_mention user_id) reply = true
  /\ contains BROADCAST reply = true.
Proof.
  unfold is_valid, validation_errors. intros ->. simpl.
  destruct (contains (get_user_mention user_id) reply),
    (contains BROADCAST reply); simpl; done.
Qed.

(** How a run of [completion] ends: the calls before the last one all
    returned text that failed validation; the last one raised (fallback),
    or returned valid text, or returned invalid text on the last attempt
    allowed. *)
Definition outcome (gen : backend) (choice : nat) (name : string)
    (user_id : option string) (max_index : nat) (r : composed) : Prop :=
  exists pre p,
    calls r = pre ++ [p] /\ (length pre <= max_index)%nat
    /\ (forall n q, pre !! n = Some q ->
          exists raw, gen n q = Some raw
                      /\ is_valid user_id (fix_slack_formatting raw) = false)
    /\ match gen (length pre) p with
       | None =>
           source r = fallback /\ text r = fallback_message choice name user_id
       | Some raw =>
           source r = generated /\ text r = fix_slack_formatting raw
           /\ (is_valid user_id (fix_slack_formatting raw) = true
               \/ length pre = max_index)
       end.

Lemma completion_loop_outcome gen choice name user_id remaining :
  forall retry_count template sent,
    length sent = retry_count ->
    (forall n q, sent !! n = Some q ->
       exists raw, gen n q = Some raw
                   /\ is_valid user_id (fix_slack_formatting raw) = false) ->
    outcome gen choice name user_id (retry_count + remaining)
      (completion_loop gen choice name user_id retry_count remaining template sent).
Proof.
  induction remaining as [| remaining IH]; intros retry_count template sent Hlen Hsent.
  - simpl. destruct (gen retry_count template) as [raw |] eqn:Hgen.
    + destruct (is_valid user_id (fix_slack_formatting raw)) eqn:Hvalid;
        exists sent, template; simpl; rewrite Hlen, Hgen;
        (split; [done | split; [lia | split; [done |]]]);
        (split; [done | split; [done |]]); [by left | right; lia].
    + exists sent, template. simpl. rewrite Hlen, Hgen.
      split; [done | split; [lia | done]].
  - simpl. destruct (gen retry_count template) as [raw |] eqn:Hgen.
    + destruct (is_valid user_id (fix_slack_formatting raw)) eqn:Hvalid.
      * exists sent, template. simpl. rewrite Hlen, Hgen.
        split; [done | split; [lia | split; [done |]]].
        split; [done | split; [done | by left]].
      * replace (retry_count + S remaining)%nat
          with (S retry_count + remaining)%nat by lia.
        apply IH.
        -- rewrite length_app. simpl. lia.
        -- intros n q Hq.
           destruct (decide (n < length sent)%nat) as [Hlt | Hge].
           ++ rewrite lookup_app_l in Hq by done. by apply Hsent.
           ++ rewrite lookup_app_r in Hq by lia.
              destruct (n - length sent)%nat as [| k] eqn:Hk; [| done].
              injection Hq as <-.
              assert (n = retry_count) as -> by lia.
              by exists raw.
    + exists sent, template. simpl. rewrite Hlen, Hgen.
      split; [done | split; [lia | done]].
Qed.

Lemma completion_outcome gen choice template name user_id max_retries :
  outcome gen choice name user_id max_retries
    (completion gen choice template name user_id max_retries).
Proof.
  apply (completion_loop_outcome gen choice name user_id max_retries 0%nat);
    [done | intros n q Hq; done].
Qed.

(** *** The tokens of the returned text (C1) *)

(** C1 as the specification words it, for one run of [completion]. *)
Definition tokens_claim (gen : backend) (choice : nat)
    (template : list chat_message) (name : string) (user_id : option string)
    (max_retries : nat) : Prop :=
  let r := completion gen choice template name user_id max_retries in
  contains (get_user_mention user_id) (text r) = true
  /\ contains BROADCAST (text r) = true.

(** C1, counterexample: a backend that answers every request with a text
    without the two tokens.  After the first attempt and the two retries
    [completion] returns the last answer as it is. *)
Lemma completion_returns_invalid_text :
  ~ tokens_claim (fun _ _ => Some "Happy birthday!"%string) 0 [] "Ann"
      (Some "U123"%string) 2.
Proof.
  unfold tokens_claim. vm_compute. intros [H _]. discriminate H.
Qed.

(** C1, amended: for every input with a user id and every behaviour of the
    backend, the text [completion] returns contains the mention token and the
    broadcast token when it comes from an attempt that passed validation
    (the first or a retry) or from the fallback pool; the only other outcome
    is that all [max_retries + 1] attempts returned text that failed
    validation, and then the last of these texts is returned as it is. *)
Theorem completion_tokens gen choice template name user_id max_retries :
  truthy_str user_id = true ->
  let r := completion gen choice template name user_id max_retries in
  (contains (get_user_mention user_id) (text r) = true
   /\ contains BROADCAST (text r) = true)
  \/ (source r = generated
      /\ length (calls r) = S max_retries
      /\ forall n p, calls r !! n = Some p ->
           exists raw, gen n p = Some raw
                       /\ is_valid user_id (fix_slack_formatting raw) = false
                       /\ (n = max_retries -> text r = fix_slack_formatting raw)).
Proof.
  intros Huid r.
  destruct (completion_outcome gen choice template name user_id max_retries)
    as (pre & p & Hcalls & Hle & Hpre & Hlast).
  fold r in Hcalls, Hlast.
  destruct (gen (length pre) p) as [raw |] eqn:Hgen.
  - destruct Hlast as (Hsrc & Htext & Hend).
    destruct (is_valid user_id (fix_slack_formatting raw)) eqn:Hvalid.
    + left. rewrite Htext. by apply is_valid_tokens.
    + right. destruct Hend as [| Hmax]; [done |].
      split; [done |]. split; [rewrite Hcalls, length_app; simpl; lia |].
      intros n q Hq. rewrite Hcalls in Hq.
      destruct (decide (n < length pre)%nat) as [Hlt | Hge].
      * rewrite lookup_app_l in Hq by done.
        destruct (Hpre n q Hq) as (raw' & ? & ?).
        exists raw'. split; [done | split; [done | lia]].
      * rewrite lookup_app_r in Hq by lia.
        destruct (n - length pre)%nat as [| k] eqn:Hk; [| done].
        injection Hq as <-.
        assert (n = length pre) as -> by lia.
        exists raw. by rewrite Hgen.
  - left. destruct Hlast as (_ & Htext).
    rewrite Htext, fallback_message_parts.
    unfold user_mention_of. rewrite Huid. split.
    + apply contains_middle.
    + destruct (backup_parts choice) as [_ Hside].
      apply orb_true_iff in Hside as [Hl | Hr].
      * by apply contains_append_l.
      * by do 2 apply contains_append_r.
Qed.

Lemma completion_tokens_witness :
  let r := completion (fun n _ => match n with
                                  | O => Some "Hello"%string
                                  | _ => None
                                  end) 3 [] "Ann" (Some "U123"%string) 2 in
  (contains (get_user_mention (Some "U123"%string)) (text r) = true
   /\ contains BROADCAST (text r) = true)
  \/ (source r = generated
      /\ length (calls r) = 3%nat
      /\ forall n p, calls r !! n = Some p ->
           exists raw, match n with
                       | O => Some "Hello"%string
                       | _ => None
                       end = Some raw
                       /\ is_valid (Some "U123"%string) (fix_slack_formatting raw) = false
                       /\ (n = 2%nat -> text r = fix_slack_formatting raw)).
Proof.
  apply (completion_tokens _ 3 [] "Ann" (Some "U123"%string) 2). reflexivity.
Defined.

(** The scenario of the specification: two answers without the mention,
    then a valid one on the third attempt, the last allowed by
    [max_retries = 2]. *)
Example scenario_repaired_on_third_attempt :
  let gen : backend := fun n _ =>
    match n with
    | 2%nat => Some "Happy birthday <@U123>! <!channel>"%string
    | _ => Some "Happy birthday! <!channel>"%string
    end in
  let r := completion gen 0 [] "Ann" (Some "U123"%string) 2 in
  text r = "Happy birthday <@U123>! <!channel>"%string
  /\ source r = generated /\ length (calls r) = 3%nat.
Proof. vm_compute. done. Qed.

(** *** A backend that raises (C6) *)

(** C6: if the backend raises on a call, that call is the last one
    [completion] makes, and the text returned is a message of the fallback
    pool with the mention put in place of [{name}]: it is not empty and
    contains the mention. *)
Theorem completion_backend_raises gen choice template name user_id max_retries n p :
  let r := completion gen choice template name user_id max_retries in
  calls r !! n = Some p -> gen n p = None ->
  (exists pre, calls r = pre ++ [p] /\ length pre = n)
  /\ source r = fallback
  /\ text r = replace "{name}" (user_mention_of name user_id)
                (random_choice choice BACKUP_MESSAGES)
  /\ random_choice choice BACKUP_MESSAGES ∈ BACKUP_MESSAGES
  /\ text r <> EmptyString
  /\ contains (user_mention_of name user_id) (text r) = true.
Proof.
  intros r Hcall Hraise.
  destruct (completion_outcome gen choice template name user_id max_retries)
    as (pre & q & Hcalls & Hle & Hpre & Hlast).
  fold r in Hcalls, Hlast.
  rewrite Hcalls in Hcall.
  assert (n = length pre /\ q = p) as [-> ->].
  { destruct (decide (n < length pre)%nat) as [Hlt | Hge].
    - rewrite lookup_app_l in Hcall by done.
      destruct (Hpre n p Hcall) as (raw & Hraw & _). congruence.
    - rewrite lookup_app_r in Hcall by lia.
      destruct (n - length pre)%nat as [| k] eqn:Hk; [| done].
      injection Hcall as <-. split; [lia | done]. }
  rewrite Hraise in Hlast. destruct Hlast as [Hsrc Htext].
  split; [by exists pre |]. split; [done |].
  split; [by rewrite Htext; unfold fallback_message; rewrite mention_text_eq |].
  split.
  { unfold random_choice. apply list_elem_of_In, nth_In.
    apply Nat.mod_upper_bound. done. }
  rewrite Htext, fallback_message_parts. split.
  - destruct (backup_parts choice) as [Hne _].
    destruct (fst (name_parts choice)); done.
  - apply contains_middle.
Qed.

Lemma completion_backend_raises_witness :
  let r := completion (fun _ _ => None) 1 [] "Ann" (Some "U123"%string) 2 in
  (exists pre, calls r = pre ++ [[]] /\ length pre = 0%nat)
  /\ source r = fallback
  /\ text r = replace "{name}" (user_mention_of "Ann" (Some "U123"%string))
                (random_choice 1 BACKUP_MESSAGES)
  /\ random_choice 1 BACKUP_MESSAGES ∈ BACKUP_MESSAGES
  /\ text r <> EmptyString
  /\ contains (user_mention_of "Ann" (Some "U123"%string)) (text r) = true.
Proof.
  apply (completion_backend_raises (fun _ _ => None) 1 [] "Ann"
           (Some "U123"%string) 2 0 []); reflexivity.
Defined.

(** *** Formatting and the tokens (C8) *)

(** C8 fails on the code: the tag-stripping rule [<(?![@!#])(.*?)>] starts at
    a [<] that opens no token and runs lazily to the next [>], which may be
    the one closing a token further on in the line.  Here the broadcast
    token, then the mention token, lose their closing bracket. *)
Lemma fix_slack_formatting_breaks_tokens :
  (let input := "Happy birthday <@U123>! We <3 you <!channel>"%string in
   contains BROADCAST input = true
   /\ fix_slack_formatting input = "Happy birthday <@U123>! We 3 you <!channel"%string
   /\ contains BROADCAST (fix_slack_formatting input) = false)
  /\ (let input := "<!channel> we <3 <@U123> today"%string in
      contains "<@U123>" input = true
      /\ fix_slack_formatting input = "<!channel> we 3 <@U123 today"%string
      /\ contains "<@U123>" (fix_slack_formatting input) = false).
Proof. vm_compute. done. Qed.

End composer_facts.

(** ** AnnouncementLedger and DailyScheduler *)

Module scheduler_facts.
Import Text date_utils slack_utils message_generator storage announcement birthday.

(** The file system works: no operation raises. *)
Definition fs_ok (e : env) : Prop := forall op, fs_fails e op = false.

(** The rotation completes: neither the listing of the tracking directory
    nor a removal raises. *)
Definition rotation_completes (e : env) : Prop :=
  fs_fails e op_listdir = false /\ forall name, fs_fails e (op_remove name) = false.


(** A marker file of another day, as [cleanup_old_announcement_files] tests it. *)
Definition stale (e : env) (name : string) : bool :=
  starts_with "announced_" name && negb (String.eqb name (announced_file e)).

Lemma remove_old_spec e names :
  (forall name, fs_fails e (op_remove name) = false) ->
  forall w,
    let w' := remove_old e (announced_file e) names w in
    posted w' = posted w /\ trace w' = trace w
    /\ forall name,
         files w' !! name
         = if bool_decide (name ∈ names) && stale e name then None
           else files w !! name.
Proof.
  intros Hfs. induction names as [| f rest IH]; intros w; cbn [remove_old].
  - split; [done | split; [done |]]. intros name.
    rewrite bool_decide_eq_false_2; [done |]. apply not_elem_of_nil.
  - fold (stale e f). destruct (stale e f) eqn:Hstale.
    + rewrite Hfs.
      destruct (IH (mkworld (delete f (files w)) (posted w) (trace w)))
        as (Hp & Ht & Hf).
      simpl in *. split; [done | split; [done |]].
      intros name. rewrite Hf.
      destruct (decide (name = f)) as [-> | Hne].
      * rewrite Hstale, lookup_delete_eq.
        rewrite (bool_decide_eq_true_2 (f ∈ f :: rest)) by left.
        by destruct (bool_decide (f ∈ rest)).
      * rewrite lookup_delete_ne by done.
        destruct (stale e name); rewrite ?andb_false_r; [| done].
        rewrite !andb_true_r.
        destruct (decide (name ∈ rest)) as [Hin | Hnin].
        -- rewrite !bool_decide_eq_true_2; [done | by right | done].
        -- rewrite !bool_decide_eq_false_2; [done | | done].
           intros [? | ?]%elem_of_cons; done.
    + destruct (IH w) as (Hp & Ht & Hf).
      split; [done | split; [done |]].
      intros name. rewrite Hf.
      destruct (decide (name = f)) as [-> | Hne].
      * by rewrite Hstale, !andb_false_r.
      * destruct (stale e name); rewrite ?andb_false_r; [| done].
        rewrite !andb_true_r.
        destruct (decide (name ∈ rest)) as [Hin | Hnin].
        -- rewrite !bool_decide_eq_true_2; [done | by right | done].
        -- rewrite !bool_decide_eq_false_2; [done | | done].
           intros [? | ?]%elem_of_cons; done.
Qed.

Lemma cleanup_spec e w :
  rotation_completes e ->
  let w' := cleanup_old_announcement_files e w in
  posted w' = posted w /\ trace w' = trace w
  /\ forall name,
       files w' !! name = if stale e name then None else files w !! name.
Proof.
  intros [Hlist Hfs]. unfold cleanup_old_announcement_files. rewrite Hlist.
  destruct (remove_old_spec e (listdir w) Hfs w) as (Hp & Ht & Hf).
  split; [done | split; [done |]].
  intros name. rewrite Hf.
  destruct (stale e name); rewrite ?andb_false_r; [| done].
  rewrite andb_true_r.
  destruct (decide (name ∈ listdir w)) as [Hin | Hnin].
  - by rewrite bool_decide_eq_true_2.
  - rewrite bool_decide_eq_false_2 by done.
    unfold listdir in Hnin.
    destruct (files w !! name) as [v |] eqn:Hv; [| done].
    exfalso. apply Hnin. apply list_elem_of_fmap.
    exists (name, v). split; [done |]. by apply elem_of_map_to_list.
Qed.

Lemma stale_today e : stale e (announced_file e) = false.
Proof. unfold stale. by rewrite String.eqb_refl, andb_false_r. Qed.


(** *** One subject: announce, then mark *)


(** *** The loop over the subjects *)








(** *** What a trace says about one subject *)




(** A user id that reads back from the marker file as it was written. *)
Definition clean_id (u : string) : Prop := strip u = u /\ u <> EmptyString.




Lemma announced_spec e w :
  fs_ok e ->
  get_announced_birthdays_today e w
  = List.filter nonempty (strip <$> default [] (files w !! announced_file e)).
Proof.
  intros Hfs. unfold get_announced_birthdays_today. rewrite Hfs.
  by destruct (files w !! announced_file e).
Qed.









(** *** Two runs on the same day (C4) *)






(** A platform that accepts every message, on 2024-12-25. *)
Definition accepting_env : env :=
  mkenv (mkclock (mkdate 2024 12 25) (mkdate 2024 12 25)) "C0123"
    (fun _ => false) (fun u => u) (fun _ _ _ _ _ => Some [])
    (fun _ _ _ => Some "Happy birthday <@U1>! <!channel>"%string)
    (fun _ _ _ => true) (fun _ _ => 0%nat).


(** *** Rotation (C5) *)

Lemma remove_old_trace e keep names :
  forall w, trace (remove_old e keep names w) = trace w.
Proof.
  induction names as [| f rest IH]; intros w; cbn [remove_old]; [done |].
  destruct (_ && _); [| apply IH].
  destruct (fs_fails e (op_remove f)); [done |]. by rewrite IH.
Qed.

Lemma cleanup_trace e w : trace (cleanup_old_announcement_files e w) = trace w.
Proof.
  unfold cleanup_old_announcement_files.
  destruct (fs_fails e op_listdir); [done | apply remove_old_trace].
Qed.




Definition stale_world : world :=
  mkworld (<["announced_2024-12-24.txt"%string := ["U9"%string]]>
             (<["announced_2024-12-25.txt"%string := ["U7"%string]]> ∅)) [] [].


(** The stale file is gone and today's is kept. *)
Example rotation_example :
  files (cleanup_old_announcement_files accepting_env stale_world)
  !! "announced_2024-12-24.txt"%string = None
  /\ files (cleanup_old_announcement_files accepting_env stale_world)
     !! "announced_2024-12-25.txt"%string = Some ["U7"%string].
Proof. vm_compute. done. Qed.

(** *** Marking after the announcement (C10) *)

(** 2024-02-29, a platform and a backend that work. *)
Definition leap_day_env : env :=
  mkenv (mkclock (mkdate 2024 2 29) (mkdate 2024 2 29)) "C0123"
    (fun _ => false) (fun u => u) (fun _ _ _ _ _ => Some [])
    (fun _ _ _ => Some "Happy birthday <@U1>! <!channel>"%string)
    (fun _ _ _ => true) (fun _ _ => 0%nat).

(** C10 fails on the code for a subject born on 29 February.  The date is
    stored as 29/02 with its year ([extract_date] accepts 29/02/2000); on
    2024-02-29 [check_if_birthday_today] answers [True], and then
    [date_to_words] raises: [strptime] without a year builds the date in
    1900, which has no 29 February.  [daily] does not catch the exception:
    the run ends before the announcement and before
    [mark_birthday_announced], no marker is written, and a later run of the
    day fails in the same way.  ([create_birthday_announcement] formats the
    same date in the leap year 2000.) *)
Lemma daily_raises_on_leap_day :
  let birthdays := [("U1"%string, mkbirthday "29/02" (Some 2000))] in
  let moment := mkdate 2024 2 29 in
  let w0 := mkworld ∅ [] [] in
  extract_date "29/02/2000" = mkextracted success (Some "29/02"%string) (Some 2000)
  /\ check_if_birthday_today (clk leap_day_env) "29/02" (Some moment) = Ok true
  /\ get_announced_birthdays_today leap_day_env w0 = []
  /\ date_to_words "29/02" (Some 2000) = Raise ValueError
  /\ (daily leap_day_env birthdays moment w0).1 = Raise ValueError
  /\ trace (daily leap_day_env birthdays moment w0).2 = [Rotated; ReadAnnounced]
  /\ files (daily leap_day_env birthdays moment w0).2
     !! announced_file leap_day_env = None
  /\ (daily leap_day_env birthdays moment
        (daily leap_day_env birthdays moment w0).2).1 = Raise ValueError.
Proof. vm_compute. done. Qed.

End scheduler_facts.

(** ** The template announcement *)

Module template_facts.
Import Text date_utils slack_utils message_generator text_facts.

(** A text that begins and ends with a character [str.strip] keeps. *)
Fixpoint ends_solid (t : string) : bool :=
  match t with
  | EmptyString => false
  | String c EmptyString => negb (is_space c)
  | String _ t' => ends_solid t'
  end.

Definition solid (t : string) : bool :=
  match t with
  | EmptyString => false
  | String c _ => negb (is_space c) && ends_solid t
  end.

Lemma contains_nonempty t s :
  t <> EmptyString -> contains t s = true -> s <> EmptyString.
Proof. intros Ht H ->. destruct t; [done | discriminate]. Qed.

Lemma starts_with_nonempty t s :
  t <> EmptyString -> starts_with t s = true -> s <> EmptyString.
Proof. intros Ht H ->. destruct t; [done | discriminate]. Qed.

Lemma contains_lstrip t s :
  solid t = true -> contains t s = true -> contains t (lstrip s) = true.
Proof.
  intros Ht. induction s as [| c s IH]; [done |].
  intros H. cbn [lstrip]. destruct (is_space c) eqn:Hc; [| done].
  apply IH. rewrite contains_cons in H.
  apply orb_true_iff in H as [H | H]; [| done].
  destruct t as [| a t]; [done |]. simpl in H, Ht.
  destruct (ascii_dec a c) as [-> |]; [| done].
  by rewrite Hc in Ht.
Qed.

Lemma rstrip_cons c s :
  rstrip s <> EmptyString -> rstrip (String c s) = String c (rstrip s).
Proof. intros H. cbn [rstrip]. by destruct (rstrip s). Qed.

Lemma starts_with_rstrip t :
  ends_solid t = true ->
  forall s, starts_with t s = true -> starts_with t (rstrip s) = true.
Proof.
  induction t as [| a t IH]; [done |].
  intros Ht [| c s] H; [done |].
  cbn [starts_with] in H. destruct (ascii_dec a c) as [-> |]; [| done].
  destruct t as [| b t].
  - cbn [ends_solid] in Ht. cbn [rstrip].
    destruct (rstrip s); [destruct (is_space c); [done |] |];
      cbn [starts_with]; by destruct (ascii_dec c c).
  - assert (Ht' : ends_solid (String b t) = true) by done.
    specialize (IH Ht' s H).
    rewrite rstrip_cons; [| by apply (starts_with_nonempty (String b t))].
    cbn [starts_with]. by destruct (ascii_dec c c).
Qed.

Lemma ends_solid_nonempty t : ends_solid t = true -> t <> EmptyString.
Proof. by destruct t. Qed.

Lemma contains_rstrip t s :
  ends_solid t = true -> contains t s = true -> contains t (rstrip s) = true.
Proof.
  intros Ht. induction s as [| c s IH]; intros H.
  - by apply ends_solid_nonempty, contains_nonempty with (s := EmptyString) in Ht.
  - rewrite contains_cons in H. apply orb_true_iff in H as [H | H].
    + by apply contains_starts_with, starts_with_rstrip.
    + specialize (IH H).
      rewrite rstrip_cons;
        [| by apply (contains_nonempty t); [apply ends_solid_nonempty |]].
      rewrite contains_cons, IH. apply orb_true_r.
Qed.

Lemma solid_ends t : solid t = true -> ends_solid t = true.
Proof. destruct t; [done |]. unfold solid. by intros [_ ?]%andb_prop. Qed.

(** [str.strip] keeps every occurrence of such a text. *)
Lemma contains_strip t s :
  solid t = true -> contains t s = true -> contains t (strip s) = true.
Proof.
  intros Ht H. unfold strip.
  by apply contains_rstrip, contains_lstrip; [apply solid_ends | |].
Qed.

Lemma contains_join t sep x l :
  x ∈ l -> contains t x = true -> contains t (join sep l) = true.
Proof.
  intros Hx Ht. induction l as [| p rest IH]; [by apply elem_of_nil in Hx |].
  apply elem_of_cons in Hx as [<- | Hx].
  - destruct rest; [done |]. by apply contains_append_l.
  - specialize (IH Hx). destruct rest as [| q rest]; [by apply elem_of_nil in Hx |].
    change (join sep (p :: q :: rest)) with (p +:+ sep +:+ join sep (q :: rest)).
    by do 2 apply contains_append_r.
Qed.

Lemma contains_refl t : contains t t = true.
Proof.
  apply contains_starts_with. induction t as [| c t IH]; [done |].
  simpl. by destruct (ascii_dec c c).
Qed.

Lemma ends_solid_append a b : ends_solid b = true -> ends_solid (a +:+ b) = true.
Proof.
  intros Hb. induction a as [| c a IH]; [done |].
  rewrite append_cons. cbn [ends_solid].
  by destruct (a +:+ b).
Qed.

Lemma get_user_mention_solid user_id : solid (get_user_mention user_id) = true.
Proof.
  destruct user_id as [[| c u] |]; [done | | done].
  unfold get_user_mention.
  change ("<@" +:+ String c u +:+ ">") with (String "<" ("@" +:+ String c u +:+ ">")).
  unfold solid. apply andb_true_intro. split; [done |].
  change (String "<" ("@" +:+ String c u +:+ ">"))
    with (("<@" +:+ String c u) +:+ ">").
  by apply ends_solid_append.
Qed.

Lemma template_tokens clk rnd user_id name date_str birth_year :
  let message := create_birthday_announcement clk rnd user_id name date_str birth_year in
  contains (get_user_mention user_id) message = true
  /\ contains BROADCAST message = true.
Proof.
  unfold create_birthday_announcement.
  destruct (match split_day_month date_str with
            | Ok (day, month) => _
            | Raise ValueError => _
            end) as [month_name_str day_num].
  destruct (match birth_year with
            | Some y => _
            | None => _
            end) as [age_text age_fact].
  cbv zeta. split.
  - apply contains_strip; [apply get_user_mention_solid |].
    unfold lines.
    apply (contains_join _ _ (get_user_mention user_id));
      [| apply contains_refl].
    do 5 apply list_elem_of_further. apply list_elem_of_here.
  - apply contains_strip; [done |].
    unfold lines.
    apply (contains_join _ _ "<!channel> Let's celebrate together!"); [| done].
    do 17 apply list_elem_of_further. apply list_elem_of_here.
Qed.

(** X1: the template announcement names the subject and the channel,
    whatever the random choices, the date text and the birth year are. *)
Theorem create_birthday_announcement_tokens clk rnd user_id name date_str birth_year :
  let message := create_birthday_announcement clk rnd user_id name date_str birth_year in
  contains (get_user_mention user_id) message = true
  /\ contains BROADCAST message = true.
Proof. apply template_tokens. Qed.

End template_facts.

Module retry_facts.
Import Text date_utils slack_utils message_generator text_facts.

(** The message [completion] adds to the conversation after a reply that
    failed validation. *)
Definition corrective (name : string) (user_id : option string) (reply : string)
  : chat_message :=
  (user, "The message you provided is missing: "
         +:+ join ", " (validation_errors user_id reply)
         +:+ ". Please regenerate the message including both the user mention "
         +:+ user_mention_of name user_id
         +:+ " and channel mention <!channel> formats exactly as specified.").

(** Each conversation sent is the one before it, followed by the reply it
    got, which failed validation, and by the corrective message. *)
Definition extends (gen : backend) (name : string) (user_id : option string)
    (sent : list (list chat_message)) : Prop :=
  forall n q q', sent !! n = Some q -> sent !! S n = Some q' ->
    exists raw,
      gen n q = Some raw
      /\ is_valid user_id (fix_slack_formatting raw) = false
      /\ q' = q ++ [(assistant, fix_slack_formatting raw);
                    corrective name user_id (fix_slack_formatting raw)].

Lemma extends_snoc gen name user_id sent template raw :
  extends gen name user_id (sent ++ [template]) ->
  gen (length sent) template = Some raw ->
  is_valid user_id (fix_slack_formatting raw) = false ->
  extends gen name user_id
    ((sent ++ [template])
     ++ [template ++ [(assistant, fix_slack_formatting raw);
                      corrective name user_id (fix_slack_formatting raw)]]).
Proof.
  intros Hsent Hgen Hvalid n q q' Hq Hq'.
  destruct (decide (S n < length (sent ++ [template]))%nat) as [Hlt | Hge].
  - rewrite lookup_app_l in Hq by lia. rewrite lookup_app_l in Hq' by done.
    by apply Hsent.
  - apply lookup_lt_Some in Hq' as Hn. rewrite !length_app in Hn.
    rewrite !length_app in Hge. simpl in Hn, Hge. assert (n = length sent) as -> by lia.
    rewrite lookup_app_l in Hq by (rewrite length_app; simpl; lia).
    rewrite lookup_app_r in Hq by lia. rewrite Nat.sub_diag in Hq.
    injection Hq as <-.
    rewrite lookup_app_r in Hq' by (rewrite length_app; simpl; lia).
    rewrite length_app in Hq'. simpl in Hq'.
    replace (S (length sent) - (length sent + 1))%nat with 0%nat in Hq' by lia.
    injection Hq' as <-. by exists raw.
Qed.

Lemma completion_loop_calls gen choice name user_id remaining :
  forall retry_count template sent,
    length sent = retry_count ->
    extends gen name user_id (sent ++ [template]) ->
    let r := completion_loop gen choice name user_id retry_count remaining
               template sent in
    extends gen name user_id (calls r)
    /\ exists rest, calls r = (sent ++ [template]) ++ rest
                    /\ (length rest <= remaining)%nat.
Proof.
  induction remaining as [| remaining IH]; intros retry_count template sent Hlen Hsent.
  - simpl. destruct (gen retry_count template) as [raw |]; simpl;
      [destruct (is_valid user_id (fix_slack_formatting raw)) |];
      (split; [done | exists []; by rewrite app_nil_r]).
  - simpl. destruct (gen retry_count template) as [raw |] eqn:Hgen; simpl.
    + destruct (is_valid user_id (fix_slack_formatting raw)) eqn:Hvalid.
      * split; [done |]. exists []. rewrite app_nil_r. split; [done | simpl; lia].
      * subst retry_count.
        destruct (IH (S (length sent))
                    (template ++ [(assistant, fix_slack_formatting raw);
                                  corrective name user_id (fix_slack_formatting raw)])
                    (sent ++ [template])) as (Hext & rest & Hcalls & Hrest).
        { rewrite length_app. simpl. lia. }
        { by apply extends_snoc. }
        split; [exact Hext |].
        eexists (_ :: rest). split; [| simpl; lia].
        etrans; [exact Hcalls |]. by rewrite <- app_assoc.
    + split; [done |]. exists []. rewrite app_nil_r. split; [done | simpl; lia].
Qed.

(** X2: [completion] sends the conversation it was given first, at most
    [max_retries] more after it, and every later conversation keeps the
    earlier one: it is extended by the rejected reply and the corrective
    message, nothing is dropped or rewritten. *)
Theorem completion_conversations gen choice template name user_id max_retries :
  let r := completion gen choice template name user_id max_retries in
  calls r !! 0%nat = Some template
  /\ (1 <= length (calls r) <= S max_retries)%nat
  /\ extends gen name user_id (calls r).
Proof.
  intros r.
  destruct (completion_loop_calls gen choice name user_id max_retries 0%nat
              template []) as (Hext & rest & Hcalls & Hrest); [done | |].
  { intros n q q' Hq Hq'. by destruct n. }
  fold (completion gen choice template name user_id max_retries) in Hcalls, Hext.
  fold r in Hcalls, Hext. rewrite Hcalls. simpl.
  split; [done |]. split; [lia |]. by rewrite Hcalls in Hext.
Qed.

End retry_facts.

Module formatting_facts.
Import Text Regex message_generator text_facts.

(** The places at which one of the seven patterns of
    [fix_slack_formatting] can start: a doubled star or underscore, three
    backquotes, an opening bracket, a [<] not followed by one of [@!#], and
    a [#] or [>] at the start of a line. *)
Definition markup (prev : option ascii) (s : string) : bool :=
  starts_with "**" s || starts_with "__" s || starts_with "```" s
  || starts_with "[" s
  || starts_with "<" s
     && negb (starts_with "<@" s || starts_with "<!" s || starts_with "<#" s)
  || at_bol prev && (starts_with "#" s || starts_with ">" s).

(** No position of the text [s], which follows the character [prev], is
    one of the places [here]. *)
Fixpoint nowhere (here : option ascii -> string -> bool)
    (prev : option ascii) (s : string) : bool :=
  negb (here prev s)
  && match s with
     | EmptyString => true
     | String c s' => nowhere here (Some c) s'
     end.

(** A text without markup. *)
Definition plain (text : string) : bool := nowhere markup None text.

Lemma nowhere_weaken (here1 here2 : option ascii -> string -> bool) :
  (forall prev s, here2 prev s = true -> here1 prev s = true) ->
  forall s prev, nowhere here1 prev s = true -> nowhere here2 prev s = true.
Proof.
  intros Hw. induction s as [| c s IH]; intros prev H;
    apply andb_prop in H as [H Hrest]; cbn [nowhere];
    apply andb_true_intro; (split; [| auto]);
    destruct (here2 prev _) eqn:E; try done;
    apply Hw in E; by rewrite E in H.
Qed.

(** A pattern that starts nowhere in a text leaves it as it is. *)
Lemma sub_from_nowhere r tpl (here : option ascii -> string -> bool) :
  (forall prev s pos, here prev s = false -> match_here r prev s pos = None) ->
  forall s prev pos,
    nowhere here prev s = true -> sub_from r tpl prev s pos 0 = s.
Proof.
  intros Hhere. induction s as [| c s IH]; intros prev pos H;
    apply andb_prop in H as [H Hrest]; apply negb_true_iff in H;
    cbn [sub_from]; rewrite (Hhere _ _ _ H); [done |].
  f_equal. by apply IH.
Qed.

Ltac no_match :=
  intros prev s pos H; unfold match_here; cbn -[rep starts_with];
  repeat (match goal with
          | |- None = None => reflexivity
          | |- context [ match ?s with EmptyString => _ | String _ _ => _ end ] =>
              is_var s; destruct s; cbn -[rep starts_with] in *
          | |- context [ ascii_dec ?a ?b ] =>
              destruct (ascii_dec a b); subst; cbn -[rep starts_with] in *
          end; try done).

Lemma bold_here prev s pos :
  starts_with "**" s = false -> match_here bold_re prev s pos = None.
Proof. revert prev s pos. no_match. Qed.

Lemma italic_here prev s pos :
  starts_with "__" s = false -> match_here italic_re prev s pos = None.
Proof. revert prev s pos. no_match. Qed.

Lemma code_here prev s pos :
  starts_with "```" s = false -> match_here code_re prev s pos = None.
Proof. revert prev s pos. no_match. Qed.

Lemma link_here prev s pos :
  starts_with "[" s = false -> match_here link_re prev s pos = None.
Proof. revert prev s pos. no_match. Qed.

Lemma header_here prev s pos :
  at_bol prev && starts_with "#" s = false ->
  match_here header_re prev s pos = None.
Proof.
  intros H. unfold match_here. cbn -[rep starts_with].
  destruct (at_bol prev); [| done]. simpl in H.
  destruct s as [| c s]; [done |]. simpl.
  unfold one_of. simpl in *.
  destruct (ascii_dec c "#"); [subst; done |].
  destruct (ascii_dec "#" c); [subst; done | done].
Qed.

Lemma quote_here prev s pos :
  at_bol prev && starts_with ">" s = false ->
  match_here quote_re prev s pos = None.
Proof.
  intros H. unfold match_here. cbn -[rep starts_with].
  destruct (at_bol prev); [| done]. simpl in H.
  destruct s as [| c s]; [done |]. simpl in *.
  destruct (ascii_dec c ">"); [subst; done | done].
Qed.

Lemma tag_here prev s pos :
  starts_with "<" s
  && negb (starts_with "<@" s || starts_with "<!" s || starts_with "<#" s) = false ->
  match_here tag_re prev s pos = None.
Proof.
  intros H. unfold match_here. cbn -[rep starts_with].
  destruct s as [| c s]; [done |].
  destruct (ascii_dec c "<") as [-> |]; [| done].
  destruct s as [| d s]; [done |].
  cbn [starts_with] in H. unfold one_of. cbn [matches contains starts_with].
  destruct (ascii_dec "<" "<"); [| done].
  destruct (ascii_dec d "@") as [-> |]; [done |].
  destruct (ascii_dec d "!") as [-> |]; [done |].
  destruct (ascii_dec d "#") as [-> |]; [done |].
  destruct (ascii_dec "@" d) as [<- |]; [done |].
  destruct (ascii_dec "!" d) as [<- |]; [done |].
  destruct (ascii_dec "#" d) as [<- |]; [done |].
  done.
Qed.

(** X3: on a text without markup [fix_slack_formatting] changes nothing;
    in particular the mention and the broadcast token of such a text are
    kept. *)
Theorem fix_slack_formatting_plain text :
  plain text = true -> fix_slack_formatting text = text.
Proof.
  intros H. unfold fix_slack_formatting, sub, plain in *.
  assert (Hsub : forall r tpl (here : option ascii -> string -> bool),
             (forall prev s pos, here prev s = false ->
                                 match_here r prev s pos = None) ->
             (forall prev s, here prev s = true -> markup prev s = true) ->
             sub_from r tpl None text 0 0 = text).
  { intros r tpl here Hhere Hw.
    apply (sub_from_nowhere r tpl here Hhere).
    by apply (nowhere_weaken markup here Hw). }
  rewrite (Hsub bold_re _ (fun _ s => starts_with "**" s));
    [| intros; by apply bold_here
     | intros prev s E; unfold markup; by rewrite E].
  rewrite (Hsub italic_re _ (fun _ s => starts_with "__" s));
    [| intros; by apply italic_here
     | intros prev s E; unfold markup; rewrite E; by rewrite !orb_true_r].
  rewrite (Hsub link_re _ (fun _ s => starts_with "[" s));
    [| intros; by apply link_here
     | intros prev s E; unfold markup; rewrite E; by rewrite !orb_true_r].
  rewrite (Hsub header_re _ (fun prev s => at_bol prev && starts_with "#" s));
    [| intros; by apply header_here
     | intros prev s [E1 E2]%andb_prop; unfold markup; rewrite E1, E2;
       by rewrite !orb_true_r].
  rewrite (Hsub tag_re _
             (fun _ s => starts_with "<" s
                         && negb (starts_with "<@" s || starts_with "<!" s
                                  || starts_with "<#" s)));
    [| intros; by apply tag_here
     | intros prev s E; unfold markup; rewrite E; by rewrite !orb_true_r].
  rewrite (Hsub code_re _ (fun _ s => starts_with "```" s));
    [| intros; by apply code_here
     | intros prev s E; unfold markup; rewrite E; by rewrite !orb_true_r].
  apply (Hsub quote_re _ (fun prev s => at_bol prev && starts_with ">" s));
    [intros; by apply quote_here |].
  intros prev s [E1 E2]%andb_prop. unfold markup. rewrite E1, E2.
  by rewrite !orb_true_r.
Qed.

Lemma fix_slack_formatting_plain_witness :
  fix_slack_formatting
    "Happy birthday <@U123>! :confetti_ball: *Hooray* for you, <!channel>"
  = "Happy birthday <@U123>! :confetti_ball: *Hooray* for you, <!channel>"%string.
Proof. apply fix_slack_formatting_plain. vm_compute. reflexivity. Defined.

End formatting_facts.

Module stored_date_facts.
Import Text Regex date_utils text_facts date_facts extract_date_facts.

(** *** Reading a stored date back *)

Lemma int_of_two_digits a b :
  is_digit a = true -> is_digit b = true ->
  int_of_str (String a (String b EmptyString)) = Some (two_digits a b).
Proof.
  intros Ha%is_digit_inv Hb%is_digit_inv.
  repeat (apply elem_of_cons in Ha as [-> | Ha]);
    [.. | by apply elem_of_nil in Ha];
    repeat (apply elem_of_cons in Hb as [-> | Hb]);
    try (by apply elem_of_nil in Hb); reflexivity.
Qed.

Lemma split_dm_text d1 d2 m1 m2 :
  is_digit d1 = true -> is_digit d2 = true ->
  is_digit m1 = true -> is_digit m2 = true ->
  split_day_month (dm_text d1 d2 m1 m2)
  = Ok (two_digits d1 d2, two_digits m1 m2).
Proof.
  intros H1 H2 H3 H4. unfold split_day_month, dm_text.
  cbn [split].
  destruct (ascii_dec d1 "/") as [E |]; [by apply is_digit_not_slash in E |].
  destruct (ascii_dec d2 "/") as [E |]; [by apply is_digit_not_slash in E |].
  destruct (ascii_dec m1 "/") as [E |]; [by apply is_digit_not_slash in E |].
  destruct (ascii_dec m2 "/") as [E |]; [by apply is_digit_not_slash in E |].
  destruct (ascii_dec "/" "/"); [| done].
  by rewrite !int_of_two_digits.
Qed.

(** A number of at most two digits, padded: its two digits. *)
Lemma pad2_digits n :
  0 <= n <= 99 ->
  exists a b, is_digit a = true /\ is_digit b = true
              /\ pad2 n = String a (String b EmptyString) /\ two_digits a b = n.
Proof.
  intros Hn.
  assert (exists q r, 0 <= q <= 9 /\ 0 <= r <= 9 /\ n = 10 * q + r)
    as (q & r & Hq & Hr & ->).
  { exists (n / 10), (n mod 10). Z.div_mod_to_equations. lia. }
  assert (Hdig : forall k, 0 <= k <= 9 ->
            exists c, is_digit c = true /\ digit_val c = k
                      /\ str_of_Z k = String c EmptyString).
  { intros k Hk.
    assert (k = 0 \/ k = 1 \/ k = 2 \/ k = 3 \/ k = 4 \/ k = 5 \/ k = 6
            \/ k = 7 \/ k = 8 \/ k = 9) as Hcases by lia.
    repeat (destruct Hcases as [-> | Hcases]); [.. | subst k];
      eexists; (split; [| split]); try reflexivity; reflexivity. }
  destruct (Hdig q Hq) as (a & Ha & Hqa & _).
  destruct (Hdig r Hr) as (b & Hb & Hrb & _).
  exists a, b. split; [done |]. split; [done |].
  split; [| unfold two_digits; lia].
  rewrite <- (pad2_two_digits a b) by done. unfold two_digits. by rewrite Hqa, Hrb.
Qed.

Lemma date_ok_two_digits y m d : date_ok y m d = true -> 0 <= m <= 99 /\ 0 <= d <= 99.
Proof.
  intros H. apply date_ok_bounds in H as (_ & Hm & Hd).
  pose proof (days_in_month_le y m). lia.
Qed.

(** X4: the text [strftime] gives for a date reads back as its day and
    month: [check_if_birthday_today] on it answers whether a reference date
    has that day and month, [True] for the date itself. *)
Theorem strftime_dm_reads_back clk t :
  valid_datetime t ->
  split_day_month (strftime_dm t) = Ok (day t, month t)
  /\ (forall ref, check_if_birthday_today clk (strftime_dm t) (Some ref)
                  = Ok ((day t =? day ref) && (month t =? month ref)))
  /\ check_if_birthday_today clk (strftime_dm t) (Some t) = Ok true.
Proof.
  intros Hok. apply date_ok_two_digits in Hok as [Hm Hd].
  destruct (pad2_digits _ Hd) as (d1 & d2 & Hd1 & Hd2 & Hday & HD).
  destruct (pad2_digits _ Hm) as (m1 & m2 & Hm1 & Hm2 & Hmonth & HM).
  assert (Hsplit : split_day_month (strftime_dm t) = Ok (day t, month t)).
  { unfold strftime_dm. rewrite Hday, Hmonth.
    change (split_day_month (dm_text d1 d2 m1 m2) = Ok (day t, month t)).
    rewrite split_dm_text by done. by rewrite HD, HM. }
  split; [done |].
  unfold check_if_birthday_today. rewrite Hsplit. simpl.
  split; [done |]. by rewrite !Z.eqb_refl.
Qed.

Lemma strftime_dm_reads_back_witness :
  split_day_month (strftime_dm (mkdate 2024 2 29)) = Ok (29, 2)
  /\ (forall ref,
        check_if_birthday_today (mkclock (mkdate 2024 1 1) (mkdate 2024 1 1))
          (strftime_dm (mkdate 2024 2 29)) (Some ref)
        = Ok ((29 =? day ref) && (2 =? month ref)))
  /\ check_if_birthday_today (mkclock (mkdate 2024 1 1) (mkdate 2024 1 1))
       (strftime_dm (mkdate 2024 2 29)) (Some (mkdate 2024 2 29)) = Ok true.
Proof.
  apply (strftime_dm_reads_back (mkclock (mkdate 2024 1 1) (mkdate 2024 1 1))
           (mkdate 2024 2 29)).
  reflexivity.
Defined.

(** *** What [extract_date] hands to the store *)

Lemma search_from_here r s :
  forall prev pos n e g,
    search_from r prev s pos = Some (n, e, g) ->
    exists prev' s', match_here r prev' s' n = Some (e, g).
Proof.
  induction s as [| c s IH]; intros prev pos n e g H; cbn [search_from] in H.
  - destruct (match_here r prev EmptyString pos) as [[e' g'] |] eqn:E; [| done].
    injection H as <- <- <-. eauto.
  - destruct (match_here r prev (String c s) pos) as [[e' g'] |] eqn:E.
    + injection H as <- <- <-. eauto.
    + by apply IH in H.
Qed.

Lemma date_ok_leap y m d : date_ok y m d = true -> valid_day_month d m = true.
Proof.
  intros H. apply date_ok_bounds in H as (_ & Hm & Hd).
  apply date_ok_intro; [done.. |].
  unfold days_in_month in *. change (is_leap 2000) with true.
  month_cases m; simpl in *; try lia. destruct (is_leap y); lia.
Qed.

(** A date text as [extract_date] stores it: two digits, a slash, two
    digits, naming a day and month of the calendar. *)
Definition stored (date : string) (d m : Z) : Prop :=
  exists d1 d2 m1 m2,
    date = dm_text d1 d2 m1 m2
    /\ is_digit d1 = true /\ is_digit d2 = true
    /\ is_digit m1 = true /\ is_digit m2 = true
    /\ d = two_digits d1 d2 /\ m = two_digits m1 m2
    /\ valid_day_month d m = true.

Lemma extract_date_cases message :
  let r := extract_date message in
  match ex_status r with
  | success =>
      exists date d m,
        ex_date r = Some date /\ stored date d m
        /\ match ex_year r with
           | Some y => date_ok y m d = true
           | None => every_year d m = true
           end
  | _ => ex_date r = None /\ ex_year r = None
  end.
Proof.
  unfold extract_date.
  destruct (search year_re message) as [[[n e] g] |] eqn:Hy.
  - apply search_from_here in Hy as (prev & s & Hy).
    rewrite match_here_year in Hy.
    destruct (year_here prev s) as [body |] eqn:Hbody; [| done].
    injection Hy as _ <-.
    apply year_here_Some in Hbody as (suf & _ & HP).
    destruct HP as (d1 & d2 & m1 & m2 & y1 & y2 & y3 & y4 & -> & H).
    destruct H as (H1 & H2 & H3 & H4 & H5 & H6 & H7 & H8 & _).
    change (group 1 [(1%nat, dmy_text d1 d2 m1 m2 y1 y2 y3 y4)])
      with (dmy_text d1 d2 m1 m2 y1 y2 y3 y4).
    rewrite strptime_dmy_text by done.
    destruct (date_ok _ _ _) eqn:Hok; [| done]. cbn.
    exists (dm_text d1 d2 m1 m2), (two_digits d1 d2), (two_digits m1 m2).
    split; [unfold strftime_dm; simpl; by rewrite !pad2_two_digits |].
    split; [| done].
    exists d1, d2, m1, m2. repeat (split; [done |]). by eapply date_ok_leap.
  - destruct (search bare_re message) as [[[n e] g] |] eqn:Hb; [| done].
    apply search_from_here in Hb as (prev & s & Hb).
    rewrite match_here_bare in Hb.
    destruct (bare_here prev s) as [body |] eqn:Hbody; [| done].
    injection Hb as _ <-.
    apply bare_here_Some in Hbody as (suf & _ & HP).
    destruct HP as (d1 & d2 & m1 & m2 & -> & H).
    destruct H as (H1 & H2 & H3 & H4 & _).
    change (group 1 [(1%nat, dm_text d1 d2 m1 m2)]) with (dm_text d1 d2 m1 m2).
    rewrite strptime_dm_text by done.
    destruct (date_ok _ _ _) eqn:Hok; [| done]. cbn.
    exists (dm_text d1 d2 m1 m2), (two_digits d1 d2), (two_digits m1 m2).
    split; [done |]. split; [| done].
    exists d1, d2, m1, m2. repeat (split; [done |]). by eapply date_ok_leap.
Qed.


Lemma two_digits_inj a b c d :
  is_digit a = true -> is_digit b = true ->
  is_digit c = true -> is_digit d = true ->
  two_digits a b = two_digits c d -> a = c /\ b = d.
Proof.
  assert (Hval : forall x y, is_digit x = true -> is_digit y = true ->
                             digit_val x = digit_val y -> x = y).
  { intros x y Hx%is_digit_inv Hy%is_digit_inv.
    repeat (apply elem_of_cons in Hx as [-> | Hx]);
      [.. | by apply elem_of_nil in Hx];
      repeat (apply elem_of_cons in Hy as [-> | Hy]);
      try (by apply elem_of_nil in Hy); intros E; try reflexivity;
      by vm_compute in E. }
  assert (Hrange : forall x, is_digit x = true -> 0 <= digit_val x <= 9).
  { intros x Hx%is_digit_inv.
    repeat (apply elem_of_cons in Hx as [-> | Hx]);
      [.. | by apply elem_of_nil in Hx]; vm_compute; split; discriminate. }
  intros Ha Hb Hc Hd E. unfold two_digits in E.
  pose proof (Hrange a Ha). pose proof (Hrange b Hb).
  pose proof (Hrange c Hc). pose proof (Hrange d Hd).
  split; apply Hval; try done; lia.
Qed.

Lemma leap_day_only d m :
  valid_day_month d m = true -> every_year d m = false -> d = 29 /\ m = 2.
Proof.
  intros Hv He. apply date_ok_bounds in Hv as (_ & Hm & Hd).
  destruct (decide (d = 29 /\ m = 2)) as [| Hne]; [done |].
  unfold every_year in He. rewrite date_ok_intro in He; [done | done | done |].
  unfold days_in_month in *. change (is_leap 2000) with true in Hd.
  change (is_leap 1900) with false.
  month_cases m; simpl in *; lia.
Qed.

Lemma date_to_words_stored date d m yr :
  stored date d m ->
  if every_year d m
  then exists words, date_to_words date yr = Ok words
  else date_to_words date yr = Raise ValueError.
Proof.
  intros (d1 & d2 & m1 & m2 & -> & H1 & H2 & H3 & H4 & -> & -> & Hv).
  unfold date_to_words, every_year. rewrite strptime_dm_text by done.
  destruct (date_ok 1900 _ _); [| done]. cbn [res_bind].
  destruct yr as [y |]; [destruct (truthy_int (Some y)) |]; eauto.
Qed.

Lemma accepted_date_cases message date yr :
  extract_date message = mkextracted success (Some date) yr ->
  exists d m,
    split_day_month date = Ok (d, m)
    /\ valid_day_month d m = true
    /\ (forall clk ref,
          check_if_birthday_today clk date (Some ref)
          = Ok ((d =? day ref) && (m =? month ref)))
    /\ (exists sign, get_star_sign date = Some sign)
    /\ (forall fuel clk ref,
          calculate_days_until_birthday fuel clk date ref <> Some (Raise ValueError))
    /\ (date_to_words date yr = Raise ValueError <-> date = "29/02"%string)
    /\ (date <> "29/02"%string -> exists words, date_to_words date yr = Ok words).
Proof.
  intros Hex. pose proof (extract_date_cases message) as H.
  rewrite Hex in H. cbn in H.
  destruct H as (date' & d & m & [= <-] & Hst & Hyr).
  pose proof (date_to_words_stored date d m yr Hst) as Hwords.
  destruct Hst as (d1 & d2 & m1 & m2 & -> & H1 & H2 & H3 & H4 & -> & -> & Hv).
  set (D := two_digits d1 d2) in *. set (M := two_digits m1 m2) in *.
  assert (Hsplit : split_day_month (dm_text d1 d2 m1 m2) = Ok (D, M))
    by by apply split_dm_text.
  exists D, M. split; [done |]. split; [done |].
  split; [intros; unfold check_if_birthday_today; by rewrite Hsplit |].
  split; [unfold get_star_sign; rewrite Hsplit; eauto |].
  split.
  { intros fuel clk ref. unfold calculate_days_until_birthday. rewrite Hsplit.
    repeat (match goal with
            | |- context [match ?x with _ => _ end] => destruct x
            end; try done). }
  assert (Hleap : dm_text d1 d2 m1 m2 = "29/02"%string <-> D = 29 /\ M = 2).
  { split.
    - by intros [= -> -> -> ->].
    - intros [HD HM].
      destruct (two_digits_inj d1 d2 "2" "9") as [-> ->]; [done.. |].
      by destruct (two_digits_inj m1 m2 "0" "2") as [-> ->]. }
  destruct (every_year D M) eqn:Hev.
  - destruct Hwords as [words Hwords]. split; [| eauto].
    rewrite Hwords, Hleap. split; [done |]. intros [-> ->]. done.
  - split; [| intros Hne; exfalso; apply Hne, Hleap; by apply leap_day_only].
    rewrite Hleap. split; [intros _; by apply leap_day_only | done].
Qed.

(** X6: a date that [extract_date] accepted is read by every function that
    takes a stored date: [split_day_month] gives its day and month, a pair
    of the calendar, so [check_if_birthday_today] and [get_star_sign]
    answer and [calculate_days_until_birthday] does not raise.  Only
    [date_to_words] is stricter: it raises on 29/02, which [extract_date]
    accepts with a leap year, and on no other accepted date. *)
Theorem accepted_date_is_readable message date yr :
  extract_date message = mkextracted success (Some date) yr ->
  exists d m,
    split_day_month date = Ok (d, m)
    /\ valid_day_month d m = true
    /\ (forall clk ref,
          check_if_birthday_today clk date (Some ref)
          = Ok ((d =? day ref) && (m =? month ref)))
    /\ (exists sign, get_star_sign date = Some sign)
    /\ (forall fuel clk ref,
          calculate_days_until_birthday fuel clk date ref <> Some (Raise ValueError))
    /\ (date_to_words date yr = Raise ValueError <-> date = "29/02"%string)
    /\ (date <> "29/02"%string -> exists words, date_to_words date yr = Ok words).
Proof. apply accepted_date_cases. Qed.

Lemma accepted_date_is_readable_witness :
  exists d m,
    split_day_month "29/02" = Ok (d, m)
    /\ valid_day_month d m = true
    /\ (forall clk ref,
          check_if_birthday_today clk "29/02" (Some ref)
          = Ok ((d =? day ref) && (m =? month ref)))
    /\ (exists sign, get_star_sign "29/02" = Some sign)
    /\ (forall fuel clk ref,
          calculate_days_until_birthday fuel clk "29/02" ref
          <> Some (Raise ValueError))
    /\ (date_to_words "29/02" (Some 2000) = Raise ValueError
        <-> "29/02"%string = "29/02"%string)
    /\ ("29/02"%string <> "29/02"%string ->
        exists words, date_to_words "29/02" (Some 2000) = Ok words).
Proof.
  apply (accepted_date_is_readable "born 29/02/2000"). vm_compute. reflexivity.
Defined.

End stored_date_facts.

Module next_birthday_facts.
Import Text date_utils date_facts.

(** *** The day number across years *)

Lemma days_before_year_mono (k : nat) y :
  days_before_year y + 365 * Z.of_nat k <= days_before_year (y + Z.of_nat k).
Proof.
  induction k as [| k IH].
  { rewrite Nat2Z.inj_0, !Z.add_0_r. lia. }
  replace (y + Z.of_nat (S k)) with (y + Z.of_nat k + 1) by lia.
  rewrite days_before_year_succ. destruct (is_leap (y + Z.of_nat k)); lia.
Qed.

(** A date of a later year has a greater day number. *)
Lemma ordinal_lt_years a b :
  valid_datetime a -> valid_datetime b -> year a < year b ->
  ordinal a < ordinal b.
Proof.
  intros Ha Hb Hlt. apply day_of_year_bounds in Ha, Hb. unfold ordinal.
  pose proof (days_before_year_mono (Z.to_nat (year b - (year a + 1))) (year a + 1))
    as Hmono.
  rewrite Z2Nat.id in Hmono by lia.
  replace (year a + 1 + (year b - (year a + 1))) with (year b) in Hmono by lia.
  rewrite days_before_year_succ in Hmono.
  destruct (is_leap (year a)); lia.
Qed.

(** A date with this day and month. *)
Definition occurrence (d m : Z) (t : datetime) : Prop :=
  valid_datetime t /\ day t = d /\ month t = m.

(** [target] is the first occurrence of the day and month on or after
    the reference date. *)
Definition next_occurrence (d m : Z) (ref target : datetime) : Prop :=
  occurrence d m target
  /\ ordinal ref <= ordinal target
  /\ forall t, occurrence d m t -> ordinal ref <= ordinal t ->
       ordinal target <= ordinal t.

Lemma occurrence_same_year d m a b :
  occurrence d m a -> occurrence d m b -> year a = year b -> a = b.
Proof.
  destruct a, b. intros (_ & ? & ?) (_ & ? & ?) ?. simpl in *. congruence.
Qed.

(** The first occurrence in a year after that of the reference date is the
    next one when the year of the reference date has none left. *)
Lemma next_occurrence_later d m ref target :
  valid_datetime ref ->
  occurrence d m target -> year ref < year target ->
  (forall t, occurrence d m t -> year t = year ref -> ordinal t < ordinal ref) ->
  (forall t, occurrence d m t -> year ref < year t -> year target <= year t) ->
  next_occurrence d m ref target.
Proof.
  intros Href Htarget Hlater Hthis Hfirst.
  split; [done |]. split.
  { apply Z.lt_le_incl, ordinal_lt_years; [done | apply Htarget | done]. }
  intros t Ht Hge.
  destruct (Z.lt_trichotomy (year t) (year ref)) as [Hlt | [Heq | Hgt]].
  - pose proof (ordinal_lt_years t ref (proj1 Ht) Href Hlt). lia.
  - pose proof (Hthis t Ht Heq). lia.
  - specialize (Hfirst t Ht Hgt).
    destruct (decide (year target = year t)) as [Heq | Hne].
    + by rewrite (occurrence_same_year d m target t).
    + apply Z.lt_le_incl, ordinal_lt_years; [apply Htarget | apply Ht | lia].
Qed.

(** An occurrence in the year of the reference date, not before it, is the
    next one. *)
Lemma next_occurrence_this_year d m ref target :
  valid_datetime ref ->
  occurrence d m target -> year target = year ref ->
  ordinal ref <= ordinal target ->
  next_occurrence d m ref target.
Proof.
  intros Href Htarget Hyear Hle. split; [done |]. split; [done |].
  intros t Ht Hge.
  destruct (Z.lt_trichotomy (year t) (year ref)) as [Hlt | [Heq | Hgt]].
  - pose proof (ordinal_lt_years t ref (proj1 Ht) Href Hlt). lia.
  - rewrite (occurrence_same_year d m target t); [lia | done | done | congruence].
  - apply Z.lt_le_incl, ordinal_lt_years; [apply Htarget | apply Ht | lia].
Qed.

Lemma dt_lt_ordinal y m d ref :
  date_ok y m d = true -> valid_datetime ref -> year ref = y ->
  dt_lt (mkdate y m d) ref = true <-> ordinal (mkdate y m d) < ordinal ref.
Proof.
  intros Hok Href Hy. destruct ref as [ry rm rd]. simpl in Hy. subst ry.
  destruct (ordinal_same_year y m d rm rd Hok Href) as (_ & Hlt & _).
  unfold days_between in Hlt. rewrite Hlt. lia.
Qed.

(** X7: for a day and month that every year has,
    [calculate_days_until_birthday] returns the distance in days from the
    reference date to the first date with that day and month that is not
    before it. *)
Theorem days_until_next_occurrence fuel clk date_str d m ref :
  split_day_month date_str = Ok (d, m) ->
  every_year d m = true ->
  valid_datetime ref -> year ref < MAXYEAR ->
  exists target,
    next_occurrence d m ref target
    /\ calculate_days_until_birthday fuel clk date_str (Some ref)
       = Some (Ok (ordinal target - ordinal ref)).
Proof.
  intros Hsplit Hevery Href Hyear.
  pose proof (date_ok_bounds _ _ _ Href) as (Hy & _ & _).
  assert (Hthis : date_ok (year ref) m d = true)
    by (apply every_year_ok; [done | lia]).
  assert (Hnext : date_ok (year ref + 1) m d = true)
    by (apply every_year_ok; [done | unfold MINYEAR, MAXYEAR in *; lia]).
  unfold calculate_days_until_birthday. rewrite Hsplit. simpl.
  unfold new_datetime. rewrite Hthis.
  destruct (dt_lt (mkdate (year ref) m d) ref) eqn:Hlt.
  - rewrite Hnext. exists (mkdate (year ref + 1) m d). split; [| done].
    apply next_occurrence_later; [done | done | simpl; lia | |].
    + intros t Ht Heq.
      assert (t = mkdate (year ref) m d) as ->
        by by apply (occurrence_same_year d m).
      by apply dt_lt_ordinal.
    + intros t Ht Hgt. simpl. lia.
  - exists (mkdate (year ref) m d). split; [| done].
    apply next_occurrence_this_year; [done | done | done |].
    destruct (Z.lt_ge_cases (ordinal (mkdate (year ref) m d)) (ordinal ref))
      as [Hbefore | Hge]; [| lia].
    apply dt_lt_ordinal in Hbefore; [congruence | done..].
Qed.

Lemma days_until_next_occurrence_witness :
  exists target,
    next_occurrence 25 12 (mkdate 2024 12 26) target
    /\ calculate_days_until_birthday 0 (mkclock (mkdate 2024 1 1) (mkdate 2024 1 1))
         "25/12" (Some (mkdate 2024 12 26))
       = Some (Ok (ordinal target - ordinal (mkdate 2024 12 26))).
Proof.
  apply (days_until_next_occurrence 0 _ "25/12" 25 12 (mkdate 2024 12 26));
    [reflexivity | reflexivity | reflexivity | reflexivity].
Defined.

(** The roll forward: from the year after the reference date to the first
    leap year. *)
Lemma leap_day_roll_forward fuel ref :
  valid_datetime ref -> year ref + 8 <= MAXYEAR -> (8 <= fuel)%nat ->
  (forall t, occurrence 29 2 t -> year t = year ref -> ordinal t < ordinal ref) ->
  exists target,
    next_occurrence 29 2 ref target
    /\ next_valid_year fuel (year ref + 1) 2 29 = Some target.
Proof.
  intros Href Hroom Hfuel Hthis.
  pose proof (date_ok_bounds _ _ _ Href) as (Hy & _ & _). unfold MINYEAR in Hy.
  destruct (leap_within_8 (year ref + 1)) as (k & Hk & Hleap & Hnone).
  exists (mkdate (year ref + 1 + k) 2 29).
  assert (Hok : date_ok (year ref + 1 + k) 2 29 = true).
  { rewrite feb29_ok, Hleap. simpl.
    apply andb_true_intro. split; [apply Z.leb_le | apply Z.leb_le]; lia. }
  split.
  - apply next_occurrence_later; [done | done | simpl; lia | done |].
    intros t (Ht & Hd & Hm) Hgt. simpl.
    destruct (Z.lt_ge_cases (year t) (year ref + 1 + k)) as [Hlt | Hge]; [| lia].
    unfold valid_datetime in Ht. rewrite Hd, Hm, feb29_ok in Ht.
    apply andb_prop in Ht as [[Ht _]%andb_prop _].
    specialize (Hnone (year t - (year ref + 1))).
    replace (year ref + 1 + (year t - (year ref + 1))) with (year t) in Hnone by lia.
    rewrite Hnone in Ht; [done | lia].
  - rewrite <- (Z2Nat.id k) by lia.
    apply next_valid_year_feb29; rewrite ?Z2Nat.id by lia; try done; lia.
Qed.

(** X8: for 29 February [calculate_days_until_birthday] returns the
    distance to the next 29 February as well, through the loop that rolls
    forward year by year, given eight rounds and eight years of calendar. *)
Theorem leap_day_next_occurrence fuel clk date_str ref :
  split_day_month date_str = Ok (29, 2) ->
  valid_datetime ref -> year ref + 8 <= MAXYEAR -> (8 <= fuel)%nat ->
  exists target,
    next_occurrence 29 2 ref target
    /\ calculate_days_until_birthday fuel clk date_str (Some ref)
       = Some (Ok (ordinal target - ordinal ref)).
Proof.
  intros Hsplit Href Hroom Hfuel.
  unfold calculate_days_until_birthday. rewrite Hsplit. simpl.
  unfold new_datetime.
  destruct (date_ok (year ref) 2 29) eqn:Hthis.
  - destruct (dt_lt (mkdate (year ref) 2 29) ref) eqn:Hlt.
    + assert (Hnext : date_ok (year ref + 1) 2 29 = false).
      { rewrite feb29_ok in Hthis |- *.
        apply andb_prop in Hthis as [[Hleap _]%andb_prop _].
        apply is_leap_spec in Hleap as [H4 _].
        assert (is_leap (year ref + 1) = false) as ->; [| done].
        unfold is_leap.
        assert ((year ref + 1) mod 4 = 1) as -> by (Z.div_mod_to_equations; lia).
        done. }
      rewrite Hnext.
      destruct (leap_day_roll_forward fuel ref) as (target & Hnextocc & ->);
        [done.. | | by exists target].
      intros t Ht Heq.
      assert (t = mkdate (year ref) 2 29) as ->
        by by apply (occurrence_same_year 29 2).
      by apply dt_lt_ordinal.
    + exists (mkdate (year ref) 2 29). split; [| done].
      apply next_occurrence_this_year; [done | done | done |].
      destruct (Z.lt_ge_cases (ordinal (mkdate (year ref) 2 29)) (ordinal ref))
        as [Hbefore | Hge]; [| lia].
      apply dt_lt_ordinal in Hbefore; [congruence | done..].
  - destruct (leap_day_roll_forward fuel ref) as (target & Hnextocc & ->);
      [done.. | | by exists target].
    intros t (Ht & Hd & Hm) Heq. unfold valid_datetime in Ht.
    rewrite Hd, Hm, Heq in Ht. congruence.
Qed.

Lemma leap_day_next_occurrence_witness :
  exists target,
    next_occurrence 29 2 (mkdate 2097 3 1) target
    /\ calculate_days_until_birthday 8 (mkclock (mkdate 2097 3 1) (mkdate 2097 3 1))
         "29/02" (Some (mkdate 2097 3 1))
       = Some (Ok (ordinal target - ordinal (mkdate 2097 3 1))).
Proof.
  apply (leap_day_next_occurrence 8 _ "29/02" (mkdate 2097 3 1));
    [reflexivity | reflexivity | vm_compute; discriminate | lia].
Defined.

End next_birthday_facts.

Module age_and_sign_facts.
Import Text date_utils date_facts.

(** X9: [calculate_age] follows the clock: between two readings of the
    clock, the second later than the first, the age does not fall; and it
    is the difference of the years or one less. *)
Theorem calculate_age_monotone clk clk' birth_year birth_date :
  dt_lt (now clk) (now clk') = true ->
  calculate_age clk birth_year birth_date <= calculate_age clk' birth_year birth_date
  /\ year (now clk) - birth_year - 1 <= calculate_age clk birth_year birth_date
     <= year (now clk) - birth_year.
Proof.
  intros Hlt. unfold calculate_age, dt_lt in *.
  destruct (now clk) as [y m d], (now clk') as [y' m' d']. simpl in *.
  destruct birth_date as [[| c bd] |]; [| | ].
  1, 3: repeat (match goal with
                | H : context [ (?a <? ?b) ] |- _ => destruct (Z.ltb_spec a b)
                | H : context [ (?a =? ?b) ] |- _ => destruct (Z.eqb_spec a b)
                end; simpl in Hlt); try discriminate; lia.
  destruct (split_day_month (String c bd)) as [[bday bmonth] | []].
  - repeat (match goal with
            | H : context [ (?a <? ?b) ] |- _ => destruct (Z.ltb_spec a b)
            | H : context [ (?a =? ?b) ] |- _ => destruct (Z.eqb_spec a b)
            | |- context [ (?a <? ?b) ] => destruct (Z.ltb_spec a b)
            | |- context [ (?a =? ?b) ] => destruct (Z.eqb_spec a b)
            end; simpl in * ); try discriminate; lia.
  - repeat (match goal with
            | H : context [ (?a <? ?b) ] |- _ => destruct (Z.ltb_spec a b)
            | H : context [ (?a =? ?b) ] |- _ => destruct (Z.eqb_spec a b)
            end; simpl in Hlt); try discriminate; lia.
Qed.

Lemma calculate_age_monotone_witness :
  calculate_age (mkclock (mkdate 2024 6 1) (mkdate 2024 6 1)) 1990 (Some "15/06"%string)
  <= calculate_age (mkclock (mkdate 2024 6 15) (mkdate 2024 6 1)) 1990
       (Some "15/06"%string)
  /\ 2024 - 1990 - 1
     <= calculate_age (mkclock (mkdate 2024 6 1) (mkdate 2024 6 1)) 1990
          (Some "15/06"%string)
     <= 2024 - 1990.
Proof.
  apply (calculate_age_monotone (mkclock (mkdate 2024 6 1) (mkdate 2024 6 1))
           (mkclock (mkdate 2024 6 15) (mkdate 2024 6 1)) 1990 (Some "15/06"%string)).
  reflexivity.
Defined.

(** The twelve signs. *)
Definition signs : list string :=
  ["Aquarius"; "Pisces"; "Aries"; "Taurus"; "Gemini"; "Cancer"; "Leo"; "Virgo";
   "Libra"; "Scorpio"; "Sagittarius"; "Capricorn"].

(** The first day of each sign, as a date of a leap year. *)
Definition sign_starts : list (datetime * string) :=
  [(mkdate 2000 1 20, "Aquarius"); (mkdate 2000 2 19, "Pisces");
   (mkdate 2000 3 21, "Aries"); (mkdate 2000 4 20, "Taurus");
   (mkdate 2000 5 21, "Gemini"); (mkdate 2000 6 21, "Cancer");
   (mkdate 2000 7 23, "Leo"); (mkdate 2000 8 23, "Virgo");
   (mkdate 2000 9 23, "Libra"); (mkdate 2000 10 23, "Scorpio");
   (mkdate 2000 11 22, "Sagittarius"); (mkdate 2000 12 22, "Capricorn")].

(** The sign of the last start that is not after the date; before the
    first start of the year it is the sign that started in December. *)
Definition sign_in_force (t : datetime) : string :=
  foldl (fun sign start => if dt_lt t start.1 then sign else start.2)
    "Capricorn" sign_starts.

Lemma get_star_sign_range date_str :
  match split_day_month date_str with
  | Ok _ => exists sign, get_star_sign date_str = Some sign /\ sign ∈ signs
  | Raise _ => get_star_sign date_str = None
  end.
Proof.
  unfold get_star_sign. destruct (split_day_month date_str) as [[d m] |]; [| done].
  eexists. split; [reflexivity |].
  repeat (match goal with
          | |- context [if ?b then _ else _] => destruct b
          end); unfold signs; set_solver.
Qed.

(** X10: [get_star_sign] answers with one of the twelve signs whenever the
    text reads as a day and a month, and with nothing otherwise.  On a day
    and month of the calendar the sign is the one in force: that of the last
    of the twelve starting days not after the date.  So the date ranges of
    the code leave no day of the year out and give no day two signs. *)
Theorem get_star_sign_in_force date_str :
  match split_day_month date_str with
  | Ok (d, m) =>
      exists sign,
        get_star_sign date_str = Some sign /\ sign ∈ signs
        /\ (valid_day_month d m = true -> sign = sign_in_force (mkdate 2000 m d))
  | Raise _ => get_star_sign date_str = None
  end.
Proof.
  pose proof (get_star_sign_range date_str) as Hrange.
  destruct (split_day_month date_str) as [[d m] |] eqn:Hsplit; [| done].
  destruct Hrange as (sign & Hsign & Hin).
  exists sign. split; [done |]. split; [done |]. intros Hvalid.
  unfold get_star_sign in Hsign. rewrite Hsplit in Hsign.
  injection Hsign as <-.
  apply date_ok_bounds in Hvalid as (_ & Hm & Hd).
  unfold sign_in_force, sign_starts, dt_lt. cbn [foldl fst snd year month day].
  month_cases m; cbn -[Z.leb Z.ltb] in Hd |- *;
    repeat (match goal with
            | |- context [ (?a <=? ?b) ] => destruct (Z.leb_spec a b)
            | |- context [ (?a <? ?b) ] => destruct (Z.ltb_spec a b)
            end; cbn -[Z.leb Z.ltb]); try reflexivity; lia.
Qed.

End age_and_sign_facts.

Module ledger_facts.
Import Text date_utils storage announcement birthday text_facts scheduler_facts.

(** *** Rotation, whatever fails *)

Lemma remove_old_safe e names :
  forall w name,
    let w' := remove_old e (announced_file e) names w in
    files w' !! name = files w !! name
    \/ (stale e name = true /\ is_Some (files w !! name)
        /\ files w' !! name = None).
Proof.
  induction names as [| filename rest IH]; intros w name; [by left |].
  cbn [remove_old]. fold (stale e filename).
  destruct (stale e filename) eqn:Hstale; [| apply IH].
  destruct (fs_fails e (op_remove filename)); [by left |].
  destruct (IH (mkworld (delete filename (files w)) (posted w) (trace w)) name)
    as [Heq | (Hs & Hsome & Hnone)]; cbn [files] in *.
  - destruct (decide (filename = name)) as [-> | Hne].
    + rewrite lookup_delete_eq in Heq.
      destruct (files w !! name) eqn:E; [right; eauto | left; congruence].
    + rewrite lookup_delete_ne in Heq by done. by left.
  - right. split; [done |]. split; [| done].
    destruct (decide (filename = name)) as [-> | Hne].
    + rewrite lookup_delete_eq in Hsome. by destruct Hsome.
    + by rewrite lookup_delete_ne in Hsome.
Qed.

Lemma remove_old_posted e keep names :
  forall w, posted (remove_old e keep names w) = posted w.
Proof.
  induction names as [| filename rest IH]; intros w; [done |].
  cbn [remove_old].
  destruct (starts_with "announced_" filename && negb (String.eqb filename keep));
    [| apply IH].
  destruct (fs_fails e (op_remove filename)); [done |]. by rewrite IH.
Qed.

Lemma cleanup_safe e w name :
  files (cleanup_old_announcement_files e w) !! name = files w !! name
  \/ (stale e name = true /\ is_Some (files w !! name)
      /\ files (cleanup_old_announcement_files e w) !! name = None).
Proof.
  unfold cleanup_old_announcement_files.
  destruct (fs_fails e op_listdir); [by left | apply remove_old_safe].
Qed.

Lemma cleanup_posted e w : posted (cleanup_old_announcement_files e w) = posted w.
Proof.
  unfold cleanup_old_announcement_files.
  destruct (fs_fails e op_listdir); [done | apply remove_old_posted].
Qed.

Lemma cleanup_announced e w :
  get_announced_birthdays_today e (cleanup_old_announcement_files e w)
  = get_announced_birthdays_today e w.
Proof.
  unfold get_announced_birthdays_today.
  destruct (cleanup_safe e w (announced_file e)) as [-> | (Hs & _)]; [done |].
  by rewrite stale_today in Hs.
Qed.

(** X11: whatever operation of the file system fails,
    [cleanup_old_announcement_files] changes nothing but marker files of
    other days: a file it changes is one of those and is removed; the
    marker file of today, every other file, the messages posted and the
    trace stay as they are. *)
Theorem cleanup_touches_stale_only e w name :
  let w' := cleanup_old_announcement_files e w in
  posted w' = posted w /\ trace w' = trace w
  /\ (files w' !! name = files w !! name
      \/ (starts_with "announced_" name = true /\ name <> announced_file e
          /\ is_Some (files w !! name) /\ files w' !! name = None))
  /\ get_announced_birthdays_today e w' = get_announced_birthdays_today e w.
Proof.
  cbv zeta. split; [apply cleanup_posted |].
  split; [apply cleanup_trace |]. split; [| apply cleanup_announced].
  destruct (cleanup_safe e w name) as [Heq | (Hs & Hsome & Hnone)]; [by left | right].
  unfold stale in Hs. apply andb_prop in Hs as [Hs1 Hs2].
  split; [done |]. split; [| done].
  intros ->. by rewrite String.eqb_refl in Hs2.
Qed.

Lemma world_eq (w1 w2 : world) :
  files w1 = files w2 -> posted w1 = posted w2 -> trace w1 = trace w2 -> w1 = w2.
Proof. destruct w1, w2. simpl. by intros -> -> ->. Qed.

(** X12: when the rotation completes, running it again changes nothing. *)
Theorem cleanup_idempotent e w :
  rotation_completes e ->
  cleanup_old_announcement_files e (cleanup_old_announcement_files e w)
  = cleanup_old_announcement_files e w.
Proof.
  intros Hrot.
  destruct (cleanup_spec e w Hrot) as (_ & _ & Hfiles).
  destruct (cleanup_spec e (cleanup_old_announcement_files e w) Hrot)
    as (Hposted' & Htrace' & Hfiles').
  apply world_eq; [| done | done].
  apply map_eq. intros name. rewrite Hfiles', Hfiles.
  by destruct (stale e name).
Qed.

Lemma cleanup_idempotent_witness :
  cleanup_old_announcement_files accepting_env
    (cleanup_old_announcement_files accepting_env stale_world)
  = cleanup_old_announcement_files accepting_env stale_world.
Proof. apply cleanup_idempotent. split; reflexivity. Defined.

(** *** One run of the scheduler, whatever fails *)


(** The messages of a trace that the platform accepted. *)
Definition accepted (tr : list event) : list (string * string) :=
  omap (fun ev => match ev with
                  | Delivered _ channel text true => Some (channel, text)
                  | _ => None
                  end) tr.





End ledger_facts.

(** ** Text written and read back *)

Module codec_facts.
Import Text text_facts template_facts extract_date_facts.

(** *** [int] of [str] *)

(** The value of a numeral, most significant digit first, after [acc]. *)
Fixpoint uint_val (acc : Z) (u : Decimal.uint) : Z :=
  match u with
  | Decimal.Nil => acc
  | Decimal.D0 l => uint_val (10 * acc + 0) l
  | Decimal.D1 l => uint_val (10 * acc + 1) l
  | Decimal.D2 l => uint_val (10 * acc + 2) l
  | Decimal.D3 l => uint_val (10 * acc + 3) l
  | Decimal.D4 l => uint_val (10 * acc + 4) l
  | Decimal.D5 l => uint_val (10 * acc + 5) l
  | Decimal.D6 l => uint_val (10 * acc + 6) l
  | Decimal.D7 l => uint_val (10 * acc + 7) l
  | Decimal.D8 l => uint_val (10 * acc + 8) l
  | Decimal.D9 l => uint_val (10 * acc + 9) l
  end.

Lemma digits_val_numeral u :
  forall acc after_digit,
    u <> Decimal.Nil \/ after_digit = true ->
    digits_val acc after_digit (DecimalString.NilEmpty.string_of_uint u)
    = Some (uint_val acc u).
Proof.
  induction u; intros acc after_digit H;
    [destruct H as [H | ->]; done | ..];
    cbn [DecimalString.NilEmpty.string_of_uint digits_val uint_val];
    change (is_digit _) with true; cbn match;
    (rewrite IHu by (by right)); reflexivity.
Qed.

Lemma uint_val_acc u :
  forall acc : positive, uint_val (Z.pos acc) u = Z.pos (Pos.of_uint_acc u acc).
Proof.
  induction u; intros acc; cbn [uint_val Pos.of_uint_acc]; [done | ..];
    rewrite <- IHu; f_equal; lia.
Qed.

Lemma uint_val_0 u : uint_val 0 u = Z.of_N (Pos.of_uint u).
Proof.
  induction u; cbn [uint_val Pos.of_uint Z.of_N]; [done | done | ..];
    rewrite <- uint_val_acc; reflexivity.
Qed.

(** No character of a text is white space. *)
Fixpoint dense (s : string) : bool :=
  match s with
  | EmptyString => true
  | String c s' => negb (is_space c) && dense s'
  end.

Lemma dense_rstrip s : dense s = true -> rstrip s = s.
Proof.
  induction s as [| c s IH]; [done |]. intros [Hc Hs]%andb_prop.
  cbn [rstrip]. rewrite (IH Hs). destruct s; [| done].
  by destruct (is_space c).
Qed.

Lemma dense_strip s : dense s = true -> strip s = s.
Proof.
  intros H. unfold strip.
  assert (lstrip s = s) as ->; [| by apply dense_rstrip].
  destruct s as [| c s]; [done |]. apply andb_prop in H as [Hc _].
  cbn [lstrip]. by destruct (is_space c).
Qed.

Lemma numeral_dense u : dense (DecimalString.NilEmpty.string_of_uint u) = true.
Proof. induction u; [done | ..]; cbn; exact IHu. Qed.

Lemma numeral_head u :
  u <> Decimal.Nil ->
  exists c s, DecimalString.NilEmpty.string_of_uint u = String c s
              /\ is_digit c = true.
Proof. destruct u; [done | ..]; intros _; cbn; eauto. Qed.

Lemma int_of_numeral p :
  int_of_str (DecimalString.NilEmpty.string_of_uint (Pos.to_uint p)) = Some (Z.pos p).
Proof.
  pose proof (DecimalPos.Unsigned.to_uint_nonnil p) as Hnil.
  unfold int_of_str. rewrite dense_strip by apply numeral_dense.
  assert (digits_val 0 false (DecimalString.NilEmpty.string_of_uint (Pos.to_uint p))
          = Some (Z.pos p)) as Hval.
  { rewrite digits_val_numeral by (by left).
    by rewrite uint_val_0, DecimalPos.Unsigned.of_to. }
  destruct (numeral_head _ Hnil) as (c & s & Hs & Hc). rewrite Hs in *.
  apply is_digit_inv in Hc.
  repeat (apply elem_of_cons in Hc as [-> | Hc]);
    [.. | by apply elem_of_nil in Hc]; exact Hval.
Qed.

Lemma numeral_of_pos p :
  DecimalString.NilZero.string_of_uint (Pos.to_uint p)
  = DecimalString.NilEmpty.string_of_uint (Pos.to_uint p).
Proof.
  pose proof (DecimalPos.Unsigned.to_uint_nonnil p) as Hnil.
  by destruct (Pos.to_uint p).
Qed.

(** [int(str(n)) == n] *)
Lemma int_of_str_of_Z n : int_of_str (str_of_Z n) = Some n.
Proof.
  unfold str_of_Z. destruct n as [| p | p]; [done | ..];
    cbn [Z.to_int DecimalString.NilZero.string_of_int]; rewrite numeral_of_pos.
  - apply int_of_numeral.
  - unfold int_of_str.
    rewrite dense_strip by (cbn [dense]; apply numeral_dense).
    rewrite digits_val_numeral
      by (left; apply DecimalPos.Unsigned.to_uint_nonnil).
    by rewrite uint_val_0, DecimalPos.Unsigned.of_to.
Qed.

Lemma str_of_Z_dense n : dense (str_of_Z n) = true.
Proof.
  unfold str_of_Z. destruct n as [| p | p]; [done | ..];
    cbn [Z.to_int DecimalString.NilZero.string_of_int]; rewrite numeral_of_pos;
    [| cbn [dense negb andb]]; apply numeral_dense.
Qed.

End codec_facts.

(** ** BirthdayStore *)

Module store_facts.
Import Text date_utils birthday birthday_store.
Import text_facts template_facts codec_facts.

(** *** Fields and lines *)

(** The character [c] does not occur in [s]. *)
Fixpoint lacks (c : ascii) (s : string) : bool :=
  match s with
  | EmptyString => true
  | String a s' => (if ascii_dec a c then false else true) && lacks c s'
  end.

(** A text that can stand between the commas of a line. *)
Definition field (s : string) : bool := lacks "," s && lacks nl s && lacks cr s.

Definition head_solid (s : string) : bool :=
  match s with
  | String c _ => negb (is_space c)
  | EmptyString => true
  end.

Definition tail_solid (s : string) : bool :=
  match s with
  | EmptyString => true
  | String _ _ => ends_solid s
  end.

(** An entry that [save_birthdays] writes in a way [load_birthdays] reads
    back: user id and date hold no comma and no line end, white space
    stands neither at the start of the user id nor at the end of the line,
    and the year is not [0] (which is written as no year). *)
Definition storable_entry (e : string * birthday_data) : bool :=
  field e.1 && head_solid e.1 && field (bd_date e.2)
  && match bd_year e.2 with
     | Some y => negb (y =? 0)
     | None => tail_solid (bd_date e.2)
     end.

Definition storable (b : dict) : bool :=
  bool_decide (NoDup b.*1) && forallb storable_entry b.

Lemma lacks_append c a b : lacks c (a +:+ b) = lacks c a && lacks c b.
Proof.
  induction a as [| x a IH]; [done |].
  rewrite append_cons. cbn [lacks]. rewrite IH. by destruct (ascii_dec x c).
Qed.

Lemma split_lacks c s : lacks c s = true -> split c s = [s].
Proof.
  induction s as [| x s IH]; [done |]. cbn [lacks split].
  destruct (ascii_dec x c); [done |]. intros H. by rewrite IH.
Qed.

Lemma split_field c a b :
  lacks c a = true -> split c (a +:+ String c b) = a :: split c b.
Proof.
  induction a as [| x a IH]; intros H.
  - change (EmptyString +:+ String c b) with (String c b). cbn [split].
    by destruct (ascii_dec c c).
  - rewrite append_cons. cbn [lacks split] in *.
    destruct (ascii_dec x c); [done |]. by rewrite IH.
Qed.

Lemma readlines_line l rest :
  lacks nl l = true -> lacks cr l = true ->
  readlines false (l +:+ String nl rest) = l :: readlines false rest.
Proof.
  induction l as [| x l IH]; intros Hnl Hcr.
  - change (EmptyString +:+ String nl rest) with (String nl rest).
    cbn [readlines]. by destruct (ascii_dec nl nl).
  - rewrite append_cons. cbn [lacks readlines] in *.
    destruct (ascii_dec x nl); [done |]. destruct (ascii_dec x cr); [done |].
    by rewrite IH.
Qed.

Lemma ends_solid_rstrip s : ends_solid s = true -> rstrip s = s.
Proof.
  induction s as [| c s IH]; [done |]. intros H. cbn [rstrip].
  destruct s as [| b s].
  - cbn in *. by destruct (is_space c).
  - rewrite IH by done. done.
Qed.

Lemma rstrip_append a b : ends_solid b = true -> rstrip (a +:+ b) = a +:+ b.
Proof.
  intros Hb. induction a as [| c a IH]; [by apply ends_solid_rstrip |].
  rewrite append_cons, rstrip_cons; rewrite IH; [done |].
  destruct a, b; done.
Qed.

Lemma head_solid_lstrip s : head_solid s = true -> lstrip s = s.
Proof. destruct s as [| c s]; [done |]. cbn. by destruct (is_space c). Qed.

Lemma dense_ends_solid s : dense s = true -> s <> EmptyString -> ends_solid s = true.
Proof.
  induction s as [| c s IH]; [done |]. intros [Hc Hs]%andb_prop _.
  destruct s; [done |]. by apply IH.
Qed.

Lemma str_of_Z_nonempty n : str_of_Z n <> EmptyString.
Proof.
  intros E. pose proof (int_of_str_of_Z n) as H. by rewrite E in H.
Qed.

Lemma numeral_lacks c u :
  is_digit c = false -> lacks c (DecimalString.NilEmpty.string_of_uint u) = true.
Proof.
  intros Hc. induction u; [done | ..];
    cbn [DecimalString.NilEmpty.string_of_uint lacks];
    (match goal with
     | |- context [ascii_dec ?a c] => destruct (ascii_dec a c) as [<- |]
     end; [done | exact IHu]).
Qed.

Lemma str_of_Z_lacks c n :
  is_digit c = false -> c <> "-"%char -> lacks c (str_of_Z n) = true.
Proof.
  intros Hc Hminus. unfold str_of_Z. destruct n as [| p | p].
  - change (lacks c "0" = true). cbn [lacks].
    by destruct (ascii_dec "0" c) as [<- |].
  - cbn [Z.to_int DecimalString.NilZero.string_of_int]. rewrite numeral_of_pos.
    by apply numeral_lacks.
  - cbn [Z.to_int DecimalString.NilZero.string_of_int]. rewrite numeral_of_pos.
    cbn [lacks]. destruct (ascii_dec "-" c) as [<- |]; [done |].
    by apply numeral_lacks.
Qed.

(** *** One line, written and read *)

(** The line of an entry without its line end. *)
Definition line_of (e : string * birthday_data) : string :=
  e.1 +:+ "," +:+ bd_date e.2
  +:+ match bd_year e.2 with
      | Some y => if truthy_int (bd_year e.2) then "," +:+ str_of_Z y else EmptyString
      | None => EmptyString
      end.

Lemma save_line_eq e rest :
  save_line e.1 e.2 +:+ rest = line_of e +:+ String nl rest.
Proof.
  unfold save_line, line_of. by rewrite !append_assoc.
Qed.

Lemma append_empty_r s : s +:+ EmptyString = s.
Proof. induction s as [| c s IH]; [done |]. by rewrite append_cons, IH. Qed.

Ltac split_andb :=
  repeat match goal with
         | H : _ && _ = true |- _ => apply andb_prop in H as [? ?]
         end.

Lemma line_of_clean e :
  storable_entry e = true ->
  lacks nl (line_of e) = true /\ lacks cr (line_of e) = true
  /\ strip (line_of e) = line_of e.
Proof.
  destruct e as [u [date year]]. unfold storable_entry, line_of, field.
  cbn [fst snd bd_date bd_year]. intros H. split_andb.
  assert (Hhead : lstrip (u +:+ "," +:+ date
                          +:+ match year with
                              | Some y => if truthy_int year then "," +:+ str_of_Z y
                                          else EmptyString
                              | None => EmptyString
                              end)
                  = u +:+ "," +:+ date
                    +:+ match year with
                        | Some y => if truthy_int year then "," +:+ str_of_Z y
                                    else EmptyString
                        | None => EmptyString
                        end).
  { apply head_solid_lstrip. destruct u; done. }
  unfold strip. rewrite Hhead. clear Hhead.
  destruct year as [y |].
  - cbn [truthy_int]. destruct (y =? 0) eqn:Hy; [done |]. cbn [negb].
    rewrite !lacks_append.
    rewrite !(str_of_Z_lacks _ y) by done.
    repeat (split; [by repeat (apply andb_true_intro; split) |]).
    rewrite <- !append_assoc. apply rstrip_append.
    apply dense_ends_solid; [apply str_of_Z_dense | apply str_of_Z_nonempty].
  - rewrite !lacks_append, append_empty_r.
    repeat (split; [by repeat (apply andb_true_intro; split) |]).
    destruct date as [| c date].
    + by apply rstrip_append.
    + rewrite <- append_assoc. by apply rstrip_append.
Qed.

Lemma load_line_of acc e :
  storable_entry e = true -> load_line acc (line_of e) = dict_set e.1 e.2 acc.
Proof.
  intros He. destruct (line_of_clean e He) as (_ & _ & Hstrip).
  unfold load_line. rewrite Hstrip. clear Hstrip.
  destruct e as [u [date year]]. unfold storable_entry, line_of, field in *.
  cbn [fst snd bd_date bd_year] in *. split_andb.
  change ("," +:+ ?r) with (String "," r).
  rewrite split_field by done.
  destruct year as [y |].
  - cbn [truthy_int] in *. destruct (y =? 0) eqn:Hy; [done |]. cbn [negb].
    change ("," +:+ ?r) with (String "," r).
    rewrite split_field by done.
    rewrite split_lacks by (by apply str_of_Z_lacks).
    rewrite dense_strip by apply str_of_Z_dense.
    rewrite int_of_str_of_Z.
    pose proof (str_of_Z_nonempty y). by destruct (str_of_Z y).
  - rewrite append_empty_r, split_lacks by done. done.
Qed.

(** *** The dictionary *)

Lemma dict_set_keys k v (d : dict) :
  (dict_set k v d).*1 = if dict_mem k d then d.*1 else d.*1 ++ [k].
Proof.
  induction d as [| [k' v'] d IH]; [done |].
  cbn [dict_set dict_mem existsb fst]. destruct (String.eqb_spec k k').
  - done.
  - cbn [orb fmap list_fmap fst]. fold (dict_mem k d).
    change ((k', v') :: dict_set k v d).*1 with (k' :: (dict_set k v d).*1).
    rewrite IH. by destruct (dict_mem k d).
Qed.

Lemma dict_mem_spec k (d : dict) : dict_mem k d = true <-> k ∈ d.*1.
Proof.
  induction d as [| [k' v'] d IH]; [by rewrite elem_of_nil |].
  cbn [dict_mem existsb fst]. fold (dict_mem k d).
  rewrite orb_true_iff, IH. change (((k', v') :: d).*1) with (k' :: d.*1).
  rewrite elem_of_cons.
  destruct (String.eqb_spec k k'); intuition congruence.
Qed.

Lemma dict_set_NoDup k v (d : dict) : NoDup d.*1 -> NoDup (dict_set k v d).*1.
Proof.
  intros H. rewrite dict_set_keys. destruct (dict_mem k d) eqn:E; [done |].
  apply NoDup_app. split; [done |]. split; [| apply NoDup_singleton].
  intros x Hx [-> | []%elem_of_nil]%elem_of_cons.
  apply dict_mem_spec in Hx. congruence.
Qed.

Lemma dict_set_fresh k v (d : dict) : k ∉ d.*1 -> dict_set k v d = d ++ [(k, v)].
Proof.
  induction d as [| [k' v'] d IH]; [done |]. intros H.
  change (((k', v') :: d).*1) with (k' :: d.*1) in H.
  apply not_elem_of_cons in H as [Hne Hnot].
  cbn [dict_set]. destruct (String.eqb_spec k k'); [done |].
  by rewrite IH.
Qed.

Lemma load_lines acc (b : dict) :
  NoDup (acc.*1 ++ b.*1) -> forallb storable_entry b = true ->
  foldl load_line acc (line_of <$> b) = acc ++ b.
Proof.
  revert acc. induction b as [| e b IH]; intros acc Hnodup Hb.
  - by rewrite app_nil_r.
  - cbn [forallb] in Hb. apply andb_prop in Hb as [He Hb].
    cbn [fmap list_fmap foldl]. rewrite load_line_of by done.
    destruct e as [u data]. cbn [fst snd] in *.
    change (((u, data) :: b).*1) with (u :: b.*1) in Hnodup.
    rewrite dict_set_fresh.
    + rewrite IH; [by rewrite <- app_assoc | | done].
      rewrite fmap_app. cbn [fmap list_fmap]. by rewrite <- app_assoc.
    + apply NoDup_app in Hnodup as (_ & Hdisj & _).
      intros Hin. apply (Hdisj _ Hin). apply list_elem_of_here.
Qed.

Lemma readlines_render (b : dict) :
  forallb storable_entry b = true ->
  readlines false (render b) = line_of <$> b.
Proof.
  induction b as [| e b IH]; [done |]. cbn [forallb]. intros [He Hb]%andb_prop.
  cbn [render foldr fmap list_fmap]. rewrite save_line_eq.
  destruct (line_of_clean e He) as (Hnl & Hcr & _).
  rewrite readlines_line by done. f_equal. by apply IH.
Qed.

Lemma parse_render b : storable b = true -> parse (render b) = b.
Proof.
  unfold storable. intros [Hnodup Hb]%andb_prop.
  apply bool_decide_eq_true in Hnodup.
  unfold parse. rewrite readlines_render by done.
  by rewrite load_lines.
Qed.

End store_facts.

Module store_disk_facts.
Import Text date_utils birthday birthday_store.
Import text_facts template_facts codec_facts store_facts.

(** *** Saving, then loading *)

Lemma create_backup_file o d :
  birthdays_file (create_backup o d) = birthdays_file d.
Proof.
  unfold create_backup. destruct (birthdays_file d) eqn:E; [| done].
  by destruct (copy_fails o).
Qed.

Lemma save_birthdays_file o b d :
  write_fails o = false ->
  birthdays_file (save_birthdays o b d) = Some (mkfile (time o) (render b)).
Proof. intros H. unfold save_birthdays. rewrite H. by rewrite create_backup_file. Qed.

Lemma load_existing fuel o d f :
  birthdays_file d = Some f ->
  load_birthdays (S fuel) o d = Some (parse (content f), d).
Proof. intros H. cbn [load_birthdays]. by rewrite H. Qed.

Lemma save_then_load_eq o o' fuel b d :
  storable b = true -> write_fails o = false ->
  load_birthdays (S fuel) o' (save_birthdays o b d)
  = Some (b, save_birthdays o b d).
Proof.
  intros Hb Hw.
  rewrite (load_existing fuel o' _ _ (save_birthdays_file o b d Hw)).
  cbn [content]. by rewrite parse_render.
Qed.

(** X14: what [save_birthdays] writes, [load_birthdays] reads back: after a
    save of a storable dictionary the next load returns that dictionary, in
    the same order, and changes nothing; and a save that cannot open the
    file leaves everything as it was. *)
Theorem save_then_load o o' fuel b d :
  storable b = true ->
  let d' := save_birthdays o b d in
  if write_fails o then d' = d
  else load_birthdays (S fuel) o' d' = Some (b, d').
Proof.
  intros Hb d'. destruct (write_fails o) eqn:Hw.
  - unfold d', save_birthdays. by rewrite Hw.
  - by apply save_then_load_eq.
Qed.

(** Two entries, one with a year, on an empty disk. *)
Definition two_birthdays : dict :=
  [("U1"%string, mkbirthday "25/12" (Some 1990));
   ("U2"%string, mkbirthday "01/04" None)].

Definition calm (t : Z) (stamp : string) : io :=
  mkio false false (fun _ => false) t stamp.

Lemma save_then_load_witness :
  load_birthdays 1 (calm 2 "20240102_080000")
    (save_birthdays (calm 1 "20240101_080000") two_birthdays (mkdisk None ∅))
  = Some (two_birthdays,
          save_birthdays (calm 1 "20240101_080000") two_birthdays (mkdisk None ∅)).
Proof.
  apply (save_then_load (calm 1 "20240101_080000") (calm 2 "20240102_080000")
           0 two_birthdays (mkdisk None ∅)).
  vm_compute. reflexivity.
Defined.

(** *** The dictionary read from any file *)

Lemma load_line_NoDup acc line : NoDup acc.*1 -> NoDup (load_line acc line).*1.
Proof.
  intros H. unfold load_line.
  destruct (split "," (strip line)) as [| user_id [| date more]]; [done | done |].
  by apply dict_set_NoDup.
Qed.

Lemma parse_NoDup content : NoDup (parse content).*1.
Proof.
  unfold parse. generalize (readlines false content). intros ls.
  assert (H : NoDup ([] : dict).*1) by constructor.
  revert H. generalize ([] : dict). induction ls as [| l ls IH]; intros acc H; [done |].
  cbn [foldl]. by apply IH, load_line_NoDup.
Qed.

Lemma insert_by_elem key x l y : y ∈ insert_by key x l <-> y = x \/ y ∈ l.
Proof.
  induction l as [| z l IH]; cbn [insert_by].
  - rewrite list_elem_of_singleton, elem_of_nil. tauto.
  - destruct (key x <=? key z); rewrite !elem_of_cons; [tauto |].
    rewrite IH. tauto.
Qed.

Lemma sort_by_elem key l y : y ∈ sort_by key l <-> y ∈ l.
Proof.
  induction l as [| x l IH]; [done |].
  cbn [sort_by foldr]. fold (sort_by key l).
  by rewrite insert_by_elem, IH, elem_of_cons.
Qed.

Lemma backup_files_elem dir f :
  f ∈ backup_files dir <-> is_backup f = true /\ is_Some (dir !! f).
Proof.
  unfold backup_files. rewrite list_elem_of_In, filter_In, <- list_elem_of_In.
  rewrite list_elem_of_fmap. split.
  - intros [([k v] & -> & Hin%elem_of_map_to_list) Hb]. eauto.
  - intros [Hb [v Hv]]. split; [| done]. exists (f, v). split; [done |].
    by apply elem_of_map_to_list.
Qed.

(** X15: [load_birthdays] returns, and what it returns is a dictionary: no
    user id stands twice in it, whatever the file holds.  (That is what
    [daily] takes for granted.)  It reads the file when there is one and
    changes nothing then; without a file and without a backup that can be
    copied it returns the empty dictionary. *)
Theorem load_birthdays_dictionary o d :
  exists b d',
    (forall fuel, (2 <= fuel)%nat -> load_birthdays fuel o d = Some (b, d'))
    /\ NoDup b.*1
    /\ backup_dir d' = backup_dir d
    /\ (forall f, birthdays_file d = Some f -> b = parse (content f) /\ d' = d)
    /\ (birthdays_file d = None ->
        backup_files (backup_dir d) = [] \/ copy_fails o = true ->
        b = [] /\ d' = d).
Proof.
  destruct (birthdays_file d) as [f |] eqn:Hfile.
  - exists (parse (content f)), d.
    split; [| split; [apply parse_NoDup | split; [done | split]]].
    + intros [| fuel] Hfuel; [lia |]. by apply load_existing.
    + by intros ? [= <-].
    + done.
  - destruct (sort_by (fun f => - getmtime (backup_dir d) f)
                (backup_files (backup_dir d))) as [| latest rest] eqn:Hsort.
    { exists [], d.
      split; [| split; [constructor | split; [done | split; [done | done]]]].
      intros [| fuel] Hfuel; [lia |]. cbn [load_birthdays]. rewrite Hfile.
      unfold restore_latest_backup. by rewrite Hsort. }
    destruct (copy_fails o) eqn:Hcopy.
    { exists [], d.
      split; [| split; [constructor | split; [done | split; [done | done]]]].
      intros [| fuel] Hfuel; [lia |]. cbn [load_birthdays]. rewrite Hfile.
      unfold restore_latest_backup. by rewrite Hsort, Hcopy. }
    assert (Hlatest : latest ∈ backup_files (backup_dir d)).
    { apply (sort_by_elem (fun f => - getmtime (backup_dir d) f)).
      rewrite Hsort. apply list_elem_of_here. }
    apply backup_files_elem in Hlatest as [_ [g Hg]].
    exists (parse (content g)), (mkdisk (Some g) (backup_dir d)).
    split; [| split; [apply parse_NoDup | split; [done | split; [done |]]]].
    + intros [| [| fuel]] Hfuel; [lia | lia |].
      cbn [load_birthdays]. rewrite Hfile.
      unfold restore_latest_backup. rewrite Hsort, Hcopy, Hg. done.
    + intros _ [Hnone | Hfail]; [| done].
      rewrite Hnone in Hsort. done.
Qed.

(** *** One entry added, changed or removed *)

Lemma dict_get_set k v (d : dict) k' :
  dict_get k' (dict_set k v d) = if String.eqb k' k then Some v else dict_get k' d.
Proof.
  induction d as [| [k0 v0] d IH]; cbn [dict_set].
  - unfold dict_get. cbn. by destruct (String.eqb k' k).
  - destruct (String.eqb_spec k k0) as [<- | Hne].
    + unfold dict_get. cbn [List.find fst]. by destruct (String.eqb k' k).
    + unfold dict_get in *. cbn [List.find fst].
      destruct (String.eqb_spec k' k0) as [-> | Hne'].
      * destruct (String.eqb_spec k0 k); [congruence | done].
      * exact IH.
Qed.

Lemma dict_get_del k (d : dict) k' :
  dict_get k' (dict_del k d) = if String.eqb k' k then None else dict_get k' d.
Proof.
  induction d as [| [k0 v0] d IH]; [by destruct (String.eqb k' k) |].
  unfold dict_del, dict_get in *. cbn [List.filter List.find fst].
  destruct (String.eqb_spec k k0) as [<- | Hne]; cbn [negb].
  - rewrite IH. by destruct (String.eqb_spec k' k).
  - cbn [List.find fst]. destruct (String.eqb_spec k' k0) as [-> | Hne'].
    + destruct (String.eqb_spec k0 k); [congruence | done].
    + exact IH.
Qed.

(** X16: [save_birthday] puts one entry into the store.  It answers
    whether the user had an entry; after it, with a file that could be
    written, a load returns the dictionary loaded before with the entry of
    this user set to the new date and year, every other entry as it was,
    and an entry that was there keeps its place. *)
Theorem save_birthday_stores fuel o o' date user year d b d1 :
  load_birthdays fuel o d = Some (b, d1) ->
  write_fails o = false ->
  storable (dict_set user (mkbirthday date year) b) = true ->
  exists d2,
    save_birthday fuel o date user year d = Some (dict_mem user b, d2)
    /\ (forall fuel', load_birthdays (S fuel') o' d2
                      = Some (dict_set user (mkbirthday date year) b, d2))
    /\ (forall other,
          dict_get other (dict_set user (mkbirthday date year) b)
          = if String.eqb other user then Some (mkbirthday date year)
            else dict_get other b)
    /\ (dict_set user (mkbirthday date year) b).*1
       = if dict_mem user b then b.*1 else b.*1 ++ [user].
Proof.
  intros Hload Hw Hst.
  exists (save_birthdays o (dict_set user (mkbirthday date year) b) d1).
  split; [unfold save_birthday; by rewrite Hload |].
  split.
  { intros fuel'.
    pose proof (save_then_load_eq o o' fuel'
                  (dict_set user (mkbirthday date year) b) d1 Hst Hw) as H.
    exact H. }
  split; [intros other; apply dict_get_set | apply dict_set_keys].
Qed.

(** The disk after a first save of the two entries. *)
Definition two_on_disk : disk :=
  save_birthdays (calm 1 "20240101_080000") two_birthdays (mkdisk None ∅).

Lemma save_birthday_stores_witness :
  exists d2,
    save_birthday 1 (calm 2 "20240102_080000") "14/02" "U3" None two_on_disk
    = Some (dict_mem "U3" two_birthdays, d2)
    /\ (forall fuel', load_birthdays (S fuel') (calm 3 "20240103_080000") d2
                      = Some (dict_set "U3" (mkbirthday "14/02" None) two_birthdays, d2))
    /\ (forall other,
          dict_get other (dict_set "U3" (mkbirthday "14/02" None) two_birthdays)
          = if String.eqb other "U3" then Some (mkbirthday "14/02" None)
            else dict_get other two_birthdays)
    /\ (dict_set "U3" (mkbirthday "14/02" None) two_birthdays).*1
       = if dict_mem "U3" two_birthdays then two_birthdays.*1
         else two_birthdays.*1 ++ ["U3"%string].
Proof.
  apply (save_birthday_stores 1 (calm 2 "20240102_080000") (calm 3 "20240103_080000")
           "14/02" "U3" None two_on_disk two_birthdays two_on_disk);
    [vm_compute; reflexivity | reflexivity | vm_compute; reflexivity].
Defined.

Lemma dict_del_keys k (d : dict) :
  (dict_del k d).*1 = List.filter (fun k' => negb (String.eqb k k')) d.*1.
Proof.
  induction d as [| [k0 v0] d IH]; [done |].
  unfold dict_del in *. cbn [List.filter fst fmap list_fmap].
  destruct (String.eqb k k0); cbn [negb]; [exact IH |].
  cbn [fmap list_fmap fst]. f_equal. exact IH.
Qed.

(** X17: [remove_birthday] takes one entry out of the store.  It answers
    whether the user had an entry; without one it writes nothing, and with
    one a load after it returns the dictionary loaded before without this
    entry, the other entries as they were and in their order. *)
Theorem remove_birthday_removes fuel o o' user d b d1 :
  load_birthdays fuel o d = Some (b, d1) ->
  write_fails o = false ->
  storable (dict_del user b) = true ->
  exists d2,
    remove_birthday fuel o user d = Some (dict_mem user b, d2)
    /\ (dict_mem user b = false -> d2 = d1)
    /\ (dict_mem user b = true ->
        forall fuel', load_birthdays (S fuel') o' d2 = Some (dict_del user b, d2))
    /\ (forall other,
          dict_get other (dict_del user b)
          = if String.eqb other user then None else dict_get other b)
    /\ (dict_del user b).*1
       = List.filter (fun k => negb (String.eqb user k)) b.*1.
Proof.
  intros Hload Hw Hst. unfold remove_birthday. rewrite Hload. cbn.
  destruct (dict_mem user b) eqn:Hmem.
  - exists (save_birthdays o (dict_del user b) d1).
    split; [done |]. split; [done |].
    split; [intros _ fuel'; by apply save_then_load_eq |].
    split; [intros other; apply dict_get_del | apply dict_del_keys].
  - exists d1. split; [done |]. split; [done |]. split; [done |].
    split; [intros other; apply dict_get_del | apply dict_del_keys].
Qed.

Lemma remove_birthday_removes_witness :
  exists d2,
    remove_birthday 1 (calm 2 "20240102_080000") "U1" two_on_disk
    = Some (dict_mem "U1" two_birthdays, d2)
    /\ (dict_mem "U1" two_birthdays = false -> d2 = two_on_disk)
    /\ (dict_mem "U1" two_birthdays = true ->
        forall fuel', load_birthdays (S fuel') (calm 3 "20240103_080000") d2
                      = Some (dict_del "U1" two_birthdays, d2))
    /\ (forall other,
          dict_get other (dict_del "U1" two_birthdays)
          = if String.eqb other "U1" then None else dict_get other two_birthdays)
    /\ (dict_del "U1" two_birthdays).*1
       = List.filter (fun k => negb (String.eqb "U1" k)) two_birthdays.*1.
Proof.
  apply (remove_birthday_removes 1 (calm 2 "20240102_080000")
           (calm 3 "20240103_080000") "U1" two_on_disk two_birthdays two_on_disk);
    [vm_compute; reflexivity | reflexivity | vm_compute; reflexivity].
Defined.

End store_disk_facts.

Module backup_facts.
Import Text date_utils birthday birthday_store.
Import text_facts template_facts codec_facts store_facts store_disk_facts.

(** *** The sort *)

Lemma insert_by_perm key x l : insert_by key x l ≡ₚ x :: l.
Proof.
  induction l as [| y l IH]; [done |]. cbn [insert_by].
  destruct (key x <=? key y); [done |]. rewrite IH. apply Permutation_swap.
Qed.

Lemma sort_by_perm key l : sort_by key l ≡ₚ l.
Proof.
  induction l as [| x l IH]; [done |].
  cbn [sort_by foldr]. fold (sort_by key l). by rewrite insert_by_perm, IH.
Qed.

(** Every element is at most those after it. *)
Fixpoint ascending (key : string -> Z) (l : list string) : Prop :=
  match l with
  | [] => True
  | x :: l' => (forall y, y ∈ l' -> key x <= key y) /\ ascending key l'
  end.

Lemma insert_by_ascending key x l :
  ascending key l -> ascending key (insert_by key x l).
Proof.
  induction l as [| y l IH]; intros Hl; cbn [insert_by].
  - split; [by intros ? ?%elem_of_nil | done].
  - destruct Hl as [Hy Hl]. destruct (Z.leb_spec (key x) (key y)) as [Hle | Hgt].
    + split; [| done]. intros z [-> | Hz]%elem_of_cons; [done |].
      specialize (Hy z Hz). lia.
    + split; [| by apply IH].
      intros z [-> | Hz]%insert_by_elem; [lia | by apply Hy].
Qed.

Lemma sort_by_ascending key l : ascending key (sort_by key l).
Proof.
  induction l as [| x l IH]; [done |].
  cbn [sort_by foldr]. by apply insert_by_ascending.
Qed.

Lemma ascending_take_drop key l n x y :
  ascending key l -> x ∈ take n l -> y ∈ drop n l -> key x <= key y.
Proof.
  revert n. induction l as [| z l IH]; intros n Hl Hx Hy.
  - rewrite take_nil in Hx. by apply elem_of_nil in Hx.
  - destruct n as [| n]; [by apply elem_of_nil in Hx |].
    destruct Hl as [Hz Hl]. cbn [take drop] in *.
    apply elem_of_cons in Hx as [-> | Hx].
    + apply Hz. by apply (subseteq_drop n l).
    + by apply (IH n).
Qed.

(** *** The rotation *)

(** The backups in excess: the first of the sorted list. *)
Definition excess (l : list string) : list string :=
  take (length l - MAX_BACKUPS) l.

Lemma excess_cons x l :
  excess (x :: l)
  = if (MAX_BACKUPS <? length (x :: l))%nat then x :: excess l else [].
Proof.
  unfold excess. cbn [length].
  destruct (Nat.ltb_spec MAX_BACKUPS (S (length l))) as [Hlt | Hge].
  - replace (S (length l) - MAX_BACKUPS)%nat
      with (S (length l - MAX_BACKUPS)) by lia. done.
  - replace (S (length l) - MAX_BACKUPS)%nat with 0%nat by lia. done.
Qed.

(** Whatever fails, a file the rotation takes away is one in excess. *)
Lemma remove_oldest_safe o l :
  forall dir name,
    remove_oldest o l dir !! name = dir !! name
    \/ (name ∈ excess l /\ remove_oldest o l dir !! name = None).
Proof.
  induction l as [| x l IH]; intros dir name; [by left |].
  cbn [remove_oldest]. rewrite excess_cons.
  destruct (MAX_BACKUPS <? length (x :: l))%nat; [| by left].
  destruct (remove_fails o x); [by left |].
  destruct (IH (delete x dir) name) as [Heq | [Hin Hnone]].
  - destruct (decide (x = name)) as [-> | Hne].
    + rewrite lookup_delete_eq in Heq. right. split; [apply list_elem_of_here | done].
    + rewrite lookup_delete_ne in Heq by done. by left.
  - right. split; [by apply list_elem_of_further | done].
Qed.

(** When no removal fails, those in excess are taken away, and nothing
    else. *)
Lemma remove_oldest_spec o l :
  (forall x, remove_fails o x = false) ->
  forall dir name,
    remove_oldest o l dir !! name
    = if bool_decide (name ∈ excess l) then None else dir !! name.
Proof.
  intros Hok. induction l as [| x l IH]; intros dir name.
  - by rewrite bool_decide_eq_false_2 by apply not_elem_of_nil.
  - cbn [remove_oldest]. rewrite excess_cons.
    destruct (MAX_BACKUPS <? length (x :: l))%nat;
      [| by rewrite bool_decide_eq_false_2 by apply not_elem_of_nil].
    rewrite Hok, IH.
    destruct (decide (name = x)) as [-> | Hne].
    + rewrite (bool_decide_eq_true_2 (x ∈ x :: excess l)) by apply list_elem_of_here.
      rewrite lookup_delete_eq. by destruct (bool_decide _).
    + rewrite lookup_delete_ne by done.
      destruct (decide (name ∈ excess l)) as [Hin | Hnot].
      * rewrite !bool_decide_eq_true_2; [done | by apply list_elem_of_further | done].
      * rewrite !bool_decide_eq_false_2; [done | | done].
        by intros [-> | ?]%elem_of_cons.
Qed.

Lemma backup_files_NoDup dir : NoDup (backup_files dir).
Proof.
  unfold backup_files.
  apply NoDup_ListNoDup, List.NoDup_filter, NoDup_ListNoDup, NoDup_fst_map_to_list.
Qed.

(** X18: [rotate_backups], when no removal fails, leaves at most
    [MAX_BACKUPS] backup files; it takes away no file that is not a backup,
    adds none, and a backup it takes away is not newer than one it keeps.
    The birthdays file is not touched. *)
Theorem rotate_backups_keeps_newest o d :
  (forall x, remove_fails o x = false) ->
  let d' := rotate_backups o d in
  (length (backup_files (backup_dir d')) <= MAX_BACKUPS)%nat
  /\ birthdays_file d' = birthdays_file d
  /\ (forall f, backup_dir d' !! f = backup_dir d !! f
                \/ (is_backup f = true /\ backup_dir d' !! f = None))
  /\ (forall gone kept,
        gone ∈ backup_files (backup_dir d) -> backup_dir d' !! gone = None ->
        kept ∈ backup_files (backup_dir d') ->
        getmtime (backup_dir d) gone <= getmtime (backup_dir d) kept).
Proof.
  intros Hok d'. unfold d', rotate_backups. cbn [backup_dir birthdays_file].
  set (dir := backup_dir d). set (key := getmtime dir).
  set (sorted := sort_by key (backup_files dir)).
  pose proof (remove_oldest_spec o sorted Hok dir) as Hspec.
  assert (Hsorted : forall f, f ∈ sorted <-> is_backup f = true /\ is_Some (dir !! f)).
  { intros f. unfold sorted. by rewrite sort_by_elem, backup_files_elem. }
  assert (Hkept : forall f, f ∈ backup_files (remove_oldest o sorted dir)
                            <-> f ∈ drop (length sorted - MAX_BACKUPS) sorted).
  { intros f. rewrite backup_files_elem, Hspec.
    assert (Hnodup : NoDup sorted).
    { unfold sorted. rewrite sort_by_perm. apply backup_files_NoDup. }
    rewrite <- (take_drop (length sorted - MAX_BACKUPS) sorted) in Hnodup.
    apply NoDup_app in Hnodup as (_ & Hdisj & _).
    fold (excess sorted) in Hdisj.
    split.
    - intros [Hb Hsome]. destruct (decide (f ∈ excess sorted)) as [Hin | Hnot].
      + rewrite bool_decide_eq_true_2 in Hsome by done. by destruct Hsome.
      + rewrite bool_decide_eq_false_2 in Hsome by done.
        assert (Hf : f ∈ sorted) by by apply Hsorted.
        rewrite <- (take_drop (length sorted - MAX_BACKUPS) sorted) in Hf.
        apply elem_of_app in Hf as [Hf | Hf]; done.
    - intros Hf.
      assert (Hf' : f ∈ sorted)
        by by apply (subseteq_drop (length sorted - MAX_BACKUPS) sorted).
      apply Hsorted in Hf' as [Hb Hsome]. split; [done |].
      rewrite bool_decide_eq_false_2; [done |].
      intros Hin. by apply (Hdisj f). }
  split.
  { assert (Hperm : backup_files (remove_oldest o sorted dir)
                    ≡ₚ drop (length sorted - MAX_BACKUPS) sorted).
    { apply NoDup_Permutation; [apply backup_files_NoDup | | done].
      assert (Hnodup : NoDup sorted).
      { unfold sorted. rewrite sort_by_perm. apply backup_files_NoDup. }
      rewrite <- (take_drop (length sorted - MAX_BACKUPS) sorted) in Hnodup.
      by apply NoDup_app in Hnodup as (_ & _ & ?). }
    rewrite Hperm, length_drop. lia. }
  split; [done |]. split.
  - intros f. rewrite Hspec.
    destruct (decide (f ∈ excess sorted)) as [Hin | Hnot].
    + rewrite bool_decide_eq_true_2 by done. right. split; [| done].
      apply (subseteq_take (length sorted - MAX_BACKUPS) sorted), Hsorted in Hin.
      tauto.
    + rewrite bool_decide_eq_false_2 by done. by left.
  - intros gone kept Hgone Hnone Hk.
    apply Hkept in Hk.
    apply (ascending_take_drop key sorted (length sorted - MAX_BACKUPS));
      [apply sort_by_ascending | | done].
    rewrite Hspec in Hnone.
    destruct (decide (gone ∈ excess sorted)) as [Hin | Hnot]; [done |].
    rewrite bool_decide_eq_false_2 in Hnone by done.
    apply backup_files_elem in Hgone as [_ [g Hg]]. congruence.
Qed.

(** Eleven backups, written at the times 1 to 11. *)
Definition crowded : disk :=
  mkdisk None
    (list_to_map
       ((fun n => ("birthdays_202401" +:+ pad2 n +:+ "_080000.txt", mkfile n EmptyString))
        <$> seqZ 1 11)).

Lemma rotate_backups_keeps_newest_witness :
  let d' := rotate_backups (calm 12 "20240112_080000") crowded in
  (length (backup_files (backup_dir d')) <= MAX_BACKUPS)%nat
  /\ birthdays_file d' = birthdays_file crowded
  /\ (forall f, backup_dir d' !! f = backup_dir crowded !! f
                \/ (is_backup f = true /\ backup_dir d' !! f = None))
  /\ (forall gone kept,
        gone ∈ backup_files (backup_dir crowded) -> backup_dir d' !! gone = None ->
        kept ∈ backup_files (backup_dir d') ->
        getmtime (backup_dir crowded) gone <= getmtime (backup_dir crowded) kept).
Proof.
  apply (rotate_backups_keeps_newest (calm 12 "20240112_080000") crowded).
  reflexivity.
Defined.

(** Of eleven backups the rotation takes the oldest away. *)
Example rotation_of_eleven :
  let d' := rotate_backups (calm 12 "20240112_080000") crowded in
  length (backup_files (backup_dir crowded)) = 11%nat
  /\ length (backup_files (backup_dir d')) = 10%nat
  /\ backup_dir d' !! "birthdays_20240101_080000.txt"%string = None.
Proof. vm_compute. done. Qed.

(** *** A lost file *)

Lemma substring_all s : String.substring 0 (String.length s) s = s.
Proof. induction s as [| c s IH]; [done |]. cbn. by rewrite IH. Qed.

Lemma ends_with_append s suffix : ends_with suffix (s +:+ suffix) = true.
Proof.
  unfold ends_with. rewrite length_append.
  apply andb_true_intro. split; [apply Nat.leb_le; lia |].
  replace (String.length s + String.length suffix - String.length suffix)%nat
    with (String.length s) by lia.
  assert (String.substring (String.length s) (String.length suffix) (s +:+ suffix)
          = suffix) as ->; [| apply String.eqb_refl].
  induction s as [| c s IH]; [apply substring_all |].
  rewrite append_cons. exact IH.
Qed.

Lemma backup_name_is_backup stamp :
  is_backup ("birthdays_" +:+ stamp +:+ ".txt") = true.
Proof.
  unfold is_backup. rewrite starts_with_append. cbn [andb].
  rewrite <- append_assoc. apply ends_with_append.
Qed.

(** The first of a list sorted from the newest on is the one file newer
    than all the others. *)
Lemma newest_first key l m latest rest :
  m ∈ l -> (forall y, y ∈ l -> y <> m -> key y < key m) ->
  sort_by (fun f => - key f) l = latest :: rest -> latest = m.
Proof.
  intros Hm Hmax Hsort.
  pose proof (sort_by_ascending (fun f => - key f) l) as Hasc.
  rewrite Hsort in Hasc. destruct Hasc as [Hfirst _].
  assert (Hl : latest ∈ l).
  { apply (sort_by_elem (fun f => - key f)). rewrite Hsort. apply list_elem_of_here. }
  destruct (decide (latest = m)) as [| Hne]; [done |].
  assert (Hin : m ∈ latest :: rest)
    by (rewrite <- Hsort; by apply sort_by_elem).
  apply elem_of_cons in Hin as [-> | Hin]; [done |].
  specialize (Hfirst m Hin). specialize (Hmax latest Hl Hne). lia.
Qed.

(** The one file newer than all the others is not in excess. *)
Lemma newest_kept key l m :
  m ∈ l -> NoDup l -> (forall y, y ∈ l -> y <> m -> key y < key m) ->
  m ∉ excess (sort_by key l).
Proof.
  intros Hm Hnodup Hmax Hin.
  set (sorted := sort_by key l) in *.
  set (n := (length sorted - MAX_BACKUPS)%nat) in *.
  assert (Hn : NoDup sorted) by (unfold sorted; by rewrite sort_by_perm).
  rewrite <- (take_drop n sorted) in Hn.
  apply NoDup_app in Hn as (_ & Hdisj & _).
  assert (Hlen : (n < length sorted)%nat).
  { apply (subseteq_take n sorted) in Hin as Hin'.
    destruct sorted; [by apply elem_of_nil in Hin' |].
    unfold n, MAX_BACKUPS. cbn [length]. lia. }
  destruct (drop n sorted) as [| y tail] eqn:Hdrop.
  { apply (f_equal length) in Hdrop. rewrite length_drop in Hdrop.
    cbn [length] in Hdrop. lia. }
  assert (Hy : y ∈ drop n sorted) by (rewrite Hdrop; apply list_elem_of_here).
  pose proof (ascending_take_drop key sorted n m y
                (sort_by_ascending key l) Hin Hy) as Hle.
  assert (Hne : y <> m)
    by (intros ->; apply (Hdisj m Hin); apply list_elem_of_here).
  assert (Hyl : y ∈ l)
    by (apply (sort_by_elem key), (subseteq_drop n sorted); done).
  specialize (Hmax y Hyl Hne). lia.
Qed.

(** X19: a backup brings the dictionary back.  After a save of a storable
    dictionary at a time later than every backup there is, with the file
    written and copied, the loss of the birthdays file is repaired by the
    next load: it restores the file from the backup just made, whatever the
    rotation took away, and returns the dictionary that was saved. *)
Theorem backup_recovers o o' fuel b d :
  storable b = true ->
  write_fails o = false -> copy_fails o = false -> copy_fails o' = false ->
  (forall name g, backup_dir d !! name = Some g -> mtime g < time o) ->
  let saved := save_birthdays o b d in
  let lost := mkdisk None (backup_dir saved) in
  load_birthdays (S (S fuel)) o' lost
  = Some (b, mkdisk (Some (mkfile (time o) (render b))) (backup_dir saved)).
Proof.
  intros Hb Hw Hc Hc' Hold saved lost.
  set (f := mkfile (time o) (render b)).
  set (bf := "birthdays_" +:+ timestamp o +:+ ".txt").
  set (dir1 := <[bf := f]> (backup_dir d)).
  set (sorted := sort_by (getmtime dir1) (backup_files dir1)).
  assert (Hsaved : backup_dir saved = remove_oldest o sorted dir1).
  { unfold saved, save_birthdays, create_backup, rotate_backups.
    rewrite Hw. cbn [birthdays_file backup_dir]. by rewrite Hc. }
  clearbody saved. subst lost.
  assert (Hbf1 : bf ∈ backup_files dir1).
  { apply backup_files_elem. split; [apply backup_name_is_backup |].
    unfold dir1. rewrite lookup_insert_eq. eauto. }
  assert (Hmax1 : forall y, y ∈ backup_files dir1 -> y <> bf ->
                            getmtime dir1 y < getmtime dir1 bf).
  { intros y [_ [g Hg]]%backup_files_elem Hne. unfold getmtime, dir1 in *.
    rewrite lookup_insert_eq. rewrite lookup_insert_ne in Hg by done.
    rewrite lookup_insert_ne by done. rewrite Hg. cbn. by apply (Hold y). }
  assert (Hkept : backup_dir saved !! bf = Some f).
  { rewrite Hsaved.
    destruct (remove_oldest_safe o sorted dir1 bf) as [-> | [Hin _]].
    - unfold dir1. by rewrite lookup_insert_eq.
    - exfalso. revert Hin.
      apply newest_kept; [done | apply backup_files_NoDup | done]. }
  assert (Holder : forall y g, backup_dir saved !! y = Some g -> y <> bf ->
                               mtime g < time o).
  { intros y g Hg Hne. rewrite Hsaved in Hg.
    destruct (remove_oldest_safe o sorted dir1 y) as [Heq | [_ Hnone]];
      [| congruence].
    rewrite Heq in Hg. unfold dir1 in Hg. rewrite lookup_insert_ne in Hg by done.
    by apply (Hold y). }
  assert (Hbf : bf ∈ backup_files (backup_dir saved)).
  { apply backup_files_elem. split; [apply backup_name_is_backup | eauto]. }
  cbn [load_birthdays birthdays_file].
  unfold restore_latest_backup. cbn [backup_dir].
  destruct (sort_by (fun f0 => - getmtime (backup_dir saved) f0)
              (backup_files (backup_dir saved))) as [| latest rest] eqn:Hsort.
  { apply (sort_by_elem (fun f0 => - getmtime (backup_dir saved) f0)) in Hbf.
    rewrite Hsort in Hbf. by apply elem_of_nil in Hbf. }
  assert (latest = bf) as ->.
  { apply (newest_first (getmtime (backup_dir saved))
             (backup_files (backup_dir saved)) bf latest rest); [done | | done].
    intros y [_ [g Hg]]%backup_files_elem Hne. unfold getmtime.
    rewrite Hg, Hkept. cbn. by apply (Holder y). }
  rewrite Hc', Hkept. cbn [birthdays_file content f].
  by rewrite parse_render.
Qed.

Lemma backup_recovers_witness :
  let saved := save_birthdays (calm 12 "20240112_080000") two_birthdays crowded in
  let lost := mkdisk None (backup_dir saved) in
  load_birthdays 2 (calm 13 "20240113_080000") lost
  = Some (two_birthdays,
          mkdisk (Some (mkfile 12 (render two_birthdays))) (backup_dir saved)).
Proof.
  apply (backup_recovers (calm 12 "20240112_080000") (calm 13 "20240113_080000")
           0 two_birthdays crowded);
    [vm_compute; reflexivity | reflexivity | reflexivity | reflexivity |].
  intros name g Hg.
  assert (Hall : Forall (fun p : string * file => mtime p.2 < 12)
                   (map_to_list (backup_dir crowded)))
    by (vm_compute; repeat constructor).
  rewrite Forall_forall in Hall.
  by apply (Hall (name, g)), elem_of_map_to_list.
Defined.

End backup_facts.

(** ** The chat platform *)

Module slack_api_facts.
Import Text slack_utils birthday slack_api text_facts scheduler_facts.

(** X20: [get_username] asks the platform at most once for a name it got.
    After a call, the name returned is in the cache unless the platform
    failed; a name in the cache is returned by every later call, whatever
    the platform would answer then, and the cache stays as it is; a failure
    is not cached, and the mention stands in for the name. *)
Theorem get_username_cached api user_id cache :
  let '(name, cache') := get_username api user_id cache in
  (forall other, other <> user_id -> cache' !! other = cache !! other)
  /\ (forall api', cache' !! user_id = Some name ->
                   get_username api' user_id cache' = (name, cache'))
  /\ (cache' !! user_id = Some name
      \/ (cache' = cache /\ cache !! user_id = None
          /\ name = get_user_mention (Some user_id)
          /\ (api user_id = None \/ exists p, api user_id = Some p /\ ok p = false))).
Proof.
  unfold get_username.
  destruct (cache !! user_id) as [name |] eqn:Hhit.
  - split; [done |]. split; [| by left]. intros api' _. by rewrite Hhit.
  - destruct (api user_id) as [p |] eqn:Hapi.
    + destruct (ok p) eqn:Hok.
      * split; [intros other Hne; by rewrite lookup_insert_ne |].
        split; [| left; by rewrite lookup_insert_eq].
        intros api' _. by rewrite lookup_insert_eq.
      * split; [done |]. split; [intros api' H; congruence |].
        right. repeat (split; [done |]). right. eauto.
    + split; [done |]. split; [intros api' H; congruence |].
      right. repeat (split; [done |]). by left.
Qed.

(** X21: who may use a command.  A user of [ADMIN_USERS] may use every
    command, whatever the platform answers.  Any other user may use a
    command exactly when the platform names the user a workspace
    administrator, or the command is not [remind] and the settings do not
    restrict it; when the platform fails, only the second case is left. *)
Theorem check_command_permission_spec admins perms users_info user_id command :
  (is_in user_id admins = true ->
   check_command_permission admins perms users_info user_id command = true)
  /\ (is_in user_id admins = false ->
      check_command_permission admins perms users_info user_id command
      = (match users_info user_id with
         | Some info => ui_is_admin info
         | None => false
         end
         || negb (String.eqb command "remind")
            && negb (bool_decide (perms !! command = Some true)))).
Proof.
  unfold check_command_permission, is_admin. split; intros ->.
  - destruct (String.eqb command "remind"); [done |].
    by destruct (perms !! command) as [[] |].
  - destruct (String.eqb command "remind"); cbn [negb andb];
      [by rewrite orb_false_r |].
    destruct (perms !! command) as [[] |] eqn:E; cbn;
      by rewrite ?orb_false_r, ?orb_true_r.
Qed.

(** *** The pages of [conversations_members] *)

(** The pages the platform gives from call [n] on, asked with this cursor
    first: each page but the last names the cursor of the next. *)
Inductive fetched (api : nat -> option string -> option page)
  : nat -> option string -> list page -> Prop :=
| fetched_last n c p :
    api n c = Some p -> truthy_str (next_cursor p) = false ->
    fetched api n c [p]
| fetched_more n c p ps :
    api n c = Some p -> truthy_str (next_cursor p) = true ->
    fetched api (S n) (next_cursor p) ps ->
    fetched api n c (p :: ps).

Definition all_members (pages : list page) : list string :=
  concat (members <$> pages).

Lemma truthy_cursor c :
  truthy_str c = true -> (if truthy_str c then c else None) = c.
Proof. by intros ->. Qed.

Lemma loop_fetched api pages :
  forall fuel n acc c,
    fetched api n (if truthy_str c then c else None) pages ->
    (length pages <= fuel)%nat ->
    get_channel_members_loop fuel api n acc c = Some (acc ++ all_members pages).
Proof.
  induction pages as [| p ps IH]; intros fuel n acc c Hf Hfuel;
    [inversion Hf |].
  destruct fuel as [| fuel]; [cbn in Hfuel; lia |].
  cbn [get_channel_members_loop].
  inversion Hf as [? ? ? Hp Hlast | ? ? ? ? Hp Hmore Hrest]; subst; rewrite Hp.
  - rewrite Hlast. unfold all_members. cbn. by rewrite app_nil_r.
  - rewrite Hmore. rewrite (IH fuel (S n) (acc ++ members p) (next_cursor p)).
    + unfold all_members. cbn. by rewrite app_assoc.
    + by rewrite truthy_cursor.
    + cbn in Hfuel. lia.
Qed.

Lemma loop_complete api :
  forall fuel n acc c ms,
    get_channel_members_loop fuel api n acc c = Some ms ->
    (exists pages,
        fetched api n (if truthy_str c then c else None) pages
        /\ ms = acc ++ all_members pages)
    \/ ms = [].
Proof.
  induction fuel as [| fuel IH]; intros n acc c ms H; [done |].
  cbn [get_channel_members_loop] in H.
  destruct (api n (if truthy_str c then c else None)) as [p |] eqn:Hp;
    [| right; congruence].
  destruct (truthy_str (next_cursor p)) eqn:Hnext.
  - apply IH in H as [(pages & Hf & ->) | ->]; [left | by right].
    exists (p :: pages). split.
    + apply fetched_more; [done | done |]. by rewrite truthy_cursor in Hf.
    + unfold all_members. cbn. by rewrite app_assoc.
  - injection H as <-. left. exists [p]. split; [by apply fetched_last |].
    unfold all_members. cbn. by rewrite app_nil_r.
Qed.

(** X22: [get_channel_members] returns all or nothing.  When the platform
    gives its pages one after the other, the result is the members of all
    of them in order, given a round of the loop for every page; and any
    result that is not empty is of this kind: a failure on a later page
    does not leave the members of the earlier pages, it leaves none. *)
Theorem get_channel_members_all_or_nothing fuel api :
  (forall pages, fetched api 0 None pages -> (length pages <= fuel)%nat ->
                 get_channel_members fuel api = Some (all_members pages))
  /\ (forall ms, get_channel_members fuel api = Some ms ->
                 ms = [] \/ exists pages, fetched api 0 None pages
                                          /\ ms = all_members pages).
Proof.
  unfold get_channel_members. split.
  - intros pages Hf Hfuel. by rewrite (loop_fetched api pages fuel 0 [] None).
  - intros ms H. apply loop_complete in H as [(pages & Hf & ->) | ->]; eauto.
Qed.

(** A platform whose pages never end: the loop does not return. *)
Example get_channel_members_endless fuel :
  get_channel_members fuel (fun _ _ => Some (mkpage ["U1"%string] (Some "more"%string)))
  = None.
Proof.
  unfold get_channel_members.
  set (api := fun (_ : nat) (_ : option string) =>
                Some (mkpage ["U1"%string] (Some "more"%string))).
  assert (H : forall fuel n acc c, get_channel_members_loop fuel api n acc c = None);
    [| apply H].
  clear fuel. induction fuel as [| fuel IH]; intros n acc c; [done |].
  cbn. apply IH.
Qed.

End slack_api_facts.

(** ** Reminders *)

Module reminder_facts.
Import Text slack_utils message_generator announcement birthday slack_api reminders.
Import text_facts template_facts scheduler_facts ledger_facts.

Lemma greeting_mention i user_id :
  contains (get_user_mention (Some user_id))
    (random_choice i (greetings user_id)) = true.
Proof.
  unfold random_choice. cbn [length greetings].
  assert (H : (i mod 5 < 5)%nat) by (apply Nat.mod_upper_bound; lia).
  destruct (i mod 5)%nat as [| [| [| [| [| k]]]]]; [.. | lia];
    cbn [nth]; apply contains_middle.
Qed.

(** Every reminder names its receiver. *)
Lemma reminder_message_mention rnd user_id custom_message :
  contains (get_user_mention (Some user_id))
    (reminder_message rnd user_id custom_message) = true.
Proof.
  unfold reminder_message.
  destruct custom_message as [[| c custom] |].
  - apply contains_append_l, greeting_mention.
  - destruct (contains (get_user_mention (Some user_id)) (String c custom)) eqn:E;
      cbn [negb]; [done |].
    apply contains_starts_with, starts_with_append.
  - apply contains_append_l, greeting_mention.
Qed.

(** A reminder sent at the moment [t]: a direct message to a user of the
    list that names the user, whom the platform did not call a bot. *)
Definition reminder (users_info : nat -> string -> option user_info)
    (users_ : list string) (t : nat) (ev : event) : Prop :=
  match ev with
  | Delivered user_id channel text _ =>
      user_id ∈ users_ /\ channel = user_id
      /\ contains (get_user_mention (Some user_id)) text = true
      /\ forall info, users_info t user_id = Some info -> ui_is_bot info = false
  | _ => False
  end.

(** The events from the moment [t] on are reminders, each at its moment. *)
Fixpoint reminders_from (users_info : nat -> string -> option user_info)
    (users_ : list string) (t : nat) (new : list event) : Prop :=
  match new with
  | [] => True
  | ev :: rest =>
      reminder users_info users_ t ev /\ reminders_from users_info users_ (S t) rest
  end.

(** The receivers of the messages that the platform accepted. *)
Definition reached (tr : list event) : list string :=
  omap (fun ev => match ev with
                  | Delivered user_id _ _ true => Some user_id
                  | _ => None
                  end) tr.

Lemma send_reminder_loop_spec e users_info custom_message all :
  forall users_ r w,
    users_ ⊆ all ->
    let out := send_reminder_loop e users_info users_ custom_message r w in
    exists new,
      trace out.2 = trace w ++ new
      /\ reminders_from users_info all (length (trace w)) new
      /\ posted out.2 = posted w ++ accepted new
      /\ files out.2 = files w
      /\ users out.1 = users r ++ reached new
      /\ successful out.1 = successful r + Z.of_nat (length (reached new))
      /\ successful out.1 + failed out.1 + skipped_bots out.1
         = successful r + failed r + skipped_bots r + Z.of_nat (length users_)
      /\ failed r <= failed out.1 /\ skipped_bots r <= skipped_bots out.1.
Proof.
  induction users_ as [| user_id rest IH]; intros r w Hsub; cbn [send_reminder_loop].
  - exists []. change (reached []) with (@nil string).
    change (accepted []) with (@nil (string * string)).
    cbn [length reminders_from fst snd]. rewrite !app_nil_r.
    repeat split; try done; lia.
  - assert (Hrest : rest ⊆ all) by (intros x Hx; apply Hsub; by right).
    assert (Huser : user_id ∈ all) by (apply Hsub; by left).
    destruct (match users_info (length (trace w)) user_id with
              | Some info => ui_is_bot info
              | None => false
              end) eqn:Hbot.
    { destruct (IH (mkresults (successful r) (failed r) (skipped_bots r + 1) (users r))
                  w Hrest) as (new & H1 & H2 & H3 & H4 & H5 & H6 & H7 & H8 & H9).
      exists new. cbn [successful failed skipped_bots users] in *.
      repeat (split; [done |]). cbn [length]. repeat split; lia. }
    assert (Hnot : forall info, users_info (length (trace w)) user_id = Some info ->
                                ui_is_bot info = false)
      by (intros info Hinfo; by rewrite Hinfo in Hbot).
    unfold send_message.
    set (message := reminder_message (choice e (length (trace w))) user_id
                      custom_message).
    destruct (deliver e (length (trace w)) user_id message) eqn:Hsent.
    + match goal with
      | |- context [send_reminder_loop e users_info rest custom_message ?r' ?w'] =>
          destruct (IH r' w' Hrest) as (new & H1 & H2 & H3 & H4 & H5 & H6 & H7 & H8 & H9)
      end.
      exists (Delivered user_id user_id message true :: new).
      cbn [successful failed skipped_bots users log trace posted files] in *.
      rewrite length_app, Nat.add_1_r in H2.
      split; [by rewrite H1, <- app_assoc |].
      split; [split; [| done]; cbn;
              split; [done | split; [done | split;
                [apply reminder_message_mention | done]]] |].
      split; [by rewrite H3, <- app_assoc |]. split; [done |].
      split; [by rewrite H5, <- app_assoc |].
      change (reached (Delivered user_id user_id message true :: new))
        with (user_id :: reached new).
      cbn [length]. repeat split; lia.
    + match goal with
      | |- context [send_reminder_loop e users_info rest custom_message ?r' ?w'] =>
          destruct (IH r' w' Hrest) as (new & H1 & H2 & H3 & H4 & H5 & H6 & H7 & H8 & H9)
      end.
      exists (Delivered user_id user_id message false :: new).
      cbn [successful failed skipped_bots users log trace posted files] in *.
      rewrite length_app, Nat.add_1_r in H2.
      split; [by rewrite H1, <- app_assoc |].
      split; [split; [| done]; cbn;
              split; [done | split; [done | split;
                [apply reminder_message_mention | done]]] |].
      split; [done |]. split; [done |]. split; [done |].
      change (reached (Delivered user_id user_id message false :: new))
        with (reached new).
      cbn [length]. repeat split; lia.
Qed.

(** X23: [send_reminder_to_users] on every list of users, every custom
    message and every behaviour of the platform.  Each message sent is a
    direct message to a user of the list, names that user (with the custom
    text as with the generated one), and goes to nobody the platform called
    a bot when it was asked; the three counters add up to the length of the
    list; the users reported are those whose message the platform accepted,
    and [successful] is their number; the messages posted grow by the
    accepted ones, and no file is touched. *)
Theorem send_reminder_to_users_spec e users_info users_ custom_message w :
  let out := send_reminder_to_users e users_info users_ custom_message w in
  exists new,
    trace out.2 = trace w ++ new
    /\ reminders_from users_info users_ (length (trace w)) new
    /\ posted out.2 = posted w ++ accepted new
    /\ files out.2 = files w
    /\ users out.1 = reached new
    /\ successful out.1 = Z.of_nat (length (users out.1))
    /\ successful out.1 + failed out.1 + skipped_bots out.1
       = Z.of_nat (length users_)
    /\ 0 <= failed out.1 /\ 0 <= skipped_bots out.1.
Proof.
  cbv zeta. unfold send_reminder_to_users.
  destruct (send_reminder_loop_spec e users_info custom_message users_ users_
              (mkresults 0 0 0 []) w) as (new & H1 & H2 & H3 & H4 & H5 & H6 & H7 & H8 & H9);
    [done |].
  exists new. cbn [successful failed skipped_bots users app] in *.
  repeat (split; [done |]). rewrite H5. repeat split; lia.
Qed.

End reminder_facts.

Module remind_facts.
Import Text slack_utils birthday birthday_store slack_api reminders list_commands.
Import text_facts scheduler_facts ledger_facts reminder_facts store_disk_facts.

(** X24: the [remind] command, whatever the platform and the files do.
    Without the permission it says so and changes nothing.  Otherwise the
    messages it sends, if any, are reminders to members of the channel that
    have no entry in the dictionary [load_birthdays] returned: nobody with
    a stored birthday is reminded, and nobody outside the channel. *)
Theorem handle_remind_command_spec fuel admins perms users_info members_api
    o e parts user_id w d said w' d' :
  handle_remind_command fuel admins perms users_info members_api o e parts
    user_id w d = Some (said, w', d') ->
  if check_command_permission admins perms (users_info (length (trace w)))
       user_id "remind"
  then
    exists channel_members new,
      get_channel_members fuel members_api = Some channel_members
      /\ trace w' = trace w ++ new
      /\ files w' = files w
      /\ (new = []
          \/ exists birthdays,
               load_birthdays fuel o d = Some (birthdays, d')
               /\ reminders_from users_info
                    (List.filter (fun user => negb (dict_mem user birthdays))
                       channel_members)
                    (length (trace w)) new)
  else w' = w /\ d' = d.
Proof.
  unfold handle_remind_command.
  destruct (check_command_permission admins perms (users_info (length (trace w)))
              user_id "remind"); cbn [negb]; [| by intros [= <- <- <-]].
  destruct (get_channel_members fuel members_api) as [channel_members |];
    [| done]. cbn -[List.filter send_reminder_to_users].
  destruct channel_members as [| m ms].
  { intros [= <- <- <-]. exists [], []. rewrite app_nil_r. eauto. }
  destruct (load_birthdays fuel o d) as [[birthdays d1] |]; [| done].
  cbn -[List.filter send_reminder_to_users].
  remember (List.filter (fun user => negb (dict_mem user birthdays)) (m :: ms))
    as missing eqn:Hmissing.
  destruct missing as [| u us].
  { intros [= <- <- <-]. exists (m :: ms), []. rewrite app_nil_r. eauto. }
  remember (u :: us) as missing eqn:Hus.
  assert (Hne : match missing with [] => False | _ :: _ => True end) by by subst.
  clear Hus. destruct missing as [| u' us']; [done |]. clear Hne.
  remember (u' :: us') as missing eqn:Hus. clear Hus u us u' us'.
  unfold send_reminder_to_users.
  destruct (send_reminder_loop_spec e users_info
              (match parts with
               | _ :: (_ :: _) as parts0 => Some (join " " (tail parts0))
               | _ => None
               end) missing missing (mkresults 0 0 0 []) w)
    as (new & H1 & H2 & H3 & H4 & _); [done |].
  destruct (send_reminder_loop _ _ _ _ _ _) as [results w1].
  intros [= <- <- <-]. cbn [fst snd] in *.
  exists (m :: ms), new. split; [done |]. split; [done |]. split; [done |].
  right. exists birthdays. split; [done |]. by rewrite <- Hmissing.
Qed.

(** A channel of two members on one page. *)
Definition one_page (n : nat) (cursor : option string) : option page :=
  Some (mkpage ["U1"%string; "U3"%string] None).

Lemma handle_remind_command_spec_witness :
  exists said w' d',
    handle_remind_command 2 ["U0"%string] ∅ (fun _ _ => None) one_page
      (calm 2 "20240102_080000") accepting_env ["remind"%string] "U0"
      (mkworld ∅ [] []) two_on_disk = Some (said, w', d')
    /\ exists channel_members new,
         get_channel_members 2 one_page = Some channel_members
         /\ trace w' = [] ++ new
         /\ files w' = ∅
         /\ (new = []
             \/ exists birthdays,
                  load_birthdays 2 (calm 2 "20240102_080000") two_on_disk
                  = Some (birthdays, d')
                  /\ reminders_from (fun _ _ => None)
                       (List.filter (fun user => negb (dict_mem user birthdays))
                          channel_members)
                       0 new).
Proof.
  destruct (handle_remind_command 2 ["U0"%string] ∅ (fun _ _ => None) one_page
              (calm 2 "20240102_080000") accepting_env ["remind"%string] "U0"
              (mkworld ∅ [] []) two_on_disk) as [[[said w'] d'] |] eqn:E;
    [| vm_compute in E; discriminate E].
  exists said, w', d'. split; [reflexivity |].
  exact (handle_remind_command_spec _ _ _ _ _ _ _ _ _ _ _ _ _ _ E).
Defined.

End remind_facts.

Module pipeline_facts.
Import Text date_utils slack_utils message_generator storage announcement birthday.
Import birthday_store.
Import text_facts composer_facts scheduler_facts template_facts ledger_facts.
Import store_disk_facts.

(** *** The text that is delivered *)





(** *** The ledger *)

(** X26: [mark_birthday_announced] adds the subject to the ledger of the
    day: after it [get_announced_birthdays_today] returns what it returned
    before, followed by the subject; no other file and no message is
    touched. *)
Theorem mark_appends_to_ledger e u w :
  fs_ok e -> clean_id u ->
  let w' := mark_birthday_announced e u w in
  get_announced_birthdays_today e w' = get_announced_birthdays_today e w ++ [u]
  /\ (forall name, name <> announced_file e -> files w' !! name = files w !! name)
  /\ posted w' = posted w.
Proof.
  intros Hfs [Hstrip Hne] w'. unfold w'.
  rewrite !announced_spec by done.
  unfold mark_birthday_announced. rewrite Hfs. cbn [log files posted].
  rewrite lookup_insert_eq. cbn [default from_option id].
  split; [| split; [intros name Hname; by rewrite lookup_insert_ne | done]].
  rewrite fmap_app, List.filter_app. f_equal.
  cbn. rewrite Hstrip. by destruct u.
Qed.

Lemma mark_appends_to_ledger_witness :
  let w' := mark_birthday_announced accepting_env "U1" stale_world in
  get_announced_birthdays_today accepting_env w'
  = get_announced_birthdays_today accepting_env stale_world ++ ["U1"%string]
  /\ (forall name, name <> announced_file accepting_env ->
                   files w' !! name = files stale_world !! name)
  /\ posted w' = posted stale_world.
Proof.
  apply (mark_appends_to_ledger accepting_env "U1" stale_world);
    [intros op; reflexivity | split; [reflexivity | discriminate]].
Defined.

(** *** From the file to the run *)







End pipeline_facts.

Module user_command_facts.
Import Text date_utils slack_utils announcement birthday birthday_store user_commands.
Import text_facts date_facts scheduler_facts stored_date_facts store_facts store_disk_facts.

Lemma date_to_words_untruthy date yr :
  truthy_int yr = false -> date_to_words date yr = date_to_words date None.
Proof.
  intros H. unfold date_to_words.
  destruct (strptime_dm date) as [t | err]; [| done]. cbn [res_bind].
  destruct yr as [y |]; [| done]. by rewrite H.
Qed.

Lemma words_and_age_cases e date yr :
  match date_to_words date yr with
  | Ok words => exists age_text, words_and_age e date yr = Ok (words, age_text)
  | Raise err => words_and_age e date yr = Raise err
  end.
Proof.
  unfold words_and_age. destruct yr as [y |].
  - destruct (truthy_int (Some y)) eqn:Hy.
    + destruct (date_to_words date (Some y)); cbn [res_bind]; eauto.
    + rewrite (date_to_words_untruthy date (Some y) Hy).
      destruct (date_to_words date None); cbn [res_bind]; eauto.
  - destruct (date_to_words date None); cbn [res_bind]; eauto.
Qed.

(** What the two handlers have in hand: a date [extract_date] accepted, a
    store that loads, a file that can be written, and an entry that can be
    stored. *)
Definition ready (fuel : nat) (o : io) (user_id : string) (result : extracted)
    (date : string) (d : disk) (b : dict) : Prop :=
  (exists message, extract_date message = result)
  /\ ex_status result = success /\ ex_date result = Some date
  /\ (exists d1, load_birthdays fuel o d = Some (b, d1))
  /\ write_fails o = false
  /\ storable (dict_set user_id (mkbirthday date (ex_year result)) b) = true.

Lemma ready_words fuel o user_id result date d b e :
  ready fuel o user_id result date d b ->
  (date = "29/02"%string /\ words_and_age e date (ex_year result) = Raise ValueError)
  \/ (date <> "29/02"%string
      /\ (exists words age_text,
            words_and_age e date (ex_year result) = Ok (words, age_text))
      /\ (exists today, check_if_birthday_today (clk e) date None = Ok today)).
Proof.
  intros ([message Hex] & Hst & Hdate & _).
  destruct result as [st dt yr]. cbn [ex_status ex_date ex_year] in *. subst st dt.
  destruct (accepted_date_cases message date yr Hex)
    as (dd & mm & Hsplit & _ & _ & _ & _ & Hraise & Hok).
  pose proof (words_and_age_cases e date yr) as Hwords.
  destruct (decide (date = "29/02"%string)) as [Heq | Hne].
  - left. split; [done |]. apply Hraise in Heq. by rewrite Heq in Hwords.
  - right. split; [done |]. split.
    + destruct (Hok Hne) as [words Hw]. rewrite Hw in Hwords.
      destruct Hwords as [age_text ?]. eauto.
    + unfold check_if_birthday_today. rewrite Hsplit. cbn [res_bind]. eauto.
Qed.

(** X28: [handle_add_command] on a date that [extract_date] accepts.  The
    entry is saved first: whatever follows, a load after the command
    returns the dictionary with the entry of this user set to the date and
    year.  For every date but 29/02 the command then says one thing to the
    user and ends; for 29/02 [date_to_words] raises after the entry was
    saved, and the command ends with the exception and nothing said. *)
Theorem handle_add_command_spec fuel o o' e parts user_id s date b :
  let result := extract_date (join " " (tail parts)) in
  ready fuel o user_id result date (sd s) b ->
  exists r s',
    handle_add_command fuel o e parts user_id s = Some (r, s')
    /\ (forall fuel',
          load_birthdays (S fuel') o' (sd s')
          = Some (dict_set user_id (mkbirthday date (ex_year result)) b, sd s'))
    /\ (if decide (date = "29/02"%string)
        then r = Raise ValueError /\ said s' = said s /\ sw s' = sw s
        else r = Ok tt /\ exists text, said s' = said s ++ [text]).
Proof.
  intros result Hready.
  pose proof (ready_words fuel o user_id result date (sd s) b e Hready) as Hwords.
  destruct Hready as (_ & Hst & Hdate & [d1 Hload] & Hw & Hstor).
  unfold handle_add_command. fold result. rewrite Hst, Hdate. cbn [default from_option id].
  unfold save_birthday. rewrite Hload. cbn [mbind option_bind].
  set (d2 := save_birthdays o (dict_set user_id (mkbirthday date (ex_year result)) b) d1).
  assert (Hafter : forall fuel',
             load_birthdays (S fuel') o' d2
             = Some (dict_set user_id (mkbirthday date (ex_year result)) b, d2))
    by (intros fuel'; by apply save_then_load_eq).
  destruct Hwords as [[Heq Hraise] | (Hne & (words & age_text & Hok) & [today Htoday])].
  - rewrite Hraise. eexists _, _. split; [done |]. cbn [sd said sw].
    split; [done |]. by destruct (decide (date = "29/02"%string)).
  - rewrite Hok, Htoday.
    destruct today; [| destruct (dict_mem user_id b)];
      (eexists _, _; split; [done |]; cbn [sd said sw say];
       split; [done |]; destruct (decide (date = "29/02"%string)); [done |];
       split; [done |]; eauto).
Qed.

Lemma handle_add_command_spec_witness :
  exists r s',
    handle_add_command 1 (calm 2 "20240102_080000") accepting_env
      ["add"%string; "29/02/2000"%string] "U3"
      (mksession (mkworld ∅ [] []) two_on_disk []) = Some (r, s')
    /\ (forall fuel',
          load_birthdays (S fuel') (calm 3 "20240103_080000") (sd s')
          = Some (dict_set "U3" (mkbirthday "29/02" (Some 2000)) two_birthdays, sd s'))
    /\ r = Raise ValueError /\ said s' = [] /\ sw s' = mkworld ∅ [] [].
Proof.
  assert (Hready : ready 1 (calm 2 "20240102_080000") "U3"
                     (extract_date (join " " (tail ["add"%string; "29/02/2000"%string])))
                     "29/02" two_on_disk two_birthdays).
  { split; [by eexists |]. split; [vm_compute; reflexivity |].
    split; [vm_compute; reflexivity |].
    split; [exists two_on_disk; vm_compute; reflexivity |].
    split; vm_compute; reflexivity. }
  destruct (handle_add_command_spec 1 (calm 2 "20240102_080000")
              (calm 3 "20240103_080000") accepting_env
              ["add"%string; "29/02/2000"%string] "U3"
              (mksession (mkworld ∅ [] []) two_on_disk []) "29/02" two_birthdays
              Hready) as (r & s' & H1 & H2 & H3).
  exists r, s'. split; [exact H1 |]. split; [exact H2 | exact H3].
Defined.

(** X29: [handle_dm_date] on a date that [extract_date] accepts.  The words
    are built first: for 29/02 [date_to_words] raises before anything is
    saved or said, and the command leaves the state as it was.  For every
    other date the entry is saved, a load after the command returns the
    dictionary with it, and one thing is said to the user. *)
Theorem handle_dm_date_spec fuel o o' e user result s date b :
  ready fuel o user result date (sd s) b ->
  if decide (date = "29/02"%string)
  then handle_dm_date fuel o e user result s = Some (Raise ValueError, s)
  else
    exists s',
      handle_dm_date fuel o e user result s = Some (Ok tt, s')
      /\ (forall fuel',
            load_birthdays (S fuel') o' (sd s')
            = Some (dict_set user (mkbirthday date (ex_year result)) b, sd s'))
      /\ exists text, said s' = said s ++ [text].
Proof.
  intros Hready.
  pose proof (ready_words fuel o user result date (sd s) b e Hready) as Hwords.
  destruct Hready as (_ & Hst & Hdate & [d1 Hload] & Hw & Hstor).
  unfold handle_dm_date. rewrite Hdate. cbn [default from_option id].
  destruct Hwords as [[Heq Hraise] | (Hne & (words & age_text & Hok) & [today Htoday])].
  - rewrite Hraise. by destruct (decide (date = "29/02"%string)).
  - destruct (decide (date = "29/02"%string)); [done |].
    rewrite Hok. unfold save_birthday. rewrite Hload. cbn [mbind option_bind].
    set (d2 := save_birthdays o (dict_set user (mkbirthday date (ex_year result)) b) d1).
    assert (Hafter : forall fuel',
               load_birthdays (S fuel') o' d2
               = Some (dict_set user (mkbirthday date (ex_year result)) b, d2))
      by (intros fuel'; by apply save_then_load_eq).
    rewrite Htoday.
    destruct today; [| destruct (dict_mem user b)];
      (eexists; split; [done |]; cbn [sd said sw say]; split; [done |]; eauto).
Qed.

Lemma handle_dm_date_spec_witness :
  exists s',
    handle_dm_date 1 (calm 2 "20240102_080000") accepting_env "U3"
      (extract_date "14/02") (mksession (mkworld ∅ [] []) two_on_disk [])
    = Some (Ok tt, s')
    /\ (forall fuel',
          load_birthdays (S fuel') (calm 3 "20240103_080000") (sd s')
          = Some (dict_set "U3" (mkbirthday "14/02" None) two_birthdays, sd s'))
    /\ exists text, said s' = [] ++ [text].
Proof.
  assert (Hready : ready 1 (calm 2 "20240102_080000") "U3" (extract_date "14/02")
                     "14/02" two_on_disk two_birthdays).
  { split; [by eexists |]. split; [vm_compute; reflexivity |].
    split; [vm_compute; reflexivity |].
    split; [exists two_on_disk; vm_compute; reflexivity |].
    split; vm_compute; reflexivity. }
  exact (handle_dm_date_spec 1 (calm 2 "20240102_080000") (calm 3 "20240103_080000")
           accepting_env "U3" (extract_date "14/02")
           (mksession (mkworld ∅ [] []) two_on_disk []) "14/02" two_birthdays Hready).
Defined.

End user_command_facts.
